(** * DodoEnv: the episodic state machine, reward registry and
      observation assembler of [dodo_env.py]

    The Python class [DodoEnv] keeps one tensor per quantity, each with one
    row per simulated environment.  The embedding keeps that layout: a
    tensor of shape (N, k) is a list of N rows; rows of a width fixed by the
    code (3, 4, 2) are tuples, rows whose width comes from the configuration
    (A actuated joints, C command entries, the observation) are lists.

    Numbers.  Tensor entries are rationals ([Q]): the development is about
    the arithmetic the code writes down, not about float32 rounding, NaN or
    infinities.  Results of arithmetic are compared with [==]; rows that a
    call does not touch are compared with [=].  [exp], [pi] and the
    quaternion helpers of [genesis.utils.geom] are parameters (class
    [Externals]).  Two quotients of Python floats are turned into integers,
    by [math.ceil] for [max_episode_length] and by [int] for the resampling
    period; there the rounding of the division decides the integer, so the
    quotient is the parameter [float_div], the division of doubles, and not
    the exact quotient of rationals.

    Effects.  Python exceptions are the [Raise] branch of [result]; the
    attributes of [self] are the record [Env], threaded through every call;
    the global generator behind [torch.rand] is the record [Rng]; what the
    simulator reports after [scene.step()] is the argument [SimOut] of
    [step], and the calls made to the simulator are appended to
    [sim_calls].  Shape errors between whole tensors are not modelled: the
    theorems assume the shape invariant [wf_env]. *)

From Stdlib Require Import QArith Qround Qabs Qminmax Lqa ZArith Lia.
From Stdlib Require Floats Uint63.
From stdpp Require Import base list strings.

(** ** Python values: exceptions, dictionaries, list search *)

Inductive exn : Type :=
| KeyError (key : string)
| AttributeError (attr : string)
| ValueError (what : string)
| IndexError
| ZeroDivisionError.

Inductive result (A : Type) : Type :=
| Ok (a : A)
| Raise (e : exn).
Arguments Ok {A} a.
Arguments Raise {A} e.

#[global] Instance result_ret : MRet result := fun _ a => Ok a.
#[global] Instance result_bind : MBind result :=
  fun _ _ f m => match m with Ok a => f a | Raise e => Raise e end.

(** A [dict] keeps insertion order, as Python's does: the reward loop of
    [step] iterates over it. *)
Abbreviation dict V := (list (string * V)).

Fixpoint dict_get {V} (d : dict V) (k : string) : option V :=
  match d with
  | [] => None
  | (k', v) :: d' => if String.eqb k' k then Some v else dict_get d' k
  end.

(** [d[k]] *)
Definition dict_item {V} (d : dict V) (k : string) : result V :=
  match dict_get d k with Some v => Ok v | None => Raise (KeyError k) end.

(** [d[k] = v]: an existing key keeps its place, a new key goes last. *)
Fixpoint dict_set {V} (d : dict V) (k : string) (v : V) : dict V :=
  match d with
  | [] => [(k, v)]
  | (k', v') :: d' =>
      if String.eqb k' k then (k', v) :: d' else (k', v') :: dict_set d' k v
  end.

Definition dict_keys {V} (d : dict V) : list string := d.*1.

(** [l.index(x)] *)
Definition list_index (l : list string) (x : string) : result nat :=
  match list_find (fun y => y = x) l with
  | Some (i, _) => Ok i
  | None => Raise (ValueError x)
  end.

(** ** Numbers *)

#[global] Instance Q_inhabited : Inhabited Q := populate 0%Q.

Definition Qltb (x y : Q) : bool :=
  match (x ?= y)%Q with Lt => true | _ => false end.

(** [t.float()] on a boolean tensor *)
Definition Qofb (b : bool) : Q := if b then 1%Q else 0%Q.

(** [torch.relu], [torch.clamp(x, min=lo)], [torch.clip(x, lo, hi)] *)
Definition relu (x : Q) : Q := Qmax x 0.
Definition clamp_min (x lo : Q) : Q := Qmax x lo.
Definition clip (x lo hi : Q) : Q := Qmin (Qmax x lo) hi.

(** [torch.sign] *)
Definition Qsign (x : Q) : Q := inject_Z (Z.sgn (Qnum x)).

(** Python's [int(x)] on a float: truncation towards zero. *)
Definition py_int (x : Q) : Z :=
  if Qle_bool 0 x then Qfloor x else Qceiling x.

(** An [int32] tensor entry after an addition. *)
Definition wrap_int32 (z : Z) : Z := ((z + 2 ^ 31) mod 2 ^ 32 - 2 ^ 31)%Z.

Definition Qsum (l : list Q) : Q := foldr Qplus 0%Q l.

(** [torch.mean] of a non-empty vector *)
Definition Qmean (l : list Q) : Q := (Qsum l / inject_Z (Z.of_nat (length l)))%Q.

Definition Vec3 : Type := Q * Q * Q.
Definition Quat : Type := Q * Q * Q * Q.

Definition vx (v : Vec3) : Q := v.1.1.
Definition vy (v : Vec3) : Q := v.1.2.
Definition vz (v : Vec3) : Q := v.2.

Definition vec3_list (v : Vec3) : list Q := [vx v; vy v; vz v].
Definition vec3_scale (v : Vec3) (s : Q) : Vec3 :=
  ((vx v * s)%Q, (vy v * s)%Q, (vz v * s)%Q).
Definition vec3_zero : Vec3 := (0%Q, 0%Q, 0%Q).
Definition quat_zero : Quat := (0%Q, 0%Q, 0%Q, 0%Q).

(** ** Tensors as lists of rows *)

Definition zeros (n : nat) : list Q := replicate n 0%Q.
Definition zeros2 (n k : nat) : list (list Q) := replicate n (zeros k).

(** [t[ids] = vals]: the j-th listed row receives the j-th value. *)
Definition rows_put {A} (ids : list nat) (vals : list A) (t : list A) : list A :=
  foldl (fun t iv => <[iv.1 := iv.2]> t) t (zip ids vals).

(** [t[ids] = v] with one value broadcast to every listed row. *)
Definition rows_fill {A} (ids : list nat) (v : A) (t : list A) : list A :=
  rows_put ids (replicate (length ids) v) t.

(** [t[ids]] *)
Definition rows_get {A} (d : A) (t : list A) (ids : list nat) : list A :=
  (fun i => default d (t !! i)) <$> ids.

(** [t[ids, c] = vals] *)
Definition col_put (ids : list nat) (c : nat) (vals : list Q)
    (t : list (list Q)) : list (list Q) :=
  foldl (fun t iv => alter (fun row => <[c := iv.2]> row) iv.1 t) t (zip ids vals).

(** [t[:, c]] for a tensor declared with [width] columns. *)
Definition col_get (width c : nat) (t : list (list Q)) : result (list Q) :=
  if (c <? width)%nat then Ok ((fun row => row !!! c) <$> t) else Raise IndexError.

(** [b.nonzero(as_tuple=False).flatten()] *)
Fixpoint nonzero_from (k : nat) (b : list bool) : list nat :=
  match b with
  | [] => []
  | x :: b' => if x then k :: nonzero_from (S k) b' else nonzero_from (S k) b'
  end.
Definition nonzero (b : list bool) : list nat := nonzero_from 0 b.

(** Index tensors must address existing rows. *)
Definition check_rows (n : nat) (ids : list nat) : result unit :=
  if forallb (fun i => (i <? n)%nat) ids then Ok tt else Raise IndexError.

(** ** The random generator behind [torch.rand] *)

Record Rng : Type := { draws : nat -> Q; cursor : nat }.

Definition torch_rand (n : nat) (g : Rng) : list Q * Rng :=
  (draws g <$> seq (cursor g) n, {| draws := draws g; cursor := cursor g + n |}).

Definition gs_rand_float (lower upper : Q) (n : nat) (g : Rng) : list Q * Rng :=
  let '(u, g') := torch_rand n g in
  ((fun x => ((upper - lower) * x + lower)%Q) <$> u, g').

(** The generator's contract: every draw lies in [0, 1). *)
Definition unit_draws (g : Rng) : Prop :=
  forall k, (0 <= draws g k)%Q /\ (draws g k < 1)%Q.

(** ** Configuration dictionaries *)

Module Cfg.

Record Env : Type := {
  num_actions : nat;
  simulate_action_latency : option bool;
  episode_length_s : Q;
  base_init_pos : Vec3;
  base_init_quat : Quat;
  joint_names : list string;
  default_joint_angles : dict Q;
  kp : Q;
  kd : Q;
  clip_actions : option Q;
  action_scale : Q;
  resampling_time_s : Q;
  termination_if_pitch_greater_than : Q;
  termination_if_roll_greater_than : Q
}.

Record Obs : Type := {
  num_obs : nat;
  obs_scales : option (dict Q)
}.

Record Reward : Type := {
  reward_scales : option (dict Q);
  tracking_sigma : option Q;
  base_height_target : option Q
}.

Record Command : Type := {
  num_commands : nat;
  lin_vel_x_range : Q * Q;
  lin_vel_y_range : Q * Q;
  ang_vel_range : Q * Q
}.

End Cfg.

(** ** What lies outside the file *)

Class Externals : Type := {
  (** [x / y] on two Python floats: the quotient as the double the
      interpreter computes, seen as a rational *)
  float_div : Q -> Q -> Q;
  exp : Q -> Q;
  pi : Q;
  inv_quat : Quat -> Quat;
  transform_quat_by_quat : Quat -> Quat -> Quat;
  transform_by_quat : Vec3 -> Quat -> Vec3;
  (** [quat_to_xyz(q, rpy=True, degrees=True)]: (roll, pitch, yaw) *)
  quat_to_xyz : Quat -> Vec3;
  (** [robot.get_joint(name).dof_start] *)
  dof_start : string -> nat
}.

(** What the simulator reports once [scene.step()] has run. *)
Record SimOut : Type := {
  ankle_pos : list Vec3 * list Vec3;      (* link.get_pos(), per ankle link *)
  ankle_quat : list Quat * list Quat;     (* link.get_quat(), per ankle link *)
  robot_pos : list Vec3;
  robot_quat : list Quat;
  robot_vel : list Vec3;
  robot_ang : list Vec3;
  dofs_position : list (list Q);
  dofs_velocity : list (list Q)
}.

(** Calls made to the simulator. *)
Inductive SimCall : Type :=
| set_dofs_kp (kp : list Q) (dofs : list nat)
| set_dofs_kv (kd : list Q) (dofs : list nat)
| set_dofs_force_range (lower upper : list Q) (dofs : list nat)
| control_dofs_position (target : list (list Q)) (dofs : list nat)
| scene_step
| set_dofs_position (position : list (list Q)) (dofs : list nat) (envs : list nat)
| set_pos (pos : list Vec3) (envs : list nat)
| set_quat (quat : list Quat) (envs : list nat)
| zero_all_dofs_velocity (envs : list nat).

(** ** The reward registry: the [_reward_*] methods *)

Inductive reward_term : Type :=
| tracking_lin_vel | tracking_ang_vel | lin_vel_z | action_rate
| similar_to_default | base_height | orientation_stability | survive
| penalize_hip_aa | penalize_hip_fe | penalize_hip_fe_diff
| penalize_knee_fe_left | penalize_knee_fe_right | penalize_ankle_height
| gait_regularity | foot_orientation | step_height_consistency
| foot_contact_penalty | foot_contact_switch.

Definition reward_methods : dict reward_term :=
  [ ("tracking_lin_vel", tracking_lin_vel); ("tracking_ang_vel", tracking_ang_vel);
    ("lin_vel_z", lin_vel_z); ("action_rate", action_rate);
    ("similar_to_default", similar_to_default); ("base_height", base_height);
    ("orientation_stability", orientation_stability); ("survive", survive);
    ("penalize_hip_aa", penalize_hip_aa); ("penalize_hip_fe", penalize_hip_fe);
    ("penalize_hip_fe_diff", penalize_hip_fe_diff);
    ("penalize_knee_fe_left", penalize_knee_fe_left);
    ("penalize_knee_fe_right", penalize_knee_fe_right);
    ("penalize_ankle_height", penalize_ankle_height);
    ("gait_regularity", gait_regularity); ("foot_orientation", foot_orientation);
    ("step_height_consistency", step_height_consistency);
    ("foot_contact_penalty", foot_contact_penalty);
    ("foot_contact_switch", foot_contact_switch) ]%string.

(** [getattr(self, f"_reward_{name}")] *)
Definition getattr_reward (name : string) : result reward_term :=
  match dict_get reward_methods name with
  | Some t => Ok t
  | None => Raise (AttributeError ("_reward_" ++ name))
  end.

(** ** The attributes of [self] *)

Record Extras : Type := {
  observations_critic : option (list (list Q));   (* extras["observations"]["critic"] *)
  episode : option (dict Q)                       (* extras["episode"] *)
}.

(** Attributes assigned once, in the body of [__init__]. *)
Record Attrs : Type := {
  num_envs : nat;
  num_obs : nat;
  num_actions : nat;
  num_commands : nat;
  simulate_action_latency : bool;
  dt : Q;
  max_episode_length : Z;
  env_cfg : Cfg.Env;
  obs_cfg : Cfg.Obs;
  reward_cfg : Cfg.Reward;
  command_cfg : Cfg.Command;
  obs_scales : dict Q;
  reward_scales : dict Q;
  base_init_pos : Vec3;
  base_init_quat : Quat;
  inv_base_init_quat : Quat;
  motors_dof_idx : list nat;
  hip_aa_indices : nat * nat;
  hip_fe_indices : nat * nat;
  knee_fe_indices : nat * nat;
  reward_functions : dict reward_term
}.

(** [self]: the attributes above, the buffers of [_init_buffers] and of
    [__init__], and the three attributes that do not exist before the first
    [step]. *)
Record Env : Type := {
  attrs :> Attrs;
  global_gravity : list Vec3;
  commands_scale : list Q;
  default_dof_pos : list Q;
  hip_angle_history : list (list Q * list Q);
  history_idx : nat;
  episode_sums : dict (list Q);
  prev_contact : list (Q * Q);
  base_lin_vel : list Vec3;
  base_ang_vel : list Vec3;
  projected_gravity : list Vec3;
  obs_buf : list (list Q);
  rew_buf : list Q;
  reset_buf : list bool;
  episode_length_buf : list Z;
  commands : list (list Q);
  actions : list (list Q);
  last_actions : list (list Q);
  dof_pos : list (list Q);
  dof_vel : list (list Q);
  last_dof_vel : list (list Q);
  base_pos : list Vec3;
  base_quat : list Quat;
  extras : Extras;
  current_ankle_heights : option (list (Q * Q));
  current_foot_orientations : option (list (Quat * Quat));
  base_euler : option (list Vec3);
  sim_calls : list SimCall
}.

(** ** Attribute assignment *)

Definition with_commands (v : list (list Q)) (e : Env) : Env :=
  {| attrs := attrs e; global_gravity := global_gravity e;
     commands_scale := commands_scale e; default_dof_pos := default_dof_pos e;
     hip_angle_history := hip_angle_history e; history_idx := history_idx e;
     episode_sums := episode_sums e; prev_contact := prev_contact e;
     base_lin_vel := base_lin_vel e; base_ang_vel := base_ang_vel e;
     projected_gravity := projected_gravity e; obs_buf := obs_buf e;
     rew_buf := rew_buf e; reset_buf := reset_buf e;
     episode_length_buf := episode_length_buf e; commands := v;
     actions := actions e; last_actions := last_actions e;
     dof_pos := dof_pos e; dof_vel := dof_vel e; last_dof_vel := last_dof_vel e;
     base_pos := base_pos e; base_quat := base_quat e; extras := extras e;
     current_ankle_heights := current_ankle_heights e;
     current_foot_orientations := current_foot_orientations e;
     base_euler := base_euler e; sim_calls := sim_calls e |}.

Definition with_reset_buf (v : list bool) (e : Env) : Env :=
  {| attrs := attrs e; global_gravity := global_gravity e;
     commands_scale := commands_scale e; default_dof_pos := default_dof_pos e;
     hip_angle_history := hip_angle_history e; history_idx := history_idx e;
     episode_sums := episode_sums e; prev_contact := prev_contact e;
     base_lin_vel := base_lin_vel e; base_ang_vel := base_ang_vel e;
     projected_gravity := projected_gravity e; obs_buf := obs_buf e;
     rew_buf := rew_buf e; reset_buf := v;
     episode_length_buf := episode_length_buf e; commands := commands e;
     actions := actions e; last_actions := last_actions e;
     dof_pos := dof_pos e; dof_vel := dof_vel e; last_dof_vel := last_dof_vel e;
     base_pos := base_pos e; base_quat := base_quat e; extras := extras e;
     current_ankle_heights := current_ankle_heights e;
     current_foot_orientations := current_foot_orientations e;
     base_euler := base_euler e; sim_calls := sim_calls e |}.

Definition with_prev_contact (v : list (Q * Q)) (e : Env) : Env :=
  {| attrs := attrs e; global_gravity := global_gravity e;
     commands_scale := commands_scale e; default_dof_pos := default_dof_pos e;
     hip_angle_history := hip_angle_history e; history_idx := history_idx e;
     episode_sums := episode_sums e; prev_contact := v;
     base_lin_vel := base_lin_vel e; base_ang_vel := base_ang_vel e;
     projected_gravity := projected_gravity e; obs_buf := obs_buf e;
     rew_buf := rew_buf e; reset_buf := reset_buf e;
     episode_length_buf := episode_length_buf e; commands := commands e;
     actions := actions e; last_actions := last_actions e;
     dof_pos := dof_pos e; dof_vel := dof_vel e; last_dof_vel := last_dof_vel e;
     base_pos := base_pos e; base_quat := base_quat e; extras := extras e;
     current_ankle_heights := current_ankle_heights e;
     current_foot_orientations := current_foot_orientations e;
     base_euler := base_euler e; sim_calls := sim_calls e |}.

(** [self.rew_buf] and [self.episode_sums], written together by the reward
    loop of [step]. *)
Definition with_rewards (rew : list Q) (sums : dict (list Q)) (e : Env) : Env :=
  {| attrs := attrs e; global_gravity := global_gravity e;
     commands_scale := commands_scale e; default_dof_pos := default_dof_pos e;
     hip_angle_history := hip_angle_history e; history_idx := history_idx e;
     episode_sums := sums; prev_contact := prev_contact e;
     base_lin_vel := base_lin_vel e; base_ang_vel := base_ang_vel e;
     projected_gravity := projected_gravity e; obs_buf := obs_buf e;
     rew_buf := rew; reset_buf := reset_buf e;
     episode_length_buf := episode_length_buf e; commands := commands e;
     actions := actions e; last_actions := last_actions e;
     dof_pos := dof_pos e; dof_vel := dof_vel e; last_dof_vel := last_dof_vel e;
     base_pos := base_pos e; base_quat := base_quat e; extras := extras e;
     current_ankle_heights := current_ankle_heights e;
     current_foot_orientations := current_foot_orientations e;
     base_euler := base_euler e; sim_calls := sim_calls e |}.

(** [self.obs_buf], [self.last_actions], [self.last_dof_vel] and
    [self.extras], written together at the end of [step]. *)
Definition with_observation (obs : list (list Q)) (la ldv : list (list Q))
    (ex : Extras) (e : Env) : Env :=
  {| attrs := attrs e; global_gravity := global_gravity e;
     commands_scale := commands_scale e; default_dof_pos := default_dof_pos e;
     hip_angle_history := hip_angle_history e; history_idx := history_idx e;
     episode_sums := episode_sums e; prev_contact := prev_contact e;
     base_lin_vel := base_lin_vel e; base_ang_vel := base_ang_vel e;
     projected_gravity := projected_gravity e; obs_buf := obs;
     rew_buf := rew_buf e; reset_buf := reset_buf e;
     episode_length_buf := episode_length_buf e; commands := commands e;
     actions := actions e; last_actions := la;
     dof_pos := dof_pos e; dof_vel := dof_vel e; last_dof_vel := ldv;
     base_pos := base_pos e; base_quat := base_quat e; extras := ex;
     current_ankle_heights := current_ankle_heights e;
     current_foot_orientations := current_foot_orientations e;
     base_euler := base_euler e; sim_calls := sim_calls e |}.

(** [self.<name>] for an attribute that may not exist yet *)
Definition getattr {A} (name : string) (o : option A) : result A :=
  match o with Some a => Ok a | None => Raise (AttributeError name) end.

(** [cfg[key]] for a configuration entry that may be missing *)
Definition cfg_item {A} (key : string) (o : option A) : result A :=
  match o with Some a => Ok a | None => Raise (KeyError key) end.

(** A [for] loop whose body may raise. *)
Fixpoint for_each {A S} (body : S -> A -> result S) (l : list A) (s : S) : result S :=
  match l with
  | [] => Ok s
  | x :: l' => s' ← body s x; for_each body l' s'
  end.

Section Dodo.

Context `{Externals}.

Definition CONTACT_HEIGHT : Q := 0.05.
Definition SWING_HEIGHT_THRESHOLD : Q := 0.10.

(** ** Construction *)

(** One round of the loop over [reward_scales.items()] in [__init__]. *)
Definition register_reward (dt : Q) (n : nat)
    (st : dict Q * dict reward_term * dict (list Q)) (item : string * Q)
  : result (dict Q * dict reward_term * dict (list Q)) :=
  fn ← getattr_reward item.1;
  mret (dict_set st.1.1 item.1 (item.2 * dt)%Q,
        dict_set st.1.2 item.1 fn,
        dict_set st.2 item.1 (zeros n)).

Definition _init_buffers (a : Attrs) (hist : list (list Q * list Q))
    (sums : dict (list Q)) (prev : list (Q * Q)) (calls : list SimCall)
  : result Env :=
  let N := num_envs a in
  let A := num_actions a in
  let C := num_commands a in
  ddp ← mapM (dict_item (Cfg.default_joint_angles (env_cfg a)))
             (Cfg.joint_names (env_cfg a));
  mret {| attrs := a;
          base_lin_vel := replicate N vec3_zero;
          base_ang_vel := replicate N vec3_zero;
          projected_gravity := replicate N vec3_zero;
          global_gravity := replicate N (0, 0, -1)%Q;
          obs_buf := zeros2 N (num_obs a);
          rew_buf := zeros N;
          reset_buf := replicate N true;
          episode_length_buf := replicate N 0%Z;
          commands := zeros2 N C;
          commands_scale :=
            [ default 1%Q (dict_get (obs_scales a) "lin_vel");
              default 1%Q (dict_get (obs_scales a) "lin_vel");
              default 1%Q (dict_get (obs_scales a) "ang_vel") ];
          actions := zeros2 N A;
          last_actions := zeros2 N A;
          dof_pos := zeros2 N A;
          dof_vel := zeros2 N A;
          last_dof_vel := zeros2 N A;
          base_pos := replicate N vec3_zero;
          base_quat := replicate N quat_zero;
          default_dof_pos := ddp;
          extras := {| observations_critic := None; episode := None |};
          hip_angle_history := hist; history_idx := 0;
          episode_sums := sums; prev_contact := prev;
          current_ankle_heights := None;
          current_foot_orientations := None;
          base_euler := None;
          sim_calls := calls |}.

Definition __init__ (num_envs : nat) (env_cfg : Cfg.Env) (obs_cfg : Cfg.Obs)
    (reward_cfg : Cfg.Reward) (command_cfg : Cfg.Command) : result Env :=
  let A := Cfg.num_actions env_cfg in
  let dt := 0.01%Q in
  let names := Cfg.joint_names env_cfg in
  let motors := dof_start <$> names in
  aa1 ← list_index names "Left_HIP_AA";
  aa2 ← list_index names "Right_HIP_AA";
  fe1 ← list_index names "Left_THIGH_FE";
  fe2 ← list_index names "Right_THIGH_FE";
  kn1 ← list_index names "Left_KNEE_FE";
  kn2 ← list_index names "Right_SHIN_FE";
  let force := default 100%Q (Cfg.clip_actions env_cfg) in
  let calls :=
    [ set_dofs_kp (replicate A (Cfg.kp env_cfg)) motors;
      set_dofs_kv (replicate A (Cfg.kd env_cfg)) motors;
      set_dofs_force_range (replicate A (- force * 1)%Q)
                           (replicate A (force * 1)%Q) motors ] in
  let scales0 := default [] (Cfg.reward_scales reward_cfg) in
  '(scales, fns, sums) ← for_each (register_reward dt num_envs) scales0
                                   (scales0, [], []);
  let scales := dict_set (dict_set scales "foot_contact_penalty" (-1.0 * dt)%Q)
                         "foot_contact_switch" (0.5 * dt)%Q in
  let fns := dict_set (dict_set fns "foot_contact_penalty" foot_contact_penalty)
                      "foot_contact_switch" foot_contact_switch in
  _init_buffers
    {| num_envs := num_envs;
       num_obs := Cfg.num_obs obs_cfg;
       num_actions := A;
       num_commands := Cfg.num_commands command_cfg;
       simulate_action_latency :=
         default true (Cfg.simulate_action_latency env_cfg);
       dt := dt;
       max_episode_length := Qceiling (float_div (Cfg.episode_length_s env_cfg) dt);
       env_cfg := env_cfg; obs_cfg := obs_cfg;
       reward_cfg := reward_cfg; command_cfg := command_cfg;
       obs_scales := default [] (Cfg.obs_scales obs_cfg);
       reward_scales := scales;
       base_init_pos := Cfg.base_init_pos env_cfg;
       base_init_quat := Cfg.base_init_quat env_cfg;
       inv_base_init_quat := inv_quat (Cfg.base_init_quat env_cfg);
       motors_dof_idx := motors;
       hip_aa_indices := (aa1, aa2);
       hip_fe_indices := (fe1, fe2);
       knee_fe_indices := (kn1, kn2);
       reward_functions := fns |}
    (replicate num_envs (zeros 10, zeros 10)) sums
    (replicate num_envs (0, 0)%Q) calls.

(** ** Command sampling *)

(** [self.commands[env_ids, c] = vals] *)
Definition commands_setitem (env_ids : list nat) (c : nat) (vals : list Q)
    (self : Env) : result Env :=
  if (c <? num_commands self)%nat then
    _ ← check_rows (num_envs self) env_ids;
    mret (with_commands (col_put env_ids c vals (commands self)) self)
  else Raise IndexError.

Definition _resample_commands (env_ids : list nat) (self : Env) (g : Rng)
  : result (Env * Rng) :=
  let n := length env_ids in
  let cfg := command_cfg self in
  let r0 := gs_rand_float (Cfg.lin_vel_x_range cfg).1 (Cfg.lin_vel_x_range cfg).2 n g in
  self ← commands_setitem env_ids 0 r0.1 self;
  let r1 := gs_rand_float (Cfg.lin_vel_y_range cfg).1 (Cfg.lin_vel_y_range cfg).2 n r0.2 in
  self ← commands_setitem env_ids 1 r1.1 self;
  let r2 := gs_rand_float (Cfg.ang_vel_range cfg).1 (Cfg.ang_vel_range cfg).2 n r1.2 in
  self ← commands_setitem env_ids 2 r2.1 self;
  mret (self, r2.2).

(** ** Reset *)

(** The contact flags [(h < CONTACT_HEIGHT).float()] of one row. *)
Definition contact_flags (h : Q * Q) : Q * Q :=
  (Qofb (Qltb h.1 CONTACT_HEIGHT), Qofb (Qltb h.2 CONTACT_HEIGHT)).

(** [t[ids] = 0] on rows that are lists *)
Definition rows_zero (ids : list nat) (t : list (list Q)) : list (list Q) :=
  foldl (fun t i => alter (fmap (fun _ => 0%Q)) i t) t ids.

(** One round of the loop over [self.episode_sums] in [reset_idx]. *)
Definition log_episode (episode_length_s : Q) (env_ids : list nat)
    (st : dict Q * dict (list Q)) (item : string * list Q)
  : result (dict Q * dict (list Q)) :=
  if Qeq_bool episode_length_s 0 then Raise ZeroDivisionError
  else
    let avg := (Qmean (rows_get 0%Q item.2 env_ids) / episode_length_s)%Q in
    mret (dict_set st.1 ("rew_" ++ item.1) avg,
          dict_set st.2 item.1 (rows_fill env_ids 0%Q item.2)).

Definition reset_idx (env_ids : list nat) (self : Env) (g : Rng)
  : result (Env * Rng) :=
  if (length env_ids =? 0)%nat then mret (self, g)
  else
    _ ← check_rows (num_envs self) env_ids;
    let h := match current_ankle_heights self with
             | Some cur => rows_get (0, 0)%Q cur env_ids
             | None => replicate (length env_ids) (0, 0)%Q
             end in
    let contact_init := contact_flags <$> h in
    let prev_contact' := rows_put env_ids contact_init (prev_contact self) in
    let dof_pos' := rows_fill env_ids (default_dof_pos self) (dof_pos self) in
    let dof_vel' := rows_zero env_ids (dof_vel self) in
    let base_pos' := rows_fill env_ids (base_init_pos self) (base_pos self) in
    let base_quat' := rows_fill env_ids (base_init_quat self) (base_quat self) in
    let calls :=
      [ set_dofs_position (rows_get [] dof_pos' env_ids) (motors_dof_idx self) env_ids;
        set_pos (rows_get vec3_zero base_pos' env_ids) env_ids;
        set_quat (rows_get quat_zero base_quat' env_ids) env_ids;
        zero_all_dofs_velocity env_ids ] in
    '(episode', sums') ← for_each
        (log_episode (Cfg.episode_length_s (env_cfg self)) env_ids)
        (episode_sums self) ([], episode_sums self);
    _resample_commands env_ids
      {| attrs := attrs self;
         global_gravity := global_gravity self;
         commands_scale := commands_scale self;
         default_dof_pos := default_dof_pos self;
         hip_angle_history := hip_angle_history self;
         history_idx := history_idx self;
         episode_sums := sums';
         prev_contact := prev_contact';
         base_lin_vel := rows_fill env_ids vec3_zero (base_lin_vel self);
         base_ang_vel := rows_fill env_ids vec3_zero (base_ang_vel self);
         projected_gravity := projected_gravity self;
         obs_buf := obs_buf self;
         rew_buf := rew_buf self;
         reset_buf := rows_fill env_ids true (reset_buf self);
         episode_length_buf := rows_fill env_ids 0%Z (episode_length_buf self);
         commands := commands self;
         actions := actions self;
         last_actions := rows_zero env_ids (last_actions self);
         dof_pos := dof_pos';
         dof_vel := dof_vel';
         last_dof_vel := rows_zero env_ids (last_dof_vel self);
         base_pos := base_pos';
         base_quat := base_quat';
         extras := {| observations_critic := observations_critic (extras self);
                      episode := Some episode' |};
         current_ankle_heights := current_ankle_heights self;
         current_foot_orientations := current_foot_orientations self;
         base_euler := base_euler self;
         sim_calls := sim_calls self ++ calls |}
      g.

Definition reset (self : Env) (g : Rng)
  : result (Env * Rng * (list (list Q) * option unit)) :=
  let self := with_reset_buf ((fun _ => true) <$> reset_buf self) self in
  '(self, g) ← reset_idx (seq 0 (num_envs self)) self g;
  mret (self, g, (obs_buf self, None)).

(** ** Reward terms *)

Definition sq (x : Q) : Q := (x ^ 2)%Q.

(** [self.dof_pos[:, [i, j]]] *)
Definition dof_pos_pair (ij : nat * nat) (self : Env) : result (list (Q * Q)) :=
  a ← col_get (num_actions self) ij.1 (dof_pos self);
  b ← col_get (num_actions self) ij.2 (dof_pos self);
  mret (zip a b).

Definition _reward_tracking_lin_vel (self : Env) : result (list Q) :=
  let err := zip_with
    (fun c v => (sq (c !!! 0%nat - vx v) + sq (c !!! 1%nat - vy v))%Q)
    (commands self) (base_lin_vel self) in
  sigma ← cfg_item "tracking_sigma" (Cfg.tracking_sigma (reward_cfg self));
  mret ((fun e => exp (- e / sigma)) <$> err).

Definition _reward_tracking_ang_vel (self : Env) : result (list Q) :=
  c2 ← col_get (num_commands self) 2 (commands self);
  let err := zip_with (fun c v => sq (c - vz v)) c2 (base_ang_vel self) in
  sigma ← cfg_item "tracking_sigma" (Cfg.tracking_sigma (reward_cfg self));
  mret ((fun e => exp (- e / sigma)) <$> err).

Definition _reward_lin_vel_z (self : Env) : result (list Q) :=
  mret ((fun v => sq (vz v)) <$> base_lin_vel self).

Definition _reward_action_rate (self : Env) : result (list Q) :=
  mret (zip_with (fun l a => Qsum (zip_with (fun x y => sq (x - y)) l a))
                 (last_actions self) (actions self)).

Definition _reward_similar_to_default (self : Env) : result (list Q) :=
  mret ((fun p => Qsum (zip_with (fun x d => Qabs (x - d)) p (default_dof_pos self)))
          <$> dof_pos self).

Definition _reward_base_height (self : Env) : result (list Q) :=
  target ← cfg_item "base_height_target"
                      (Cfg.base_height_target (reward_cfg self));
  mret ((fun p => sq (vz p - target)) <$> base_pos self).

Definition _reward_orientation_stability (self : Env) : result (list Q) :=
  euler ← getattr "base_euler" (base_euler self);
  mret ((fun e => let pr := Qabs (vy e * pi / 180) in
                  let rr := Qabs (vx e * pi / 180) in
                  (sq pr + sq rr)%Q) <$> (euler : list Vec3)).

Definition _reward_survive (self : Env) : result (list Q) :=
  mret (replicate (num_envs self) 1%Q).

Definition _reward_penalize_hip_aa (self : Env) : result (list Q) :=
  p ← dof_pos_pair (hip_aa_indices self) self;
  mret ((fun ab => (Qabs ab.1 + Qabs ab.2)%Q) <$> (p : list (Q * Q))).

Definition _reward_penalize_hip_fe (self : Env) : result (list Q) :=
  p ← dof_pos_pair (hip_fe_indices self) self;
  mret ((fun ab => (Qabs ab.1 + Qabs ab.2)%Q) <$> (p : list (Q * Q))).

Definition _reward_penalize_hip_fe_diff (self : Env) : result (list Q) :=
  a ← col_get (num_actions self) (hip_fe_indices self).1 (dof_pos self);
  b ← col_get (num_actions self) (hip_fe_indices self).2 (dof_pos self);
  mret (zip_with (fun x y => Qabs (x - y)) a b).

Definition _reward_penalize_knee_fe_left (self : Env) : result (list Q) :=
  pos ← dof_pos_pair (knee_fe_indices self) self;
  mret ((fun ab => relu (0.9 + ab.1)) <$> (pos : list (Q * Q))).

Definition _reward_penalize_knee_fe_right (self : Env) : result (list Q) :=
  pos ← dof_pos_pair (knee_fe_indices self) self;
  mret ((fun ab => relu (- ab.2 + 0.9)) <$> (pos : list (Q * Q))).

Definition _reward_penalize_ankle_height (self : Env) : result (list Q) :=
  h ← getattr "current_ankle_heights" (current_ankle_heights self);
  mret ((fun ab => Qmean [ab.1; ab.2]) <$> (h : list (Q * Q))).

(** [torch.diff] along a row *)
Definition diff (l : list Q) : list Q :=
  zip_with (fun a b => (b - a)%Q) l (tail l).

(** The loop of [_reward_gait_regularity] over [range(hip_changes.shape[1] - 1)],
    for one row. *)
Definition change_consistency (hip_changes : list Q) : Q :=
  foldl (fun acc i =>
           (acc + clamp_min (Qsign (hip_changes !!! i) * Qsign (hip_changes !!! S i)) 0)%Q)
        0%Q (seq 0 (length hip_changes - 1)).

(** [torch.sum(self.hip_angle_history)]: every row, both sides. *)
Definition history_sum (hist : list (list Q * list Q)) : Q :=
  Qsum ((fun h => (Qsum h.1 + Qsum h.2)%Q) <$> hist).

Definition _reward_gait_regularity (self : Env) : result (list Q) :=
  left_hip ← col_get (num_actions self) (hip_fe_indices self).1 (dof_pos self);
  right_hip ← col_get (num_actions self) (hip_fe_indices self).2 (dof_pos self);
  let phase_diff := zip_with (fun l r => Qabs (l + r)) left_hip right_hip in
  let phase_reward := (fun d => exp (- d / 0.3)) <$> phase_diff in
  let periodicity_reward :=
    if negb (Qeq_bool (history_sum (hip_angle_history self)) 0) then
      (fun h => let hip_changes := diff h.1 in
                (change_consistency hip_changes
                 / inject_Z (Z.of_nat (length hip_changes - 1)) * 0.5)%Q)
        <$> hip_angle_history self
    else zeros (num_envs self) in
  mret (zip_with Qplus phase_reward periodicity_reward).

Definition _reward_foot_orientation (self : Env) : result (list Q) :=
  let sole_normal_local : Vec3 := (0, 0, -1)%Q in
  let world_down : Vec3 := (0, 0, -1)%Q in
  quats ← getattr "current_foot_orientations" (current_foot_orientations self);
  let alignment (q : Quat) : Q :=
    let n := transform_by_quat sole_normal_local q in
    Qsum [vx n * vx world_down; vy n * vy world_down; vz n * vz world_down]%Q in
  mret ((fun qq =>
           let a0 := alignment qq.1 in
           let a1 := alignment qq.2 in
           let mean_orientation_reward := Qmean [a0; a1] in
           let consistency_penalty := (- Qabs (a0 - a1))%Q in
           (0.5 * mean_orientation_reward + 0.05 * consistency_penalty)%Q)
          <$> (quats : list (Quat * Quat))).

Definition _reward_step_height_consistency (self : Env) : result (list Q) :=
  h ← getattr "current_ankle_heights" (current_ankle_heights self);
  mret ((fun ab => exp (- Qabs (ab.2 - ab.1) / 0.05)) <$> (h : list (Q * Q))).

Definition _reward_foot_contact_penalty (self : Env) : result (list Q) :=
  h ← getattr "current_ankle_heights" (current_ankle_heights self);
  mret ((fun hh =>
           let contact := contact_flags hh in
           let total := (contact.1 + contact.2)%Q in
           let flight := Qofb (Qeq_bool total 0) in
           let one_contact := Qofb (Qeq_bool total 1) in
           let max_swing_h := Qmax hh.1 hh.2 in
           let swing_hopping :=
             (one_contact * relu (max_swing_h - SWING_HEIGHT_THRESHOLD))%Q in
           (flight + swing_hopping)%Q) <$> (h : list (Q * Q))).

Definition _reward_foot_contact_switch (self : Env) : result (list Q * Env) :=
  h ← getattr "current_ankle_heights" (current_ankle_heights self);
  let contact := contact_flags <$> (h : list (Q * Q)) in
  let change := zip_with
    (fun c p => (Qofb (negb (Qeq_bool c.1 p.1)), Qofb (negb (Qeq_bool c.2 p.2))))
    contact (prev_contact self) in
  let both_changed := (fun ch => (ch.1 * ch.2)%Q) <$> change in
  mret (both_changed, with_prev_contact contact self).

(** [fn()] for a registered reward method *)
Definition call_reward (fn : reward_term) (self : Env) : result (list Q * Env) :=
  let pure (r : result (list Q)) := v ← r; mret (v, self) in
  match fn with
  | tracking_lin_vel => pure (_reward_tracking_lin_vel self)
  | tracking_ang_vel => pure (_reward_tracking_ang_vel self)
  | lin_vel_z => pure (_reward_lin_vel_z self)
  | action_rate => pure (_reward_action_rate self)
  | similar_to_default => pure (_reward_similar_to_default self)
  | base_height => pure (_reward_base_height self)
  | orientation_stability => pure (_reward_orientation_stability self)
  | survive => pure (_reward_survive self)
  | penalize_hip_aa => pure (_reward_penalize_hip_aa self)
  | penalize_hip_fe => pure (_reward_penalize_hip_fe self)
  | penalize_hip_fe_diff => pure (_reward_penalize_hip_fe_diff self)
  | penalize_knee_fe_left => pure (_reward_penalize_knee_fe_left self)
  | penalize_knee_fe_right => pure (_reward_penalize_knee_fe_right self)
  | penalize_ankle_height => pure (_reward_penalize_ankle_height self)
  | gait_regularity => pure (_reward_gait_regularity self)
  | foot_orientation => pure (_reward_foot_orientation self)
  | step_height_consistency => pure (_reward_step_height_consistency self)
  | foot_contact_penalty => pure (_reward_foot_contact_penalty self)
  | foot_contact_switch => _reward_foot_contact_switch self
  end.

(** ** One tick *)

(** [torch.cat([a, b], dim=-1)] *)
Definition cat_rows (a b : list (list Q)) : list (list Q) := zip_with app a b.

(** One round of the reward loop of [step]. *)
Definition add_reward (self : Env) (item : string * reward_term) : result Env :=
  '(v, self) ← call_reward item.2 self;
  scale ← dict_item (reward_scales self) item.1;
  let r := (fun x => (x * scale)%Q) <$> (v : list Q) in
  let rew := zip_with Qplus (rew_buf self) r in
  sum ← dict_item (episode_sums self) item.1;
  mret (with_rewards rew (dict_set (episode_sums self) item.1 (zip_with Qplus sum r)) self).

(** The termination flags of [step]. *)
Definition done_flags (self : Env) (elb : list Z) (euler : list Vec3) : list bool :=
  let cfg := env_cfg self in
  let done := (fun c => (max_episode_length self <? c)%Z) <$> elb in
  let done := zip_with orb done
    ((fun e => Qltb (Cfg.termination_if_pitch_greater_than cfg) (Qabs (vy e))) <$> euler) in
  zip_with orb done
    ((fun e => Qltb (Cfg.termination_if_roll_greater_than cfg) (Qabs (vx e))) <$> euler).

(** The observation rows of [step]. *)
Definition assemble_obs (self : Env) : result (list (list Q)) :=
  s_ang ← dict_item (obs_scales self) "ang_vel";
  let o1 := (fun v => vec3_list (vec3_scale v s_ang)) <$> base_ang_vel self in
  let o2 := vec3_list <$> projected_gravity self in
  let o3 := (fun c => zip_with Qmult c (commands_scale self)) <$> commands self in
  s_pos ← dict_item (obs_scales self) "dof_pos";
  let o4 := (fun p => zip_with (fun x d => ((x - d) * s_pos)%Q) p (default_dof_pos self))
              <$> dof_pos self in
  s_vel ← dict_item (obs_scales self) "dof_vel";
  let o5 := fmap (M := list) (fun x => (x * s_vel)%Q) <$> dof_vel self in
  mret (cat_rows o1 (cat_rows o2 (cat_rows o3 (cat_rows o4
         (cat_rows o5 (actions self)))))).

(** Everything [step] does between clipping the actions and resampling:
    the simulator is driven and read back. *)
Definition advance (actions_in : list (list Q)) (sim : SimOut) (self : Env)
  : result Env :=
  c ← cfg_item "clip_actions" (Cfg.clip_actions (env_cfg self));
  let acts := fmap (M := list) (fun x => clip x (- c) c) <$> actions_in in
  let exec_actions := if simulate_action_latency self then last_actions self else acts in
  let target_pos :=
    (fun row => zip_with
       (fun a d => (a * Cfg.action_scale (env_cfg self) + d)%Q) row (default_dof_pos self))
      <$> exec_actions in
  let heights := zip (vz <$> (ankle_pos sim).1) (vz <$> (ankle_pos sim).2) in
  let orientations := zip (ankle_quat sim).1 (ankle_quat sim).2 in
  let elb := (fun n => wrap_int32 (n + 1)) <$> episode_length_buf self in
  let base_quat' := robot_quat sim in
  let base_rel_quat := transform_quat_by_quat (inv_base_init_quat self) <$> base_quat' in
  let inv_q := inv_quat <$> base_quat' in
  let dof_pos' := dofs_position sim in
  hip0 ← col_get (num_actions self) (hip_fe_indices self).1 dof_pos';
  hip1 ← col_get (num_actions self) (hip_fe_indices self).2 dof_pos';
  let current_hip_angles := zip hip0 hip1 in
  let i := history_idx self in
  mret {| attrs := attrs self;
          global_gravity := global_gravity self;
          commands_scale := commands_scale self;
          default_dof_pos := default_dof_pos self;
          hip_angle_history :=
            zip_with (fun h a => (<[i := a.1]> h.1, <[i := a.2]> h.2))
                     (hip_angle_history self) current_hip_angles;
          history_idx := (i + 1) mod 10;
          episode_sums := episode_sums self;
          prev_contact := prev_contact self;
          base_lin_vel := zip_with transform_by_quat (robot_vel sim) inv_q;
          base_ang_vel := zip_with transform_by_quat (robot_ang sim) inv_q;
          projected_gravity := zip_with transform_by_quat (global_gravity self) inv_q;
          obs_buf := obs_buf self;
          rew_buf := rew_buf self;
          reset_buf := reset_buf self;
          episode_length_buf := elb;
          commands := commands self;
          actions := acts;
          last_actions := last_actions self;
          dof_pos := dof_pos';
          dof_vel := dofs_velocity sim;
          last_dof_vel := last_dof_vel self;
          base_pos := robot_pos sim;
          base_quat := base_quat';
          extras := extras self;
          current_ankle_heights := Some heights;
          current_foot_orientations := Some orientations;
          base_euler := Some (quat_to_xyz <$> base_rel_quat);
          sim_calls := sim_calls self
                       ++ [control_dofs_position target_pos (motors_dof_idx self);
                           scene_step] |}.

(** The rows whose step count is a multiple of the resampling period. *)
Definition resample_rows (self : Env) : result (list nat) :=
  let k := py_int (float_div (Cfg.resampling_time_s (env_cfg self)) (dt self)) in
  if (k =? 0)%Z then Raise ZeroDivisionError
  else mret (nonzero ((fun n => (n mod k =? 0)%Z) <$> episode_length_buf self)).

Definition StepOut : Type := list (list Q) * list Q * list bool * Extras.

Definition step (actions_in : list (list Q)) (sim : SimOut) (self : Env) (g : Rng)
  : result (Env * Rng * StepOut) :=
  self ← advance actions_in sim self;
  idx ← resample_rows self;
  '(self, g) ← _resample_commands idx self g;
  euler ← getattr "base_euler" (base_euler self);
  let done := done_flags self (episode_length_buf self) euler in
  let self := with_reset_buf done self in
  let self := with_rewards ((fun _ => 0%Q) <$> rew_buf self) (episode_sums self) self in
  self ← for_each add_reward (reward_functions self) self;
  obs ← assemble_obs self;
  let self := with_observation obs (actions self) (dof_vel self)
                {| observations_critic := Some obs;
                   episode := episode (extras self) |} self in
  '(self, g) ← reset_idx (nonzero (reset_buf self)) self g;
  mret (self, g, (obs_buf self, rew_buf self, reset_buf self, extras self)).

Definition get_observations (self : Env) : Env * (list (list Q) * Extras) :=
  let ex := {| observations_critic := Some (obs_buf self);
               episode := episode (extras self) |} in
  let self := with_observation (obs_buf self) (last_actions self)
                               (last_dof_vel self) ex self in
  (self, (obs_buf self, extras self)).

Definition get_privileged_observations (self : Env) : option unit := None.

End Dodo.

(** ** The shape invariant *)

Definition has_shape (n k : nat) (t : list (list Q)) : Prop :=
  length t = n /\ Forall (fun r => length r = k) t.

Definition both_below (n : nat) (ij : nat * nat) : Prop :=
  (ij.1 < n)%nat /\ (ij.2 < n)%nat.

(** What [step] relies on and neither [__init__] nor [step] checks: the
    configuration entries it reads exist, the joint indices address
    columns of the joint buffers, every registered reward term has a scale
    and an episode accumulator, and all buffers have one row per
    environment. *)
Record wf_env `{Externals} (e : Env) : Prop := {
  wf_dt : dt e = 0.01%Q;
  wf_max_episode_length :
    max_episode_length e
    = Qceiling (float_div (Cfg.episode_length_s (env_cfg e)) (dt e));
  wf_clip : is_Some (Cfg.clip_actions (env_cfg e));
  wf_period :
    py_int (float_div (Cfg.resampling_time_s (env_cfg e)) (dt e)) <> 0%Z;
  wf_episode_length_s : ~ (Cfg.episode_length_s (env_cfg e) == 0)%Q;
  wf_num_commands : num_commands e = 3%nat;
  wf_hip_aa : both_below (num_actions e) (hip_aa_indices e);
  wf_hip_fe : both_below (num_actions e) (hip_fe_indices e);
  wf_knee_fe : both_below (num_actions e) (knee_fe_indices e);
  wf_tracking_sigma : is_Some (Cfg.tracking_sigma (reward_cfg e));
  wf_base_height_target : is_Some (Cfg.base_height_target (reward_cfg e));
  wf_obs_scales :
    Forall (fun k => is_Some (dict_get (obs_scales e) k))
           ["ang_vel"; "dof_pos"; "dof_vel"]%string;
  wf_registry :
    Forall (fun name => is_Some (dict_get (reward_scales e) name)
                        /\ is_Some (dict_get (episode_sums e) name))
           (dict_keys (reward_functions e));
  wf_episode_sums : Forall (fun kv => length kv.2 = num_envs e) (episode_sums e);
  wf_episode_length_buf : length (episode_length_buf e) = num_envs e;
  wf_rew_buf : length (rew_buf e) = num_envs e;
  wf_reset_buf : length (reset_buf e) = num_envs e;
  wf_commands : has_shape (num_envs e) 3 (commands e);
  wf_commands_scale : length (commands_scale e) = 3%nat;
  wf_default_dof_pos : length (default_dof_pos e) = num_actions e;
  wf_global_gravity : length (global_gravity e) = num_envs e;
  wf_hip_angle_history :
    length (hip_angle_history e) = num_envs e
    /\ Forall (fun h => length h.1 = 10%nat /\ length h.2 = 10%nat)
              (hip_angle_history e);
  wf_prev_contact : length (prev_contact e) = num_envs e;
  wf_base_pos : length (base_pos e) = num_envs e;
  wf_base_quat : length (base_quat e) = num_envs e;
  wf_base_lin_vel : length (base_lin_vel e) = num_envs e;
  wf_base_ang_vel : length (base_ang_vel e) = num_envs e;
  wf_dof_pos : has_shape (num_envs e) (num_actions e) (dof_pos e);
  wf_dof_vel : has_shape (num_envs e) (num_actions e) (dof_vel e);
  wf_last_actions : has_shape (num_envs e) (num_actions e) (last_actions e);
  wf_last_dof_vel : has_shape (num_envs e) (num_actions e) (last_dof_vel e);
  wf_ankle_heights :
    forall h, current_ankle_heights e = Some h -> length h = num_envs e
}.

(** The simulator reports one row per environment and one column per
    actuated joint. *)
Record wf_sim (e : Env) (sim : SimOut) : Prop := {
  wf_ankle_pos : length (ankle_pos sim).1 = num_envs e
                 /\ length (ankle_pos sim).2 = num_envs e;
  wf_ankle_quat : length (ankle_quat sim).1 = num_envs e
                  /\ length (ankle_quat sim).2 = num_envs e;
  wf_robot_pos : length (robot_pos sim) = num_envs e;
  wf_robot_quat : length (robot_quat sim) = num_envs e;
  wf_robot_vel : length (robot_vel sim) = num_envs e;
  wf_robot_ang : length (robot_ang sim) = num_envs e;
  wf_dofs_position : has_shape (num_envs e) (num_actions e) (dofs_position sim);
  wf_dofs_velocity : has_shape (num_envs e) (num_actions e) (dofs_velocity sim)
}.

(** What [reset_idx] and [_resample_commands] rely on. *)
Definition index_set (n : nat) (ids : list nat) : Prop :=
  NoDup ids /\ Forall (fun i => (i < n)%nat) ids.

Definition ordered_ranges (c : Cfg.Command) : Prop :=
  ((Cfg.lin_vel_x_range c).1 <= (Cfg.lin_vel_x_range c).2)%Q
  /\ ((Cfg.lin_vel_y_range c).1 <= (Cfg.lin_vel_y_range c).2)%Q
  /\ ((Cfg.ang_vel_range c).1 <= (Cfg.ang_vel_range c).2)%Q.

Definition within (r : Q * Q) (x : Q) : Prop := (r.1 <= x)%Q /\ (x <= r.2)%Q.

(** A command row whose three entries lie in the configured ranges. *)
Definition command_in_ranges (c : Cfg.Command) (row : list Q) : Prop :=
  exists x y w, row !! 0%nat = Some x /\ row !! 1%nat = Some y /\ row !! 2%nat = Some w
    /\ within (Cfg.lin_vel_x_range c) x
    /\ within (Cfg.lin_vel_y_range c) y
    /\ within (Cfg.ang_vel_range c) w.

(** [gs_rand_float] applied to one draw *)
Definition affine (r : Q * Q) (u : Q) : Q := ((r.2 - r.1) * u + r.1)%Q.

(** ** The specification's words *)

(** "binary contact flag = height < CONTACT_HEIGHT" *)
Definition in_contact (h : Q) : Prop := (h < CONTACT_HEIGHT)%Q.

(** "episode step count exceeds configured max episode length
    (episode_length_s / dt, rounded up), absolute pitch angle (degrees)
    exceeds configured threshold, absolute roll angle (degrees) exceeds
    configured threshold" *)
Definition termination_fires `{Externals} (cfg : Cfg.Env) (dt : Q) (count : Z)
    (roll pitch : Q) : Prop :=
  (Qceiling (float_div (Cfg.episode_length_s cfg) dt) < count)%Z
  \/ (Cfg.termination_if_pitch_greater_than cfg < Qabs pitch)%Q
  \/ (Cfg.termination_if_roll_greater_than cfg < Qabs roll)%Q.






(** ** A concrete robot *)

(** Division of doubles, on the machine's own binary64 numbers: the
    arguments are rounded to the nearest double (exact for a numerator and
    denominator below 2^53, one rounding of their quotient), divided, and
    the quotient is read back as a rational. *)
Definition double_of_Z (z : Z) : PrimFloat.float :=
  match z with
  | Z0 => PrimFloat.of_uint63 (Uint63.of_Z 0)
  | Zpos p => PrimFloat.of_uint63 (Uint63.of_Z (Zpos p))
  | Zneg p => PrimFloat.opp (PrimFloat.of_uint63 (Uint63.of_Z (Zpos p)))
  end.

Definition double_of_Q (q : Q) : PrimFloat.float :=
  PrimFloat.div (double_of_Z (Qnum q)) (double_of_Z (Zpos (Qden q))).

Definition Q_of_double (f : PrimFloat.float) : Q :=
  match FloatOps.Prim2SF f with
  | SpecFloat.S754_finite s m e =>
      let v := (inject_Z (Zpos m) * 2 ^ e)%Q in if s then (- v)%Q else v
  | _ => 0%Q
  end.

Definition double_div (x y : Q) : Q :=
  Q_of_double (PrimFloat.div (double_of_Q x) (double_of_Q y)).

(** Stand-ins for the external helpers: floats are divided as doubles, a
    quaternion (w, x, y, z) reads as roll x and pitch y, vectors are not
    rotated. *)
Definition demo_externals : Externals :=
  {| float_div := double_div;
     exp := fun _ => 1%Q;
     pi := 3.14%Q;
     inv_quat := fun q => q;
     transform_quat_by_quat := fun _ q => q;
     transform_by_quat := fun v _ => v;
     quat_to_xyz := fun q => (q.1.1.2, q.1.2, q.2);
     dof_start := fun _ => 0%nat |}.

Definition demo_env_cfg : Cfg.Env :=
  {| Cfg.num_actions := 6;
     Cfg.simulate_action_latency := None;
     Cfg.episode_length_s := 20%Q;
     Cfg.base_init_pos := (0, 0, 0.5)%Q;
     Cfg.base_init_quat := (1, 0, 0, 0)%Q;
     Cfg.joint_names :=
       ["Left_HIP_AA"; "Right_HIP_AA"; "Left_THIGH_FE"; "Right_THIGH_FE";
        "Left_KNEE_FE"; "Right_SHIN_FE"]%string;
     Cfg.default_joint_angles :=
       [("Left_HIP_AA", 0); ("Right_HIP_AA", 0); ("Left_THIGH_FE", 0.2);
        ("Right_THIGH_FE", 0.2); ("Left_KNEE_FE", -0.4);
        ("Right_SHIN_FE", 0.4)]%string%Q;
     Cfg.kp := 30%Q;
     Cfg.kd := 1.5%Q;
     Cfg.clip_actions := Some 100%Q;
     Cfg.action_scale := 0.25%Q;
     Cfg.resampling_time_s := 4%Q;
     Cfg.termination_if_pitch_greater_than := 10%Q;
     Cfg.termination_if_roll_greater_than := 10%Q |}.

Definition demo_obs_scales : dict Q :=
  [("lin_vel", 2); ("ang_vel", 0.25); ("dof_pos", 1); ("dof_vel", 0.05)]%string%Q.

Definition demo_obs_cfg : Cfg.Obs :=
  {| Cfg.num_obs := 27; Cfg.obs_scales := Some demo_obs_scales |}.


Definition demo_reward_cfg : Cfg.Reward :=
  {| Cfg.reward_scales :=
       Some [("survive", 1); ("gait_regularity", 0.5);
             ("foot_contact_penalty", -1); ("foot_contact_switch", 0.5)]%string%Q;
     Cfg.tracking_sigma := Some 0.25%Q;
     Cfg.base_height_target := Some 0.3%Q |}.

(** A reward configuration without the two contact terms, the case the
    comment in [__init__] assumes. *)
Definition plain_reward_cfg : Cfg.Reward :=
  {| Cfg.reward_scales := Some [("survive", 1)]%string%Q;
     Cfg.tracking_sigma := Some 0.25%Q;
     Cfg.base_height_target := Some 0.3%Q |}.

Definition demo_command_cfg : Cfg.Command :=
  {| Cfg.num_commands := 3;
     Cfg.lin_vel_x_range := (0.5, 1)%Q;
     Cfg.lin_vel_y_range := (-0.25, 0.25)%Q;
     Cfg.ang_vel_range := (0, 0)%Q |}.

Definition demo_rng : Rng := {| draws := fun _ => 0.5%Q; cursor := 0 |}.

(** Two environments.  [joints l] is a read-out with left thigh angle [l]
    in row 0, feet at heights 0.02 and 0.12, both robots upright. *)
Definition demo_sim (pitch0 : Q) (left_thigh0 : Q) : SimOut :=
  {| ankle_pos := ([(0, 0.1, 0.02); (0, 0.1, 0.02)]%Q, [(0, -0.1, 0.12); (0, -0.1, 0.02)]%Q);
     ankle_quat := ([(1, 0, 0, 0); (1, 0, 0, 0)]%Q, [(1, 0, 0, 0); (1, 0, 0, 0)]%Q);
     robot_pos := [(0, 0, 0.4); (1, 0, 0.4)]%Q;
     robot_quat := [(1, 0, pitch0, 0); (1, 0, 0, 0)]%Q;
     robot_vel := [(0.5, 0, 0); (0, 0, 0)]%Q;
     robot_ang := [(0, 0, 0.1); (0, 0, 0)]%Q;
     dofs_position := [[0; 0; left_thigh0; 0; 0; 0]; [0; 0; 0; 0; 0; 0]]%Q;
     dofs_velocity := [[0; 0; 1; 0; 0; 0]; [0; 0; 0; 0; 0; 0]]%Q |}.

Definition demo_actions : list (list Q) :=
  [[0; 0; 0.3; -200; 0; 0]; [0; 0; 0; 0; 0; 0]]%Q.

Definition unwrap {A : Type} (r : result A)
  : match r return Type with Ok _ => A | Raise _ => exn end :=
  match r with Ok a => a | Raise e => e end.

(** The state a call leaves behind, [d] if it raised. *)
Definition state_after {A : Type} (r : result (Env * Rng * A)) (d : Env) : Env :=
  match r with
  | Ok (e, _, _) => e
  | Raise _ => d
  end.

(** The robot after construction. *)
Definition demo_env : Env :=
  Eval vm_compute in
    unwrap (@__init__ demo_externals 2 demo_env_cfg demo_obs_cfg
                      demo_reward_cfg demo_command_cfg).

(** The same robot one nominal tick later. *)
Definition demo_env1 : Env :=
  Eval vm_compute in
    state_after (@step demo_externals demo_actions (demo_sim 0 (-1)) demo_env demo_rng)
                demo_env.

(** Three nominal ticks with left thigh angles -1, 0, 1. *)
Definition demo_env3 : Env :=
  Eval vm_compute in
    state_after
      (@step demo_externals demo_actions (demo_sim 0 1)
         (state_after (@step demo_externals demo_actions (demo_sim 0 0) demo_env1 demo_rng)
                      demo_env1)
         demo_rng)
      demo_env1.


(** A read-out with one foot down in each row: the other foot is at 0.08
    in row 0, below the swing threshold, and at 0.3 in row 1, above it. *)
Definition swing_sim : SimOut :=
  {| ankle_pos := ([(0, 0.1, 0.02); (0, 0.1, 0.3)]%Q, [(0, -0.1, 0.08); (0, -0.1, 0.04)]%Q);
     ankle_quat := ankle_quat (demo_sim 0 0);
     robot_pos := robot_pos (demo_sim 0 0);
     robot_quat := robot_quat (demo_sim 0 0);
     robot_vel := robot_vel (demo_sim 0 0);
     robot_ang := robot_ang (demo_sim 0 0);
     dofs_position := dofs_position (demo_sim 0 0);
     dofs_velocity := dofs_velocity (demo_sim 0 0) |}.

Definition swing_env : Env :=
  Eval vm_compute in
    state_after (@step demo_externals demo_actions swing_sim demo_env demo_rng) demo_env.

(** The configuration of the concrete robot with another episode length
    and another action clip. *)
Definition tuned_env_cfg (episode_length_s : Q) (clip_actions : option Q) : Cfg.Env :=
  {| Cfg.num_actions := Cfg.num_actions demo_env_cfg;
     Cfg.simulate_action_latency := Cfg.simulate_action_latency demo_env_cfg;
     Cfg.episode_length_s := episode_length_s;
     Cfg.base_init_pos := Cfg.base_init_pos demo_env_cfg;
     Cfg.base_init_quat := Cfg.base_init_quat demo_env_cfg;
     Cfg.joint_names := Cfg.joint_names demo_env_cfg;
     Cfg.default_joint_angles := Cfg.default_joint_angles demo_env_cfg;
     Cfg.kp := Cfg.kp demo_env_cfg;
     Cfg.kd := Cfg.kd demo_env_cfg;
     Cfg.clip_actions := clip_actions;
     Cfg.action_scale := Cfg.action_scale demo_env_cfg;
     Cfg.resampling_time_s := Cfg.resampling_time_s demo_env_cfg;
     Cfg.termination_if_pitch_greater_than :=
       Cfg.termination_if_pitch_greater_than demo_env_cfg;
     Cfg.termination_if_roll_greater_than :=
       Cfg.termination_if_roll_greater_than demo_env_cfg |}.

(** An episode of 0.07 s: in doubles 0.07 / 0.01 is 7.000000000000001, so
    the episode lasts 8 steps, not 7. *)
Definition brief_env_cfg : Cfg.Env := tuned_env_cfg 0.07 (Some 100%Q).

(** A rollout: [step] called once per input, each call on the state and
    the generator the previous one left. *)
Fixpoint rollout `{Externals} (inputs : list (list (list Q) * SimOut))
    (self : Env) (g : Rng) : result (Env * Rng * unit) :=
  match inputs with
  | [] => mret (self, g, tt)
  | input :: rest => r ← step input.1 input.2 self g;
                     rollout rest r.1.1 r.1.2
  end.

Definition brief_env : Env :=
  Eval vm_compute in
    unwrap (@__init__ demo_externals 2 brief_env_cfg demo_obs_cfg
                      demo_reward_cfg demo_command_cfg).

(** The brief robot after seven ticks. *)
Definition brief_env7 : Env :=
  Eval vm_compute in
    state_after (@rollout demo_externals (replicate 7 (demo_actions, demo_sim 0 0))
                          brief_env demo_rng)
                brief_env.

(** The robot constructed without an action clip, and with an episode
    length of zero. *)
Definition unclipped_env : Env :=
  Eval vm_compute in
    unwrap (@__init__ demo_externals 2 (tuned_env_cfg 20 None) demo_obs_cfg
                      demo_reward_cfg demo_command_cfg).

Definition timeless_env : Env :=
  Eval vm_compute in
    unwrap (@__init__ demo_externals 2 (tuned_env_cfg 0 (Some 100%Q)) demo_obs_cfg
                      demo_reward_cfg demo_command_cfg).

(** A reward configuration that names a term without a method. *)
Definition unknown_reward_cfg : Cfg.Reward :=
  {| Cfg.reward_scales := Some [("survive", 1); ("jump", 2)]%string%Q;
     Cfg.tracking_sigma := Some 0.25%Q;
     Cfg.base_height_target := Some 0.3%Q |}.


Definition plain_env : Env :=
  Eval vm_compute in
    unwrap (@__init__ demo_externals 2 demo_env_cfg demo_obs_cfg
                      plain_reward_cfg demo_command_cfg).

(** ** Claims read literally, for the cases the code departs from *)




(** The heights [reset_idx] reads for the listed rows: the current ankle
    heights when a tick has produced them, zeros otherwise. *)
Definition reset_heights (env_ids : list nat) (self : Env) : list (Q * Q) :=
  match current_ankle_heights self with
  | Some cur => rows_get (0, 0)%Q cur env_ids
  | None => replicate (length env_ids) (0, 0)%Q
  end.

(** What a successful [reset_idx env_ids] leaves in each buffer, line by
    line. *)
Record reset_fields (env_ids : list nat) (self self' : Env) : Prop := {
  rf_attrs : attrs self' = attrs self;
  rf_global_gravity : global_gravity self' = global_gravity self;
  rf_commands_scale : commands_scale self' = commands_scale self;
  rf_default_dof_pos : default_dof_pos self' = default_dof_pos self;
  rf_hip_angle_history : hip_angle_history self' = hip_angle_history self;
  rf_history_idx : history_idx self' = history_idx self;
  rf_prev_contact :
    prev_contact self'
    = rows_put env_ids (contact_flags <$> reset_heights env_ids self) (prev_contact self);
  rf_dof_pos : dof_pos self' = rows_fill env_ids (default_dof_pos self) (dof_pos self);
  rf_dof_vel : dof_vel self' = rows_zero env_ids (dof_vel self);
  rf_base_pos : base_pos self' = rows_fill env_ids (base_init_pos self) (base_pos self);
  rf_base_quat : base_quat self' = rows_fill env_ids (base_init_quat self) (base_quat self);
  rf_base_lin_vel : base_lin_vel self' = rows_fill env_ids vec3_zero (base_lin_vel self);
  rf_base_ang_vel : base_ang_vel self' = rows_fill env_ids vec3_zero (base_ang_vel self);
  rf_last_actions : last_actions self' = rows_zero env_ids (last_actions self);
  rf_last_dof_vel : last_dof_vel self' = rows_zero env_ids (last_dof_vel self);
  rf_episode_length_buf :
    episode_length_buf self' = rows_fill env_ids 0%Z (episode_length_buf self);
  rf_reset_buf : reset_buf self' = rows_fill env_ids true (reset_buf self);
  rf_projected_gravity : projected_gravity self' = projected_gravity self;
  rf_obs_buf : obs_buf self' = obs_buf self;
  rf_rew_buf : rew_buf self' = rew_buf self;
  rf_actions : actions self' = actions self;
  rf_observations_critic :
    observations_critic (extras self') = observations_critic (extras self);
  rf_current_ankle_heights : current_ankle_heights self' = current_ankle_heights self;
  rf_current_foot_orientations :
    current_foot_orientations self' = current_foot_orientations self;
  rf_base_euler : base_euler self' = base_euler self
}.

(** What a successful [_resample_commands env_ids] leaves in [commands]. *)
Definition resampled (env_ids : list nat) (self : Env) (g : Rng)
    (cmds : list (list Q)) (g' : Rng) : Prop :=
  let n := length env_ids in
  let cfg := command_cfg self in
  draws g' = draws g /\ cursor g' = (cursor g + 3 * n)%nat
  /\ length cmds = length (commands self)
  /\ (forall i, i ∉ env_ids -> cmds !! i = commands self !! i)
  /\ (forall j i row, env_ids !! j = Some i -> commands self !! i = Some row ->
        cmds !! i = Some
          (<[2%nat := affine (Cfg.ang_vel_range cfg) (draws g (cursor g + 2 * n + j))]>
          (<[1%nat := affine (Cfg.lin_vel_y_range cfg) (draws g (cursor g + n + j))]>
          (<[0%nat := affine (Cfg.lin_vel_x_range cfg) (draws g (cursor g + j))]>
             row))))
  /\ (unit_draws g -> ordered_ranges cfg ->
      forall i row row', i ∈ env_ids -> commands self !! i = Some row ->
        (3 <= length row)%nat -> cmds !! i = Some row' ->
        command_in_ranges cfg row' /\ length row' = length row
        /\ forall c, (3 <= c)%nat -> row' !! c = row !! c).

(** The heights [reset_idx] reads for row [i]. *)
Definition row_heights (self : Env) (i : nat) : Q * Q :=
  match current_ankle_heights self with
  | Some cur => default (0, 0)%Q (cur !! i)
  | None => (0, 0)%Q
  end.

(** What the reward methods rely on. *)
Record reward_ready (self : Env) : Prop := {
  rr_hip_aa : both_below (num_actions self) (hip_aa_indices self);
  rr_hip_fe : both_below (num_actions self) (hip_fe_indices self);
  rr_knee_fe : both_below (num_actions self) (knee_fe_indices self);
  rr_num_commands : (3 <= num_commands self)%nat;
  rr_tracking_sigma : is_Some (Cfg.tracking_sigma (reward_cfg self));
  rr_base_height_target : is_Some (Cfg.base_height_target (reward_cfg self));
  rr_ankle_heights : is_Some (current_ankle_heights self);
  rr_foot_orientations : is_Some (current_foot_orientations self);
  rr_base_euler : is_Some (base_euler self)
}.

(** Every registered term has a scale and an accumulator. *)
Definition registered (fns : dict reward_term) (self : Env) : Prop :=
  Forall (fun name => is_Some (dict_get (reward_scales self) name)
                      /\ is_Some (dict_get (episode_sums self) name))
         (dict_keys fns).

(** What a successful [advance] leaves in each attribute, line by line. *)
Record advance_fields `{Externals} (actions_in : list (list Q)) (sim : SimOut)
    (self self' : Env) : Prop := {
  af_attrs : attrs self' = attrs self;
  af_global_gravity : global_gravity self' = global_gravity self;
  af_commands_scale : commands_scale self' = commands_scale self;
  af_default_dof_pos : default_dof_pos self' = default_dof_pos self;
  af_hip_angle_history :
    hip_angle_history self'
    = zip_with (fun h a => (<[history_idx self := a.1]> h.1,
                            <[history_idx self := a.2]> h.2))
        (hip_angle_history self)
        (zip ((fun row => row !!! (hip_fe_indices self).1) <$> dofs_position sim)
             ((fun row => row !!! (hip_fe_indices self).2) <$> dofs_position sim));
  af_history_idx : history_idx self' = ((history_idx self + 1) mod 10)%nat;
  af_episode_sums : episode_sums self' = episode_sums self;
  af_prev_contact : prev_contact self' = prev_contact self;
  af_base_lin_vel :
    base_lin_vel self'
    = zip_with transform_by_quat (robot_vel sim) (inv_quat <$> robot_quat sim);
  af_base_ang_vel :
    base_ang_vel self'
    = zip_with transform_by_quat (robot_ang sim) (inv_quat <$> robot_quat sim);
  af_projected_gravity :
    projected_gravity self'
    = zip_with transform_by_quat (global_gravity self) (inv_quat <$> robot_quat sim);
  af_obs_buf : obs_buf self' = obs_buf self;
  af_rew_buf : rew_buf self' = rew_buf self;
  af_reset_buf : reset_buf self' = reset_buf self;
  af_episode_length_buf :
    episode_length_buf self'
    = (fun n => wrap_int32 (n + 1)) <$> episode_length_buf self;
  af_commands : commands self' = commands self;
  af_actions :
    forall c, Cfg.clip_actions (env_cfg self) = Some c ->
      actions self' = fmap (M := list) (fun x => clip x (- c) c) <$> actions_in;
  af_last_actions : last_actions self' = last_actions self;
  af_dof_pos : dof_pos self' = dofs_position sim;
  af_dof_vel : dof_vel self' = dofs_velocity sim;
  af_last_dof_vel : last_dof_vel self' = last_dof_vel self;
  af_base_pos : base_pos self' = robot_pos sim;
  af_base_quat : base_quat self' = robot_quat sim;
  af_extras : extras self' = extras self;
  af_current_ankle_heights :
    current_ankle_heights self'
    = Some (zip (vz <$> (ankle_pos sim).1) (vz <$> (ankle_pos sim).2));
  af_current_foot_orientations :
    current_foot_orientations self'
    = Some (zip (ankle_quat sim).1 (ankle_quat sim).2);
  af_base_euler :
    base_euler self'
    = Some ((fun q => quat_to_xyz (transform_quat_by_quat (inv_base_init_quat self) q))
              <$> robot_quat sim)
}.

(** The stages of one successful [step]: the state [m0] after the
    simulator has been read, the rows [idx] whose command is redrawn, the
    termination flags [done], the state [m3] after the reward loop, the
    observation [obs], and the state [self'] after the reset of the
    terminated rows. *)
Record step_trace `{Externals} (actions_in : list (list Q)) (sim : SimOut)
    (self : Env) (g : Rng) (m0 : Env) (idx : list nat) (cmds : list (list Q))
    (g1 : Rng) (euler : list Vec3) (m3 : Env) (obs : list (list Q))
    (self' : Env) (g' : Rng) : Prop := {
  st_advance : advance actions_in sim self = Ok m0;
  st_fields : advance_fields actions_in sim self m0;
  st_rows : resample_rows m0 = Ok idx;
  st_index_set : index_set (num_envs self) idx;
  st_resample : _resample_commands idx m0 g = Ok (with_commands cmds m0, g1);
  st_resampled : resampled idx m0 g cmds g1;
  st_euler : base_euler m0 = Some euler;
  st_rewards :
    for_each add_reward (reward_functions m0)
      (with_rewards ((fun _ => 0%Q) <$> rew_buf m0) (episode_sums m0)
         (with_reset_buf (done_flags m0 (episode_length_buf m0) euler)
            (with_commands cmds m0)))
    = Ok m3;
  st_reward_frame :
    m3 = with_prev_contact (prev_contact m3)
           (with_rewards (rew_buf m3) (episode_sums m3)
              (with_reset_buf (done_flags m0 (episode_length_buf m0) euler)
                 (with_commands cmds m0)));
  st_obs : assemble_obs m3 = Ok obs;
  st_reset :
    reset_idx (nonzero (done_flags m0 (episode_length_buf m0) euler))
      (with_observation obs (actions m3) (dof_vel m3)
         {| observations_critic := Some obs; episode := episode (extras m3) |} m3)
      g1
    = Ok (self', g');
  st_reset_fields :
    reset_fields (nonzero (done_flags m0 (episode_length_buf m0) euler))
      (with_observation obs (actions m3) (dof_vel m3)
         {| observations_critic := Some obs; episode := episode (extras m3) |} m3)
      self';
  st_step :
    step actions_in sim self g
    = Ok (self', g', (obs_buf self', rew_buf self', reset_buf self', extras self'))
}.

(** Closing the invariant on a concrete state by computation. *)
Ltac wf_by_computation :=
  constructor; cbn;
  unfold both_below, has_shape; cbn;
  repeat match goal with
         | |- _ /\ _ => split
         | |- Forall _ _ => repeat constructor
         | |- is_Some _ => eexists; reflexivity
         | |- forall _, Some _ = Some _ -> _ => let E := fresh in intros ? E; injection E as <-
         | |- forall _, None = Some _ -> _ => let E := fresh in intros ? E; discriminate E
         end;
  try reflexivity; try (cbn; lia); try discriminate;
  try (vm_compute; discriminate).

(** Closing a decidable statement about concrete lists by computation. *)
Ltac by_decision := apply (bool_decide_unpack _); vm_compute; reflexivity.

(** Inversion of a successful sequence of binds. *)
Ltac inv_bind H :=
  repeat match type of H with
         | (?m ≫= _) = Ok _ =>
             let E := fresh "E" in
             destruct m eqn:E; cbn [mbind result_bind] in H; [|discriminate H]
         | (let '(_, _) := ?p in _) = Ok _ => destruct p
         | (match ?p with (_, _) => _ end) = Ok _ => destruct p
         end.

(** ** Configurations the constructor accepts and [step] can run on *)

Definition required_joints : list string :=
  ["Left_HIP_AA"; "Right_HIP_AA"; "Left_THIGH_FE"; "Right_THIGH_FE";
   "Left_KNEE_FE"; "Right_SHIN_FE"]%string.

Definition configured_scales (rc : Cfg.Reward) : dict Q :=
  default [] (Cfg.reward_scales rc).

Record config_ready `{Externals} (ec : Cfg.Env) (oc : Cfg.Obs) (rc : Cfg.Reward)
    (cc : Cfg.Command) : Prop := {
  cr_joints : Forall (fun j => j ∈ Cfg.joint_names ec) required_joints;
  cr_default_angles :
    Forall (fun j => is_Some (dict_get (Cfg.default_joint_angles ec) j))
           (Cfg.joint_names ec);
  cr_reward_names :
    Forall (fun name => is_Some (dict_get reward_methods name))
           (dict_keys (configured_scales rc));
  cr_contact_terms :
    is_Some (dict_get (configured_scales rc) "foot_contact_penalty")
    /\ is_Some (dict_get (configured_scales rc) "foot_contact_switch");
  cr_num_actions : Cfg.num_actions ec = length (Cfg.joint_names ec);
  cr_num_commands : Cfg.num_commands cc = 3%nat;
  cr_clip : is_Some (Cfg.clip_actions ec);
  cr_period : py_int (float_div (Cfg.resampling_time_s ec) 0.01) <> 0%Z;
  cr_episode_length_s : ~ (Cfg.episode_length_s ec == 0)%Q;
  cr_tracking_sigma : is_Some (Cfg.tracking_sigma rc);
  cr_base_height_target : is_Some (Cfg.base_height_target rc);
  cr_obs_scales :
    Forall (fun k => is_Some (dict_get (default [] (Cfg.obs_scales oc)) k))
           ["ang_vel"; "dof_pos"; "dof_vel"]%string
}.

(** One row per environment in everything the reward methods read. *)
Record tick_shapes (m : Env) : Prop := {
  ts_commands : length (commands m) = num_envs m;
  ts_base_lin_vel : length (base_lin_vel m) = num_envs m;
  ts_base_ang_vel : length (base_ang_vel m) = num_envs m;
  ts_base_pos : length (base_pos m) = num_envs m;
  ts_last_actions : length (last_actions m) = num_envs m;
  ts_actions : length (actions m) = num_envs m;
  ts_dof_pos : length (dof_pos m) = num_envs m;
  ts_hip_angle_history : length (hip_angle_history m) = num_envs m;
  ts_prev_contact : length (prev_contact m) = num_envs m;
  ts_ankle_heights :
    forall h, current_ankle_heights m = Some h -> length h = num_envs m;
  ts_foot_orientations :
    forall q, current_foot_orientations m = Some q -> length q = num_envs m;
  ts_base_euler : forall e, base_euler m = Some e -> length e = num_envs m
}.

(** The reward buffer and the accumulators have one entry per environment. *)
Definition reward_shapes (m : Env) : Prop :=
  length (rew_buf m) = num_envs m
  /\ Forall (fun kv => length kv.2 = num_envs m) (episode_sums m).

(** * Facts about the embedding *)

(** ** Numbers *)

Lemma Qltb_lt (x y : Q) : Qltb x y = true <-> (x < y)%Q.
Proof.
  unfold Qltb. rewrite Qlt_alt.
  destruct (x ?= y)%Q; split; congruence.
Qed.

Lemma Qltb_ge (x y : Q) : Qltb x y = false <-> (y <= x)%Q.
Proof.
  split.
  - intros Hf. apply Qnot_lt_le. intros Hlt. apply Qltb_lt in Hlt. congruence.
  - intros Hle. destruct (Qltb x y) eqn:E; [|reflexivity].
    apply Qltb_lt in E. apply Qle_not_lt in Hle. contradiction.
Qed.

Lemma Qeq_bool_false (x y : Q) : Qeq_bool x y = false <-> ~ (x == y)%Q.
Proof.
  split.
  - apply Qeq_bool_neq.
  - intros Hne. destruct (Qeq_bool x y) eqn:E; [|reflexivity].
    apply Qeq_bool_eq in E. contradiction.
Qed.

Lemma relu_nonneg (x : Q) : (0 <= x)%Q -> (relu x == x)%Q.
Proof. intros Hx. unfold relu. apply Q.max_l. exact Hx. Qed.

Lemma relu_nonpos (x : Q) : (x <= 0)%Q -> (relu x == 0)%Q.
Proof. intros Hx. unfold relu. apply Q.max_r. exact Hx. Qed.


(** ** Dictionaries *)

Lemma dict_get_set_eq {V} (d : dict V) k v : dict_get (dict_set d k v) k = Some v.
Proof.
  induction d as [|[k' v'] d IH]; simpl.
  - rewrite String.eqb_refl. reflexivity.
  - destruct (String.eqb k' k) eqn:E; simpl; rewrite E; [reflexivity | exact IH].
Qed.

Lemma dict_get_set_ne {V} (d : dict V) k k' v :
  k <> k' -> dict_get (dict_set d k v) k' = dict_get d k'.
Proof.
  intros Hne. induction d as [|[k0 v0] d IH]; simpl.
  - destruct (String.eqb_spec k k'); [contradiction | reflexivity].
  - destruct (String.eqb_spec k0 k) as [->|Hk]; simpl.
    + destruct (String.eqb_spec k k'); [contradiction | reflexivity].
    + destruct (String.eqb_spec k0 k'); [reflexivity | exact IH].
Qed.

Lemma dict_get_set_is_Some {V} (d : dict V) k k' v :
  is_Some (dict_get d k') -> is_Some (dict_get (dict_set d k v) k').
Proof.
  intros Hs. destruct (decide (k = k')) as [->|Hne].
  - rewrite dict_get_set_eq. eauto.
  - rewrite dict_get_set_ne; assumption.
Qed.

Lemma dict_set_keys {V} (d : dict V) k v :
  is_Some (dict_get d k) -> dict_keys (dict_set d k v) = dict_keys d.
Proof.
  unfold dict_keys. induction d as [|[k' v'] d IH]; simpl.
  - intros [? ?]; discriminate.
  - destruct (String.eqb_spec k' k) as [->|Hne]; simpl; [reflexivity|].
    intros Hs. f_equal. apply IH, Hs.
Qed.

Lemma dict_item_Some {V} (d : dict V) k v : dict_get d k = Some v -> dict_item d k = Ok v.
Proof. unfold dict_item. intros ->. reflexivity. Qed.

Lemma dict_set_Forall {V} (P : string * V -> Prop) (d : dict V) k v :
  Forall P d -> (forall k', P (k', v)) -> Forall P (dict_set d k v).
Proof.
  intros Hd Hv. induction Hd as [|[k' v'] d Hx Hd IH]; simpl.
  - constructor; [apply Hv | constructor].
  - destruct (String.eqb k' k); constructor; auto.
Qed.

(** ** Row assignment *)

Section Rows.

Context {A : Type}.
Implicit Types (t : list A) (ids : list nat).

Lemma rows_put_cons i ids v vals t :
  rows_put (i :: ids) (v :: vals) t = rows_put ids vals (<[i := v]> t).
Proof. reflexivity. Qed.

Lemma rows_put_length ids vals t : length (rows_put ids vals t) = length t.
Proof.
  revert vals t. induction ids as [|i ids IH]; intros [|v vals] t; try reflexivity.
  rewrite rows_put_cons, IH. apply length_insert.
Qed.

(** Rows that are not listed keep their content. *)
Lemma rows_put_other ids vals t i :
  i ∉ ids -> rows_put ids vals t !! i = t !! i.
Proof.
  revert vals t. induction ids as [|j ids IH]; intros [|v vals] t Hi; try reflexivity.
  rewrite rows_put_cons, IH.
  - apply list_lookup_insert_ne. intros ->. apply Hi. left.
  - intros Hin. apply Hi. right. exact Hin.
Qed.

(** The j-th listed row receives the j-th value. *)
Lemma rows_put_lookup ids vals t j i v :
  NoDup ids -> ids !! j = Some i -> vals !! j = Some v ->
  (i < length t)%nat -> rows_put ids vals t !! i = Some v.
Proof.
  revert vals t j. induction ids as [|i0 ids IH]; intros vals t j Hnd Hj Hv Hlt.
  - discriminate.
  - destruct vals as [|v0 vals]; [destruct j; discriminate|].
    apply NoDup_cons in Hnd as [Hnotin Hnd].
    rewrite rows_put_cons. destruct j as [|j]; simpl in Hj, Hv.
    + injection Hj as ->. injection Hv as ->.
      rewrite rows_put_other by exact Hnotin.
      apply list_lookup_insert_eq. exact Hlt.
    + eapply IH; eauto. rewrite length_insert. exact Hlt.
Qed.

Lemma rows_fill_length ids v t : length (rows_fill ids v t) = length t.
Proof. apply rows_put_length. Qed.

Lemma rows_fill_other ids v t i : i ∉ ids -> rows_fill ids v t !! i = t !! i.
Proof. apply rows_put_other. Qed.

Lemma rows_fill_lookup ids v t i :
  NoDup ids -> i ∈ ids -> (i < length t)%nat -> rows_fill ids v t !! i = Some v.
Proof.
  intros Hnd Hin Hlt. apply list_elem_of_lookup in Hin as [j Hj].
  unfold rows_fill. eapply rows_put_lookup; eauto.
  apply lookup_replicate. split; [reflexivity|].
  eapply lookup_lt_Some, Hj.
Qed.

Lemma rows_get_lookup (d : A) t ids j i x :
  ids !! j = Some i -> t !! i = Some x -> rows_get d t ids !! j = Some x.
Proof.
  intros Hj Hi. unfold rows_get. rewrite list_lookup_fmap, Hj. simpl.
  rewrite Hi. reflexivity.
Qed.

Lemma rows_get_length (d : A) t ids : length (rows_get d t ids) = length ids.
Proof. unfold rows_get. apply length_fmap. Qed.

End Rows.

(** Rows altered in place, as [t[ids] = 0] and [t[ids, c] = vals] do. *)
Lemma foldl_alter_length {B} (f : B -> list Q -> list Q) (l : list B) (key : B -> nat)
    (t : list (list Q)) :
  length (foldl (fun t b => alter (f b) (key b) t) t l) = length t.
Proof.
  revert t. induction l as [|b l IH]; intros t; simpl; [reflexivity|].
  rewrite IH. apply length_alter.
Qed.

Lemma foldl_alter_other {B} (f : B -> list Q -> list Q) (l : list B) (key : B -> nat)
    (t : list (list Q)) i :
  i ∉ key <$> l ->
  foldl (fun t b => alter (f b) (key b) t) t l !! i = t !! i.
Proof.
  revert t. induction l as [|b l IH]; intros t Hi; simpl; [reflexivity|].
  rewrite IH.
  - apply list_lookup_alter_ne. intros Heq. apply Hi. simpl. rewrite Heq. left.
  - intros Hin. apply Hi. simpl. right. exact Hin.
Qed.

Lemma foldl_alter_lookup {B} (f : B -> list Q -> list Q) (l : list B) (key : B -> nat)
    (t : list (list Q)) j b row :
  NoDup (key <$> l) -> l !! j = Some b -> t !! key b = Some row ->
  foldl (fun t b => alter (f b) (key b) t) t l !! key b = Some (f b row).
Proof.
  revert t j. induction l as [|b0 l IH]; intros t j Hnd Hj Hrow; [discriminate|].
  simpl in Hnd. apply NoDup_cons in Hnd as [Hnotin Hnd]. simpl.
  destruct j as [|j]; simpl in Hj.
  - injection Hj as ->. rewrite foldl_alter_other by exact Hnotin.
    rewrite list_lookup_alter_eq, Hrow. reflexivity.
  - eapply IH; eauto. rewrite list_lookup_alter_ne; [exact Hrow|].
    intros Heq. apply Hnotin. rewrite Heq.
    apply list_elem_of_fmap. exists b. split; [reflexivity|].
    eapply list_elem_of_lookup_2, Hj.
Qed.

Lemma rows_zero_length ids t : length (rows_zero ids t) = length t.
Proof. apply (foldl_alter_length (fun _ => fmap (fun _ => 0%Q)) ids id). Qed.

Lemma rows_zero_other ids t i : i ∉ ids -> rows_zero ids t !! i = t !! i.
Proof.
  intros Hi. apply (foldl_alter_other (fun _ => fmap (fun _ => 0%Q)) ids id).
  rewrite list_fmap_id. exact Hi.
Qed.

Lemma rows_zero_lookup ids t i row :
  NoDup ids -> i ∈ ids -> t !! i = Some row ->
  rows_zero ids t !! i = Some ((fun _ => 0%Q) <$> row).
Proof.
  intros Hnd Hin Hrow. apply list_elem_of_lookup in Hin as [j Hj].
  apply (foldl_alter_lookup (fun _ => fmap (fun _ => 0%Q)) ids id t j i row);
    [rewrite list_fmap_id|..]; assumption.
Qed.

Lemma col_put_length ids c vals t : length (col_put ids c vals t) = length t.
Proof.
  apply (foldl_alter_length (fun iv row => <[c := iv.2]> row) (zip ids vals) fst).
Qed.

Lemma zip_fst_subset {B} (ids : list nat) (vals : list B) i :
  i ∈ (zip ids vals).*1 -> i ∈ ids.
Proof.
  revert vals. induction ids as [|i0 ids IH]; intros [|v vals]; simpl;
    try (intros Hin; inversion Hin; fail).
  intros Hin. apply elem_of_cons in Hin as [->|Hin]; [left|right; eauto].
Qed.

Lemma zip_fst_NoDup {B} (ids : list nat) (vals : list B) :
  NoDup ids -> NoDup (zip ids vals).*1.
Proof.
  revert vals. induction ids as [|i0 ids IH]; intros [|v vals] Hnd; simpl;
    try constructor.
  - apply NoDup_cons in Hnd as [Hnotin Hnd].
    intros Hin. apply Hnotin. eapply zip_fst_subset, Hin.
  - apply NoDup_cons in Hnd as [_ Hnd]. apply IH, Hnd.
Qed.

Lemma col_put_other ids c vals t i :
  i ∉ ids -> col_put ids c vals t !! i = t !! i.
Proof.
  intros Hi.
  apply (foldl_alter_other (fun iv row => <[c := iv.2]> row) (zip ids vals) fst).
  intros Hin. apply Hi. eapply zip_fst_subset, Hin.
Qed.

Lemma col_put_lookup ids c vals t j i v row :
  NoDup ids -> ids !! j = Some i -> vals !! j = Some v -> t !! i = Some row ->
  col_put ids c vals t !! i = Some (<[c := v]> row).
Proof.
  intros Hnd Hj Hv Hrow.
  apply (foldl_alter_lookup (fun iv row => <[c := iv.2]> row) (zip ids vals) fst
           t j (i, v) row).
  - apply zip_fst_NoDup, Hnd.
  - rewrite lookup_zip_with, Hj. simpl. rewrite Hv. reflexivity.
  - exact Hrow.
Qed.

Lemma col_put_nil c vals t : col_put [] c vals t = t.
Proof. reflexivity. Qed.

(** ** Index tensors *)

Lemma elem_of_nonzero_from k b i :
  i ∈ nonzero_from k b <-> exists j, i = (k + j)%nat /\ b !! j = Some true.
Proof.
  revert k. induction b as [|x b IH]; intros k; simpl.
  - split; [intros Hin; inversion Hin | intros (j & _ & Hj); discriminate].
  - destruct x.
    + rewrite elem_of_cons, IH. split.
      * intros [->|(j & -> & Hj)]; [exists 0%nat | exists (S j)]; split; auto; lia.
      * intros ([|j] & -> & Hj); [left; lia|right]. exists j. split; [lia|exact Hj].
    + rewrite IH. split.
      * intros (j & -> & Hj). exists (S j). split; [lia|exact Hj].
      * intros ([|j] & -> & Hj); [discriminate|]. exists j. split; [lia|exact Hj].
Qed.

Lemma elem_of_nonzero b i : i ∈ nonzero b <-> b !! i = Some true.
Proof.
  unfold nonzero. rewrite elem_of_nonzero_from. split.
  - intros (j & -> & Hj). exact Hj.
  - intros Hi. exists i. split; [reflexivity|exact Hi].
Qed.

Lemma nonzero_from_NoDup k b : NoDup (nonzero_from k b).
Proof.
  revert k. induction b as [|x b IH]; intros k; simpl; [constructor|].
  destruct x; [|apply IH]. constructor; [|apply IH].
  rewrite elem_of_nonzero_from. intros (j & Hj & _). lia.
Qed.

Lemma nonzero_index_set b : index_set (length b) (nonzero b).
Proof.
  split; [apply nonzero_from_NoDup|].
  apply Forall_forall. intros i Hi. apply elem_of_nonzero in Hi.
  eapply lookup_lt_Some, Hi.
Qed.

Lemma seq_index_set n : index_set n (seq 0 n).
Proof.
  split; [apply NoDup_seq|].
  apply Forall_forall. intros i Hi. apply elem_of_seq in Hi. lia.
Qed.

Lemma check_rows_ok n ids : Forall (fun i => (i < n)%nat) ids -> check_rows n ids = Ok tt.
Proof.
  intros Hall. unfold check_rows.
  replace (forallb (fun i => (i <? n)%nat) ids) with true; [reflexivity|].
  symmetry. apply forallb_forall. intros i Hi.
  apply Nat.ltb_lt. rewrite Forall_forall in Hall. apply Hall.
  apply list_elem_of_In. exact Hi.
Qed.

(** Writing [True] at the rows that already hold [True] changes nothing. *)
Lemma rows_fill_nonzero (b : list bool) : rows_fill (nonzero b) true b = b.
Proof.
  apply list_eq. intros i.
  destruct (decide (i ∈ nonzero b)) as [Hin|Hout].
  - rewrite rows_fill_lookup.
    + symmetry. apply elem_of_nonzero, Hin.
    + apply nonzero_from_NoDup.
    + exact Hin.
    + apply elem_of_nonzero in Hin. eapply lookup_lt_Some, Hin.
  - apply rows_fill_other, Hout.
Qed.

Lemma col_get_ok width c t : (c < width)%nat ->
  col_get width c t = Ok ((fun row => row !!! c) <$> t).
Proof.
  intros Hc. unfold col_get.
  destruct (c <? width)%nat eqn:E; [reflexivity|].
  apply Nat.ltb_ge in E. lia.
Qed.

(** ** Contact rewards *)

Lemma contact_flags_spec (h : Q * Q) :
  (in_contact h.1 -> (contact_flags h).1 = 1%Q)
  /\ (~ in_contact h.1 -> (contact_flags h).1 = 0%Q)
  /\ (in_contact h.2 -> (contact_flags h).2 = 1%Q)
  /\ (~ in_contact h.2 -> (contact_flags h).2 = 0%Q).
Proof.
  unfold in_contact, contact_flags. simpl.
  destruct (Qltb h.1 CONTACT_HEIGHT) eqn:E1, (Qltb h.2 CONTACT_HEIGHT) eqn:E2;
    repeat split; intros Hc; try reflexivity;
    try (apply Qltb_lt in E1); try (apply Qltb_lt in E2);
    try (apply Qltb_lt in Hc; congruence); contradiction.
Qed.


(** C6.  For every row, [_reward_foot_contact_penalty] is 1 when neither
    foot is in contact and 0 when both are.  When exactly one is, it is the
    excess of the higher foot over 0.10, clamped at 0 from below: 0 when
    the higher foot is at or below 0.10, its height minus 0.10 when it is
    at or above.  With one foot in contact and the other at 0.10 + d the
    term is d for d >= 0 and 0 for d <= 0. *)
Theorem foot_contact_penalty_cases (self : Env) (h : list (Q * Q)) :
  current_ankle_heights self = Some h ->
  exists r,
    _reward_foot_contact_penalty self = Ok r
    /\ length r = length h
    /\ forall i hi, h !! i = Some hi ->
         exists x, r !! i = Some x
           /\ (~ in_contact hi.1 -> ~ in_contact hi.2 -> (x == 1)%Q)
           /\ (in_contact hi.1 -> in_contact hi.2 -> (x == 0)%Q)
           /\ ((in_contact hi.1 /\ ~ in_contact hi.2)
               \/ (~ in_contact hi.1 /\ in_contact hi.2) ->
               (x == Qmax (Qmax hi.1 hi.2 - 0.10) 0)%Q
               /\ ((Qmax hi.1 hi.2 <= 0.10)%Q -> (x == 0)%Q)
               /\ ((0.10 <= Qmax hi.1 hi.2)%Q -> (x == Qmax hi.1 hi.2 - 0.10)%Q))
           /\ (forall d, (0 <= d)%Q ->
               (in_contact hi.1 /\ (hi.2 == SWING_HEIGHT_THRESHOLD + d)%Q)
               \/ ((hi.1 == SWING_HEIGHT_THRESHOLD + d)%Q /\ in_contact hi.2) ->
               (x == d)%Q)
           /\ (forall d, (d <= 0)%Q ->
               (in_contact hi.1 /\ ~ in_contact hi.2 /\ (hi.2 == 0.10 + d)%Q)
               \/ (~ in_contact hi.1 /\ (hi.1 == 0.10 + d)%Q /\ in_contact hi.2) ->
               (x == 0)%Q).
Proof.
  intros Hh. unfold _reward_foot_contact_penalty. rewrite Hh. simpl.
  eexists. split; [reflexivity|]. split; [apply length_fmap|].
  intros i hi Hi. rewrite list_lookup_fmap, Hi. simpl.
  eexists. split; [reflexivity|].
  set (y := relu (Qmax hi.1 hi.2 - SWING_HEIGHT_THRESHOLD)).
  assert (Hcases :
    (~ in_contact hi.1 -> ~ in_contact hi.2 ->
       (Qofb (Qeq_bool ((contact_flags hi).1 + (contact_flags hi).2) 0)
        + Qofb (Qeq_bool ((contact_flags hi).1 + (contact_flags hi).2) 1) * y == 1)%Q)
    /\ (in_contact hi.1 -> in_contact hi.2 ->
       (Qofb (Qeq_bool ((contact_flags hi).1 + (contact_flags hi).2) 0)
        + Qofb (Qeq_bool ((contact_flags hi).1 + (contact_flags hi).2) 1) * y == 0)%Q)
    /\ ((in_contact hi.1 /\ ~ in_contact hi.2)
        \/ (~ in_contact hi.1 /\ in_contact hi.2) ->
       (Qofb (Qeq_bool ((contact_flags hi).1 + (contact_flags hi).2) 0)
        + Qofb (Qeq_bool ((contact_flags hi).1 + (contact_flags hi).2) 1) * y == y)%Q)).
  { destruct (contact_flags_spec hi) as (F1 & F1' & F2 & F2').
    repeat split.
    - intros C1 C2. rewrite (F1' C1), (F2' C2). simpl. ring.
    - intros C1 C2. rewrite (F1 C1), (F2 C2). simpl. ring.
    - intros [[C1 C2]|[C1 C2]].
      + rewrite (F1 C1), (F2' C2). simpl. ring.
      + rewrite (F1' C1), (F2 C2). simpl. ring. }
  destruct Hcases as (Hflight & Hboth & Hone).
  assert (Hlow : (y == 0)%Q <-> (Qmax hi.1 hi.2 <= 0.10)%Q).
  { unfold y, relu, SWING_HEIGHT_THRESHOLD.
    destruct (Qlt_le_dec 0.10 (Qmax hi.1 hi.2)) as [Hgt|Hle].
    - rewrite Q.max_l by lra. split; intros; lra.
    - rewrite Q.max_r by lra. split; intros; [exact Hle | reflexivity]. }
  assert (Hhigh : (0.10 <= Qmax hi.1 hi.2)%Q -> (y == Qmax hi.1 hi.2 - 0.10)%Q).
  { intros Hge. unfold y, SWING_HEIGHT_THRESHOLD. apply relu_nonneg. lra. }
  split; [exact Hflight|]. split; [exact Hboth|].
  split.
  { intros Hsingle. rewrite (Hone Hsingle).
    split; [reflexivity|]. split; [apply Hlow | exact Hhigh]. }
  assert (Hgap : (CONTACT_HEIGHT < SWING_HEIGHT_THRESHOLD)%Q) by reflexivity.
  unfold in_contact in *.
  split.
  - intros d Hd Hswing.
    destruct Hswing as [[C1 E2]|[E1 C2]].
    + rewrite Hone by (left; split; [exact C1 | unfold in_contact; lra]).
      unfold y. rewrite relu_nonneg.
      * rewrite Q.max_r by lra. lra.
      * rewrite Q.max_r by lra. lra.
    + rewrite Hone by (right; split; [unfold in_contact; lra | exact C2]).
      unfold y. rewrite relu_nonneg.
      * rewrite Q.max_l by lra. lra.
      * rewrite Q.max_l by lra. lra.
  - intros d Hd Hswing.
    destruct Hswing as [(C1 & C2 & E2)|(C1 & E1 & C2)].
    + rewrite Hone by (left; split; assumption).
      apply Hlow. apply Q.max_lub; unfold CONTACT_HEIGHT in *; lra.
    + rewrite Hone by (right; split; assumption).
      apply Hlow. apply Q.max_lub; unfold CONTACT_HEIGHT in *; lra.
Qed.



Lemma foot_contact_penalty_cases_witness :
  (exists r x,
     _reward_foot_contact_penalty demo_env3 = Ok r
     /\ r !! 0%nat = Some x /\ (x == 0.02)%Q)
  /\ (exists r x0 x1,
        _reward_foot_contact_penalty swing_env = Ok r
        /\ current_ankle_heights swing_env = Some [(0.02, 0.08); (0.3, 0.04)]%Q
        /\ r !! 0%nat = Some x0 /\ (x0 == 0)%Q
        /\ r !! 1%nat = Some x1 /\ (x1 == 0.2)%Q).
Proof.
  split.
  - destruct (foot_contact_penalty_cases demo_env3
                [(0.02, 0.12); (0.02, 0.02)]%Q eq_refl)
      as (r & Hr & _ & Hrows).
    destruct (Hrows 0%nat (0.02, 0.12)%Q eq_refl) as (x & Hx & _ & _ & _ & Hd & _).
    exists r, x. split; [exact Hr|]. split; [exact Hx|].
    apply Hd; [discriminate|]. left. split; reflexivity.
  - destruct (foot_contact_penalty_cases swing_env
                [(0.02, 0.08); (0.3, 0.04)]%Q eq_refl)
      as (r & Hr & _ & Hrows).
    destruct (Hrows 0%nat (0.02, 0.08)%Q eq_refl) as (x0 & Hx0 & _ & _ & Hone0 & _).
    destruct (Hrows 1%nat (0.3, 0.04)%Q eq_refl) as (x1 & Hx1 & _ & _ & Hone1 & _).
    exists r, x0, x1. split; [exact Hr|]. split; [reflexivity|].
    split; [exact Hx0|]. split.
    { destruct Hone0 as (_ & Hclamp & _).
      - left. split; [reflexivity | discriminate].
      - apply Hclamp. discriminate. }
    split; [exact Hx1|].
    destruct Hone1 as (_ & _ & Hexcess).
    + right. split; [discriminate | reflexivity].
    + rewrite Hexcess by discriminate. reflexivity.
Defined.

(** ** Gait regularity *)



Section Gait.

Context `{Externals}.


End Gait.



(** ** Command sampling *)

Lemma affine_within (r : Q * Q) (u : Q) :
  (r.1 <= r.2)%Q -> (0 <= u)%Q -> (u < 1)%Q -> within r (affine r u).
Proof.
  intros Hr H0 H1. unfold within, affine.
  destruct r as [lo hi]. cbn [fst snd] in *. split; nra.
Qed.

(** The j-th of [n] values drawn by [gs_rand_float]. *)
Lemma gs_rand_float_lookup (r : Q * Q) (n : nat) (g : Rng) (j : nat) :
  (j < n)%nat ->
  (gs_rand_float r.1 r.2 n g).1 !! j = Some (affine r (draws g (cursor g + j))).
Proof.
  intros Hj. unfold gs_rand_float, torch_rand. cbn [fst].
  rewrite !list_lookup_fmap.
  replace (seq (cursor g) n !! j) with (Some (cursor g + j)%nat).
  - reflexivity.
  - symmetry. apply lookup_seq. split; [reflexivity | exact Hj].
Qed.

Lemma gs_rand_float_rng (lower upper : Q) (n : nat) (g : Rng) :
  (gs_rand_float lower upper n g).2 = {| draws := draws g; cursor := cursor g + n |}.
Proof. reflexivity. Qed.

Lemma with_commands_same (self : Env) : with_commands (commands self) self = self.
Proof. destruct self. reflexivity. Qed.

Lemma commands_setitem_ok (env_ids : list nat) (c : nat) (vals : list Q) (self : Env) :
  (c < num_commands self)%nat ->
  Forall (fun i => (i < num_envs self)%nat) env_ids ->
  commands_setitem env_ids c vals self
  = Ok (with_commands (col_put env_ids c vals (commands self)) self).
Proof.
  intros Hc Hids. unfold commands_setitem.
  destruct (c <? num_commands self)%nat eqn:E.
  - rewrite check_rows_ok by exact Hids. reflexivity.
  - apply Nat.ltb_ge in E. lia.
Qed.

Lemma resample_commands_effect (env_ids : list nat) (self : Env) (g : Rng) :
  (3 <= num_commands self)%nat ->
  index_set (num_envs self) env_ids ->
  exists cmds g',
    _resample_commands env_ids self g = Ok (with_commands cmds self, g')
    /\ resampled env_ids self g cmds g'
    /\ (env_ids = [] -> _resample_commands env_ids self g = Ok (self, g)).
Proof.
  intros HC [Hnd Hids]. unfold resampled.
  set (n := length env_ids). set (cfg := command_cfg self).
  unfold _resample_commands. fold n. fold cfg.
  rewrite commands_setitem_ok by (assumption || lia).
  cbn [mbind result_bind].
  rewrite commands_setitem_ok by (assumption || (cbn; lia)).
  cbn [mbind result_bind].
  rewrite commands_setitem_ok by (assumption || (cbn; lia)).
  cbn [mbind result_bind mret result_ret].
  set (v0 := (gs_rand_float (Cfg.lin_vel_x_range cfg).1 (Cfg.lin_vel_x_range cfg).2 n g).1).
  set (v1 := (gs_rand_float (Cfg.lin_vel_y_range cfg).1 (Cfg.lin_vel_y_range cfg).2 n _).1).
  set (v2 := (gs_rand_float (Cfg.ang_vel_range cfg).1 (Cfg.ang_vel_range cfg).2 n _).1).
  assert (Hrow : forall j i row, env_ids !! j = Some i -> commands self !! i = Some row ->
    col_put env_ids 2 v2 (col_put env_ids 1 v1 (col_put env_ids 0 v0 (commands self))) !! i
    = Some
        (<[2%nat := affine (Cfg.ang_vel_range cfg) (draws g (cursor g + 2 * n + j))]>
        (<[1%nat := affine (Cfg.lin_vel_y_range cfg) (draws g (cursor g + n + j))]>
        (<[0%nat := affine (Cfg.lin_vel_x_range cfg) (draws g (cursor g + j))]>
           row)))).
  { intros j i row Hj Hi.
    assert (Hjn : (j < n)%nat) by (eapply lookup_lt_Some, Hj).
    eapply col_put_lookup; [exact Hnd | exact Hj | |].
    - unfold v2. rewrite gs_rand_float_lookup by exact Hjn.
      rewrite !gs_rand_float_rng. cbn [draws cursor].
      do 2 f_equal. f_equal. lia.
    - eapply col_put_lookup; [exact Hnd | exact Hj | |].
      + unfold v1. rewrite gs_rand_float_lookup by exact Hjn.
        rewrite !gs_rand_float_rng. reflexivity.
      + eapply col_put_lookup; [exact Hnd | exact Hj | | exact Hi].
        unfold v0. apply gs_rand_float_lookup, Hjn. }
  exists (col_put env_ids 2 v2 (col_put env_ids 1 v1 (col_put env_ids 0 v0 (commands self)))).
  eexists. split; [reflexivity|].
  split; [|intros ->; f_equal; f_equal].
  2:{ transitivity (with_commands (commands self) self);
        [reflexivity | apply with_commands_same]. }
  2:{ destruct g as [d c]. unfold gs_rand_float, torch_rand. cbn.
      f_equal. lia. }
  split; [reflexivity|]. split; [rewrite !gs_rand_float_rng; cbn [cursor]; lia|].
  split; [rewrite !col_put_length; reflexivity|].
  split; [intros i Hi; rewrite !col_put_other by exact Hi; reflexivity|].
  split; [exact Hrow|].
  - intros Hu (Hx & Hy & Hw) i row row' Hin Hi Hlen Hrow'.
    apply list_elem_of_lookup in Hin as [j Hj].
    rewrite (Hrow j i row Hj Hi) in Hrow'. injection Hrow' as <-.
    split; [|split].
    + eexists _, _, _.
      split; [|split; [|split]].
      * rewrite list_lookup_insert_ne, list_lookup_insert_ne by lia.
        apply list_lookup_insert_eq. lia.
      * rewrite list_lookup_insert_ne by lia.
        apply list_lookup_insert_eq. rewrite length_insert. lia.
      * apply list_lookup_insert_eq. rewrite !length_insert. lia.
      * repeat split; apply affine_within; try assumption; apply Hu.
    + rewrite !length_insert. reflexivity.
    + intros c Hc. rewrite !list_lookup_insert_ne by lia. reflexivity.
Qed.


Lemma demo_unit_draws : unit_draws demo_rng.
Proof. intros k. split; discriminate || reflexivity. Qed.

Lemma demo_ordered_ranges : ordered_ranges demo_command_cfg.
Proof. repeat split; discriminate. Qed.


(** ** Reset *)

Lemma log_episode_loop_ok (els : Q) (env_ids : list nat) (sums : dict (list Q))
    (st : dict Q * dict (list Q)) :
  ~ (els == 0)%Q ->
  exists st', for_each (log_episode els env_ids) sums st = Ok st'.
Proof.
  intros Hels.
  assert (Hbody : forall s item, exists s', log_episode els env_ids s item = Ok s').
  { intros s item. unfold log_episode.
    apply Qeq_bool_false in Hels. rewrite Hels. eauto. }
  revert st. induction sums as [|item sums IH]; intros st; cbn [for_each].
  - eauto.
  - destruct (Hbody st item) as [st1 ->]. cbn [mbind result_bind]. apply IH.
Qed.

Lemma reset_idx_nil (self : Env) (g : Rng) : reset_idx [] self g = Ok (self, g).
Proof. reflexivity. Qed.

Lemma reset_fields_nil (self : Env) : reset_fields [] self self.
Proof. constructor; reflexivity. Qed.

(** [reset_idx] returns, and writes what its lines say. *)
Lemma reset_idx_effect (env_ids : list nat) (self : Env) (g : Rng) :
  index_set (num_envs self) env_ids ->
  (3 <= num_commands self)%nat ->
  ~ (Cfg.episode_length_s (env_cfg self) == 0)%Q ->
  exists self' g',
    reset_idx env_ids self g = Ok (self', g')
    /\ reset_fields env_ids self self'
    /\ resampled env_ids self g (commands self') g'.
Proof.
  intros Hids HC Hels.
  destruct env_ids as [|i0 ids] eqn:Eids.
  { exists self, g. split; [reflexivity|]. split; [apply reset_fields_nil|].
    unfold resampled. cbn [length].
    split; [reflexivity|]. split; [lia|]. split; [reflexivity|].
    split; [reflexivity|]. split.
    - intros j i row Hj. rewrite lookup_nil in Hj. discriminate.
    - intros _ _ i row row' Hin. apply elem_of_nil in Hin. contradiction. }
  rewrite <- Eids in *. assert (Hne : (length env_ids =? 0)%nat = false).
  { rewrite Eids. reflexivity. }
  unfold reset_idx. rewrite Hne.
  rewrite check_rows_ok by apply Hids. cbn [mbind result_bind].
  destruct (log_episode_loop_ok _ env_ids (episode_sums self)
              ([], episode_sums self) Hels) as [[ep sums] Hlog].
  rewrite Hlog. cbn [mbind result_bind].
  match goal with
  | |- exists _ _, _resample_commands _ ?mid _ = _ /\ _ =>
      destruct (resample_commands_effect env_ids mid g HC Hids)
        as (cmds & g' & Hres & Hcmds & _)
  end.
  rewrite Hres. eexists _, _. split; [reflexivity|]. split.
  - constructor; reflexivity.
  - exact Hcmds.
Qed.

Lemma zero_row (n : nat) (row : list Q) :
  length row = n -> (fun _ => 0%Q) <$> row = zeros n.
Proof.
  intros <-. unfold zeros. induction row as [|x row IH]; [reflexivity|].
  cbn. f_equal. exact IH.
Qed.

Lemma has_shape_lookup (n k : nat) (t : list (list Q)) (i : nat) :
  has_shape n k t -> (i < n)%nat -> exists row, t !! i = Some row /\ length row = k.
Proof.
  intros [Hlen Hrows] Hi.
  destruct (lookup_lt_is_Some_2 t i) as [row Hrow]; [lia|].
  exists row. split; [exact Hrow|].
  rewrite Forall_forall in Hrows. apply Hrows.
  eapply list_elem_of_lookup_2, Hrow.
Qed.

Lemma index_set_lt (n : nat) (ids : list nat) (i : nat) :
  index_set n ids -> i ∈ ids -> (i < n)%nat.
Proof.
  intros [_ Hall] Hin. rewrite Forall_forall in Hall. apply Hall, Hin.
Qed.

(** The contact cache of a reset row. *)
Lemma reset_prev_contact_row (env_ids : list nat) (self self' : Env) (i : nat) :
  index_set (num_envs self) env_ids ->
  length (prev_contact self) = num_envs self ->
  (forall cur, current_ankle_heights self = Some cur -> length cur = num_envs self) ->
  reset_fields env_ids self self' ->
  i ∈ env_ids ->
  prev_contact self' !! i = Some (contact_flags (row_heights self i)).
Proof.
  intros Hids Hprev Hcur Hrf Hin.
  assert (Hi : (i < num_envs self)%nat) by (eapply index_set_lt; eauto).
  rewrite (rf_prev_contact _ _ _ Hrf).
  apply list_elem_of_lookup in Hin as [j Hj].
  eapply rows_put_lookup; [apply Hids | exact Hj | | lia].
  rewrite list_lookup_fmap. unfold reset_heights, row_heights.
  destruct (current_ankle_heights self) as [cur|] eqn:Ecur.
  - specialize (Hcur cur eq_refl).
    destruct (lookup_lt_is_Some_2 cur i) as [hi Hhi]; [lia|].
    rewrite (rows_get_lookup _ _ _ _ _ _ Hj Hhi), Hhi. reflexivity.
  - rewrite lookup_replicate_2; [reflexivity|]. eapply lookup_lt_Some, Hj.
Qed.


Section ResetRows.

Context `{Externals}.

(** C2 (amended).  [reset_idx] on a set of rows returns and rewrites, in
    the listed rows only: base pose to the initial pose, base and joint
    velocities to zero, joint positions to the default pose, the contact
    cache, the last-action and last-velocity buffers to zero, the step
    counter to 0 and the reset flag to true; it then draws a command for
    each listed row inside the configured ranges.  The hip-angle history
    is left as it was, in every row. *)
Theorem reset_idx_rows (env_ids : list nat) (self : Env) (g : Rng) :
  wf_env self ->
  index_set (num_envs self) env_ids ->
  unit_draws g ->
  ordered_ranges (command_cfg self) ->
  exists self' g',
    reset_idx env_ids self g = Ok (self', g')
    /\ hip_angle_history self' = hip_angle_history self
    /\ (forall i, i ∈ env_ids ->
          base_pos self' !! i = Some (base_init_pos self)
          /\ base_quat self' !! i = Some (base_init_quat self)
          /\ base_lin_vel self' !! i = Some vec3_zero
          /\ base_ang_vel self' !! i = Some vec3_zero
          /\ dof_vel self' !! i = Some (zeros (num_actions self))
          /\ dof_pos self' !! i = Some (default_dof_pos self)
          /\ prev_contact self' !! i = Some (contact_flags (row_heights self i))
          /\ last_actions self' !! i = Some (zeros (num_actions self))
          /\ last_dof_vel self' !! i = Some (zeros (num_actions self))
          /\ episode_length_buf self' !! i = Some 0%Z
          /\ reset_buf self' !! i = Some true
          /\ exists row, commands self' !! i = Some row
                         /\ command_in_ranges (command_cfg self) row)
    /\ (forall i, i ∉ env_ids ->
          base_pos self' !! i = base_pos self !! i
          /\ base_quat self' !! i = base_quat self !! i
          /\ base_lin_vel self' !! i = base_lin_vel self !! i
          /\ base_ang_vel self' !! i = base_ang_vel self !! i
          /\ dof_vel self' !! i = dof_vel self !! i
          /\ dof_pos self' !! i = dof_pos self !! i
          /\ prev_contact self' !! i = prev_contact self !! i
          /\ last_actions self' !! i = last_actions self !! i
          /\ last_dof_vel self' !! i = last_dof_vel self !! i
          /\ episode_length_buf self' !! i = episode_length_buf self !! i
          /\ reset_buf self' !! i = reset_buf self !! i
          /\ commands self' !! i = commands self !! i).
Proof.
  intros Hwf Hids Hu Hranges.
  assert (HC : (3 <= num_commands self)%nat) by (rewrite (wf_num_commands _ Hwf); lia).
  destruct (reset_idx_effect env_ids self g Hids HC (wf_episode_length_s _ Hwf))
    as (self' & g' & Hres & Hrf & Hcmds).
  exists self', g'. split; [exact Hres|].
  split; [apply (rf_hip_angle_history _ _ _ Hrf)|].
  destruct Hcmds as (_ & _ & Hclen & Hcout & _ & Hcin).
  pose proof Hids as [Hnd _].
  split.
  - intros i Hin.
    assert (Hi : (i < num_envs self)%nat) by (eapply index_set_lt; eauto).
    rewrite (rf_base_pos _ _ _ Hrf), (rf_base_quat _ _ _ Hrf),
      (rf_base_lin_vel _ _ _ Hrf), (rf_base_ang_vel _ _ _ Hrf),
      (rf_dof_vel _ _ _ Hrf), (rf_dof_pos _ _ _ Hrf),
      (rf_last_actions _ _ _ Hrf), (rf_last_dof_vel _ _ _ Hrf),
      (rf_episode_length_buf _ _ _ Hrf), (rf_reset_buf _ _ _ Hrf).
    destruct (has_shape_lookup _ _ _ i (wf_dof_vel _ Hwf) Hi) as (rv & Hrv & Hlv).
    destruct (has_shape_lookup _ _ _ i (wf_last_actions _ Hwf) Hi) as (ra & Hra & Hla).
    destruct (has_shape_lookup _ _ _ i (wf_last_dof_vel _ Hwf) Hi) as (rl & Hrl & Hll).
    destruct (has_shape_lookup _ _ _ i (wf_commands _ Hwf) Hi) as (rc & Hrc & Hlc).
    destruct (wf_dof_pos _ Hwf) as [Hdp _].
    rewrite (rows_zero_lookup _ _ _ _ Hnd Hin Hrv), (zero_row _ _ Hlv).
    rewrite (rows_zero_lookup _ _ _ _ Hnd Hin Hra), (zero_row _ _ Hla).
    rewrite (rows_zero_lookup _ _ _ _ Hnd Hin Hrl), (zero_row _ _ Hll).
    repeat (split; [first
      [ reflexivity
      | apply rows_fill_lookup; [exact Hnd | exact Hin | ];
        rewrite ?(wf_base_pos _ Hwf), ?(wf_base_quat _ Hwf),
          ?(wf_base_lin_vel _ Hwf), ?(wf_base_ang_vel _ Hwf), ?Hdp,
          ?(wf_episode_length_buf _ Hwf), ?(wf_reset_buf _ Hwf); exact Hi
      | eapply reset_prev_contact_row; eauto using wf_prev_contact, wf_ankle_heights ]|]).
    destruct (lookup_lt_is_Some_2 (commands self') i) as [row' Hrow'].
    { rewrite Hclen. destruct (wf_commands _ Hwf) as [-> _]. exact Hi. }
    exists row'. split; [exact Hrow'|].
    eapply (Hcin Hu Hranges i rc row' Hin Hrc); [lia | exact Hrow'].
  - intros i Hout.
    rewrite (rf_base_pos _ _ _ Hrf), (rf_base_quat _ _ _ Hrf),
      (rf_base_lin_vel _ _ _ Hrf), (rf_base_ang_vel _ _ _ Hrf),
      (rf_dof_vel _ _ _ Hrf), (rf_dof_pos _ _ _ Hrf), (rf_prev_contact _ _ _ Hrf),
      (rf_last_actions _ _ _ Hrf), (rf_last_dof_vel _ _ _ Hrf),
      (rf_episode_length_buf _ _ _ Hrf), (rf_reset_buf _ _ _ Hrf).
    rewrite !rows_fill_other, !rows_zero_other, rows_put_other by exact Hout.
    repeat (split; [reflexivity|]). apply Hcout, Hout.
Qed.

End ResetRows.

(** ** One tick: the stages of [step] *)

Section Step.

Context `{Externals}.

Lemma advance_ok (actions_in : list (list Q)) (sim : SimOut) (self : Env) :
  is_Some (Cfg.clip_actions (env_cfg self)) ->
  both_below (num_actions self) (hip_fe_indices self) ->
  exists m0, advance actions_in sim self = Ok m0
             /\ advance_fields actions_in sim self m0.
Proof.
  intros [c Hc] [Hfe1 Hfe2]. unfold advance. rewrite Hc.
  cbn [cfg_item mbind result_bind].
  rewrite !col_get_ok by assumption.
  cbn [mbind result_bind mret result_ret].
  eexists. split; [reflexivity|].
  constructor; try reflexivity.
  - intros c' Hc'. cbn [actions]. rewrite Hc in Hc'. injection Hc' as <-. reflexivity.
  - cbn [base_euler]. rewrite <- list_fmap_compose. reflexivity.
Qed.

Lemma resample_rows_ok (self : Env) :
  py_int (float_div (Cfg.resampling_time_s (env_cfg self)) (dt self)) <> 0%Z ->
  exists idx, resample_rows self = Ok idx
              /\ index_set (length (episode_length_buf self)) idx.
Proof.
  intros Hk. unfold resample_rows.
  destruct (Z.eqb_spec (py_int (float_div (Cfg.resampling_time_s (env_cfg self)) (dt self))) 0)
    as [E|_]; [contradiction|].
  eexists. split; [reflexivity|].
  pose proof (nonzero_index_set
    ((fun n => (n mod py_int (float_div (Cfg.resampling_time_s (env_cfg self)) (dt self)) =? 0)%Z)
       <$> episode_length_buf self)) as Hset.
  rewrite length_fmap in Hset. exact Hset.
Qed.

Lemma with_prev_contact_same (m : Env) : with_prev_contact (prev_contact m) m = m.
Proof. destruct m. reflexivity. Qed.

Lemma reward_frame_same (m : Env) :
  with_prev_contact (prev_contact m) (with_rewards (rew_buf m) (episode_sums m) m) = m.
Proof. destruct m. reflexivity. Qed.

Lemma reward_ready_frame (m : Env) pc rew sums :
  reward_ready m -> reward_ready (with_prev_contact pc (with_rewards rew sums m)).
Proof. intros []. constructor; assumption. Qed.

(** Every reward method returns once the simulator has been read; only
    the contact-switch term touches [self], and only its contact cache. *)
Lemma call_reward_ok (fn : reward_term) (m : Env) :
  reward_ready m ->
  exists v pc, call_reward fn m = Ok (v, with_prev_contact pc m).
Proof.
  intros [[Haa1 Haa2] [Hfe1 Hfe2] [Hkn1 Hkn2] HC [sigma Hsigma] [target Htarget]
            [h Hh] [q Hq] [e He]].
  destruct fn;
    unfold call_reward, _reward_tracking_lin_vel, _reward_tracking_ang_vel,
      _reward_lin_vel_z, _reward_action_rate, _reward_similar_to_default,
      _reward_base_height, _reward_orientation_stability, _reward_survive,
      _reward_penalize_hip_aa, _reward_penalize_hip_fe, _reward_penalize_hip_fe_diff,
      _reward_penalize_knee_fe_left, _reward_penalize_knee_fe_right,
      _reward_penalize_ankle_height, _reward_gait_regularity,
      _reward_foot_orientation, _reward_step_height_consistency,
      _reward_foot_contact_penalty, _reward_foot_contact_switch, dof_pos_pair;
    rewrite ?Hsigma, ?Htarget, ?Hh, ?Hq, ?He;
    rewrite ?col_get_ok by (assumption || lia);
    cbn [mbind result_bind mret result_ret getattr cfg_item];
    first [ eexists _, _; reflexivity
          | eexists _, (prev_contact m); rewrite with_prev_contact_same; reflexivity ].
Qed.

Lemma add_reward_ok (m : Env) (name : string) (fn : reward_term) :
  reward_ready m ->
  is_Some (dict_get (reward_scales m) name) ->
  is_Some (dict_get (episode_sums m) name) ->
  exists pc rew sums,
    add_reward m (name, fn) = Ok (with_prev_contact pc (with_rewards rew sums m))
    /\ forall k, is_Some (dict_get (episode_sums m) k) -> is_Some (dict_get sums k).
Proof.
  intros Hready [scale Hscale] [sum Hsum]. unfold add_reward. cbn [fst snd].
  destruct (call_reward_ok fn m Hready) as (v & pc & ->).
  cbn [mbind result_bind mret result_ret].
  change (reward_scales (with_prev_contact pc m)) with (reward_scales m).
  change (episode_sums (with_prev_contact pc m)) with (episode_sums m).
  rewrite (dict_item_Some _ _ _ Hscale), (dict_item_Some _ _ _ Hsum).
  cbn [mbind result_bind mret result_ret].
  eexists pc, _, _. split; [reflexivity|].
  intros k Hk. apply dict_get_set_is_Some, Hk.
Qed.

(** The reward loop returns and writes only the reward buffer, the episode
    accumulators and the contact cache. *)
Lemma rewards_loop_ok (fns : dict reward_term) (m : Env) :
  reward_ready m -> registered fns m ->
  exists pc rew sums,
    for_each add_reward fns m = Ok (with_prev_contact pc (with_rewards rew sums m)).
Proof.
  revert m. induction fns as [|[name fn] fns IH]; intros m Hready Hreg.
  - exists (prev_contact m), (rew_buf m), (episode_sums m).
    rewrite reward_frame_same. reflexivity.
  - unfold registered in Hreg. cbn in Hreg. apply Forall_cons in Hreg as [[Hs Ha] Hreg].
    destruct (add_reward_ok m name fn Hready Hs Ha) as (pc & rew & sums & Hadd & Hkeys).
    cbn [for_each]. rewrite Hadd. cbn [mbind result_bind].
    destruct (IH (with_prev_contact pc (with_rewards rew sums m))) as (pc' & rew' & sums' & Hloop).
    + apply reward_ready_frame, Hready.
    + unfold registered. eapply Forall_impl; [exact Hreg|].
      intros k [Hk1 Hk2]. split; [exact Hk1 | apply Hkeys, Hk2].
    + rewrite Hloop. exists pc', rew', sums'. reflexivity.
Qed.

Lemma assemble_obs_ok (m : Env) :
  Forall (fun k => is_Some (dict_get (obs_scales m) k)) ["ang_vel"; "dof_pos"; "dof_vel"]%string ->
  exists s_ang s_pos s_vel,
    dict_get (obs_scales m) "ang_vel" = Some s_ang
    /\ dict_get (obs_scales m) "dof_pos" = Some s_pos
    /\ dict_get (obs_scales m) "dof_vel" = Some s_vel
    /\ assemble_obs m
       = Ok (cat_rows ((fun v => vec3_list (vec3_scale v s_ang)) <$> base_ang_vel m)
            (cat_rows (vec3_list <$> projected_gravity m)
            (cat_rows ((fun c => zip_with Qmult c (commands_scale m)) <$> commands m)
            (cat_rows ((fun p => zip_with (fun x d => ((x - d) * s_pos)%Q) p (default_dof_pos m))
                         <$> dof_pos m)
            (cat_rows (fmap (M := list) (fun x => (x * s_vel)%Q) <$> dof_vel m)
                      (actions m)))))).
Proof.
  intros Hs.
  apply Forall_cons in Hs as [[sa Ha] Hs].
  apply Forall_cons in Hs as [[sp Hp] Hs].
  apply Forall_cons in Hs as [[sv Hv] _].
  exists sa, sp, sv. repeat (split; [assumption|]).
  unfold assemble_obs.
  rewrite (dict_item_Some _ _ _ Ha), (dict_item_Some _ _ _ Hp), (dict_item_Some _ _ _ Hv).
  reflexivity.
Qed.

Lemma done_flags_length (m : Env) (elb : list Z) (euler : list Vec3) (n : nat) :
  length elb = n -> length euler = n -> length (done_flags m elb euler) = n.
Proof.
  intros He Hu. unfold done_flags.
  rewrite !length_zip_with, !length_fmap. lia.
Qed.

End Step.

Section Trace.

Context `{Externals}.

(** Under the shape invariant [step] returns, and goes through the stages
    of [step_trace]. *)
Lemma step_runs (actions_in : list (list Q)) (sim : SimOut) (self : Env) (g : Rng) :
  wf_env self -> wf_sim self sim ->
  exists m0 idx cmds g1 euler m3 obs self' g',
    step_trace actions_in sim self g m0 idx cmds g1 euler m3 obs self' g'.
Proof.
  intros Hwf Hsim.
  destruct (advance_ok actions_in sim self (wf_clip _ Hwf) (wf_hip_fe _ Hwf))
    as (m0 & Hadv & Hf).
  pose proof (af_attrs _ _ _ _ Hf) as Hattrs.
  destruct (resample_rows_ok m0) as (idx & Hrows & Hidx).
  { rewrite Hattrs. apply (wf_period _ Hwf). }
  rewrite (af_episode_length_buf _ _ _ _ Hf), length_fmap,
    (wf_episode_length_buf _ Hwf) in Hidx.
  assert (HC : (3 <= num_commands m0)%nat).
  { rewrite Hattrs, (wf_num_commands _ Hwf). lia. }
  assert (Hidx0 : index_set (num_envs m0) idx) by (rewrite Hattrs; exact Hidx).
  destruct (resample_commands_effect idx m0 g HC Hidx0)
    as (cmds & g1 & Hres & Hcmds & _).
  pose proof (af_base_euler _ _ _ _ Hf) as Heuler.
  set (euler := (fun q => quat_to_xyz (transform_quat_by_quat (inv_base_init_quat self) q))
                  <$> robot_quat sim) in Heuler.
  set (done := done_flags m0 (episode_length_buf m0) euler).
  set (m2 := with_rewards ((fun _ => 0%Q) <$> rew_buf m0) (episode_sums m0)
               (with_reset_buf done (with_commands cmds m0))).
  assert (Hready : reward_ready m2).
  { constructor;
      change (both_below (num_actions m0) (hip_aa_indices m0))
      || change (both_below (num_actions m0) (hip_fe_indices m0))
      || change (both_below (num_actions m0) (knee_fe_indices m0))
      || change (3 <= num_commands m0)%nat
      || change (is_Some (Cfg.tracking_sigma (reward_cfg m0)))
      || change (is_Some (Cfg.base_height_target (reward_cfg m0)))
      || change (is_Some (current_ankle_heights m0))
      || change (is_Some (current_foot_orientations m0))
      || change (is_Some (base_euler m0));
      rewrite ?Hattrs;
      first [ apply Hwf | exact HC
            | rewrite (af_current_ankle_heights _ _ _ _ Hf); eauto
            | rewrite (af_current_foot_orientations _ _ _ _ Hf); eauto
            | rewrite Heuler; eauto
            | rewrite <- Hattrs; exact HC ]. }
  assert (Hreg : registered (reward_functions m0) m2).
  { unfold registered.
    change (reward_scales m2) with (reward_scales m0).
    change (episode_sums m2) with (episode_sums m0).
    rewrite Hattrs, (af_episode_sums _ _ _ _ Hf). apply (wf_registry _ Hwf). }
  destruct (rewards_loop_ok (reward_functions m0) m2 Hready Hreg)
    as (pc & rew & sums & Hloop).
  set (m3 := with_prev_contact pc (with_rewards rew sums m2)) in Hloop.
  destruct (assemble_obs_ok m3) as (sa & sp & sv & _ & _ & _ & Hobs).
  { change (obs_scales m3) with (obs_scales m0). rewrite Hattrs.
    apply (wf_obs_scales _ Hwf). }
  match type of Hobs with _ = Ok ?o => set (obs := o) in Hobs end.
  set (m4 := with_observation obs (actions m3) (dof_vel m3)
               {| observations_critic := Some obs; episode := episode (extras m3) |} m3).
  assert (Hdone : length done = num_envs self).
  { apply done_flags_length.
    - rewrite (af_episode_length_buf _ _ _ _ Hf), length_fmap.
      apply (wf_episode_length_buf _ Hwf).
    - unfold euler. rewrite length_fmap. apply (wf_robot_quat _ _ Hsim). }
  destruct (reset_idx_effect (nonzero done) m4 g1) as (self' & g' & Hreset & Hrf & _).
  { change (num_envs m4) with (num_envs m0). rewrite Hattrs, <- Hdone.
    apply nonzero_index_set. }
  { exact HC. }
  { change (env_cfg m4) with (env_cfg m0). rewrite Hattrs.
    apply (wf_episode_length_s _ Hwf). }
  exists m0, idx, cmds, g1, euler, m3, obs, self', g'.
  constructor; try assumption.
  - reflexivity.
  - unfold step. rewrite Hadv. cbn [mbind result_bind].
    rewrite Hrows. cbn [mbind result_bind].
    rewrite Hres. cbn [mbind result_bind].
    change (base_euler (with_commands cmds m0)) with (base_euler m0).
    rewrite Heuler. cbn [getattr mbind result_bind].
    change (for_each add_reward (reward_functions m0) m2
              ≫= (fun self0 =>
                    assemble_obs self0
                      ≫= (fun obs0 =>
                            reset_idx (nonzero (reset_buf self0))
                              (with_observation obs0 (actions self0) (dof_vel self0)
                                 {| observations_critic := Some obs0;
                                    episode := episode (extras self0) |} self0) g1
                              ≫= (fun '(self1, g2) =>
                                    mret (self1, g2,
                                          (obs_buf self1, rew_buf self1,
                                           reset_buf self1, extras self1)))))
            = Ok (self', g', (obs_buf self', rew_buf self', reset_buf self', extras self'))).
    rewrite Hloop. cbn [mbind result_bind].
    rewrite Hobs. cbn [mbind result_bind].
    change (reset_idx (nonzero done) m4 g1
              ≫= (fun '(self1, g2) =>
                    mret (self1, g2,
                          (obs_buf self1, rew_buf self1, reset_buf self1, extras self1)))
            = Ok (self', g', (obs_buf self', rew_buf self', reset_buf self', extras self'))).
    rewrite Hreset. reflexivity.
Qed.

End Trace.

(** ** The concrete robot satisfies the invariant *)


Lemma demo_env_wf : @wf_env demo_externals demo_env.
Proof. wf_by_computation. Qed.

Lemma demo_env1_wf : @wf_env demo_externals demo_env1.
Proof. wf_by_computation. Qed.

Lemma demo_env3_wf : @wf_env demo_externals demo_env3.
Proof. wf_by_computation. Qed.

Lemma demo_sim_wf (e : Env) (pitch thigh : Q) :
  num_envs e = 2%nat -> num_actions e = 6%nat -> wf_sim e (demo_sim pitch thigh).
Proof.
  intros HN HA. constructor; rewrite ?HN, ?HA; unfold has_shape; cbn;
    repeat match goal with
           | |- _ /\ _ => split
           | |- Forall _ _ => repeat constructor
           end; reflexivity.
Qed.

Section Claims.

Context `{Externals}.

(** The flags [step] returns are the termination flags it computed: the
    reward loop, the observation and the reset leave them as they are. *)
Lemma step_trace_reset_buf actions_in sim self g m0 idx cmds g1 euler m3 obs self' g' :
  step_trace actions_in sim self g m0 idx cmds g1 euler m3 obs self' g' ->
  reset_buf self' = done_flags m0 (episode_length_buf m0) euler.
Proof.
  intros Ht. rewrite (rf_reset_buf _ _ _ (st_reset_fields _ _ _ _ _ _ _ _ _ _ _ _ _ Ht)).
  cbn [reset_buf with_observation].
  rewrite (st_reward_frame _ _ _ _ _ _ _ _ _ _ _ _ _ Ht).
  cbn [reset_buf with_prev_contact with_rewards with_reset_buf].
  apply rows_fill_nonzero.
Qed.

(** The observation [step] returns is the one it stored and the one it
    assembled before the reset. *)
Lemma step_trace_obs_buf actions_in sim self g m0 idx cmds g1 euler m3 obs self' g' :
  step_trace actions_in sim self g m0 idx cmds g1 euler m3 obs self' g' ->
  obs_buf self' = obs.
Proof.
  intros Ht. rewrite (rf_obs_buf _ _ _ (st_reset_fields _ _ _ _ _ _ _ _ _ _ _ _ _ Ht)).
  reflexivity.
Qed.

Lemma step_trace_attrs actions_in sim self g m0 idx cmds g1 euler m3 obs self' g' :
  step_trace actions_in sim self g m0 idx cmds g1 euler m3 obs self' g' ->
  attrs self' = attrs self /\ attrs m3 = attrs self /\ attrs m0 = attrs self.
Proof.
  intros Ht.
  pose proof (af_attrs _ _ _ _ (st_fields _ _ _ _ _ _ _ _ _ _ _ _ _ Ht)) as H0.
  rewrite (rf_attrs _ _ _ (st_reset_fields _ _ _ _ _ _ _ _ _ _ _ _ _ Ht)).
  cbn [attrs with_observation].
  rewrite (st_reward_frame _ _ _ _ _ _ _ _ _ _ _ _ _ Ht).
  cbn [attrs with_prev_contact with_rewards with_reset_buf with_commands].
  auto.
Qed.

End Claims.

(** ** Construction *)


Section Construction.

Context `{Externals}.

(** What a successful [__init__] leaves in the buffers the claims read. *)
Lemma init_buffers (n : nat) (ec : Cfg.Env) (oc : Cfg.Obs) (rc : Cfg.Reward)
    (cc : Cfg.Command) (e : Env) :
  __init__ n ec oc rc cc = Ok e ->
  num_envs e = n /\ num_obs e = Cfg.num_obs oc
  /\ num_actions e = Cfg.num_actions ec /\ num_commands e = Cfg.num_commands cc
  /\ env_cfg e = ec /\ command_cfg e = cc
  /\ dt e = 0.01%Q
  /\ max_episode_length e = Qceiling (float_div (Cfg.episode_length_s ec) 0.01)
  /\ obs_buf e = zeros2 n (Cfg.num_obs oc)
  /\ reset_buf e = replicate n true
  /\ episode_length_buf e = replicate n 0%Z
  /\ commands e = zeros2 n (Cfg.num_commands cc)
  /\ prev_contact e = replicate n (0, 0)%Q
  /\ hip_angle_history e = replicate n (zeros 10, zeros 10)
  /\ current_ankle_heights e = None.
Proof.
  intros Hinit. unfold __init__ in Hinit. inv_bind Hinit.
  unfold _init_buffers in Hinit. inv_bind Hinit.
  injection Hinit as <-. cbn. repeat split; reflexivity.
Qed.

End Construction.

(** ** [reset] and [get_observations] *)

Lemma reset_effect (self : Env) (g : Rng) :
  (3 <= num_commands self)%nat ->
  ~ (Cfg.episode_length_s (env_cfg self) == 0)%Q ->
  exists self' g',
    reset self g = Ok (self', g', (obs_buf self, None))
    /\ obs_buf self' = obs_buf self
    /\ reset_fields (seq 0 (num_envs self))
         (with_reset_buf ((fun _ => true) <$> reset_buf self) self) self'
    /\ resampled (seq 0 (num_envs self))
         (with_reset_buf ((fun _ => true) <$> reset_buf self) self) g
         (commands self') g'.
Proof.
  intros HC Hels. unfold reset.
  set (s0 := with_reset_buf ((fun _ => true) <$> reset_buf self) self).
  destruct (reset_idx_effect (seq 0 (num_envs s0)) s0 g) as (self' & g' & Hres & Hrf & Hcmd).
  - apply seq_index_set.
  - exact HC.
  - exact Hels.
  - rewrite Hres. cbn [mbind result_bind mret result_ret].
    exists self', g'. rewrite (rf_obs_buf _ _ _ Hrf).
    split; [reflexivity|]. split; [reflexivity|]. split; [exact Hrf | exact Hcmd].
Qed.

Section Observations.

Context `{Externals}.

(** C9.  [reset] returns the stored observation buffer, not one computed
    from the reset state, with [None] beside it: right after construction
    that is the all-zero buffer, after a [step] it is the observation that
    step assembled and returned.  [get_observations] returns the same
    buffer, and puts it in the extras it returns. *)
Theorem reset_returns_stored_observation :
  (forall n ec oc rc cc e g,
     __init__ n ec oc rc cc = Ok e ->
     (3 <= Cfg.num_commands cc)%nat ->
     ~ (Cfg.episode_length_s ec == 0)%Q ->
     exists e' g', reset e g = Ok (e', g', (zeros2 n (Cfg.num_obs oc), None)))
  /\ (forall (self : Env) (g : Rng),
        (3 <= num_commands self)%nat ->
        ~ (Cfg.episode_length_s (env_cfg self) == 0)%Q ->
        exists self' g',
          reset self g = Ok (self', g', (obs_buf self, None))
          /\ obs_buf self' = obs_buf self)
  /\ (forall actions_in sim self g,
        wf_env self -> wf_sim self sim ->
        exists self1 g1 obs rew done ex,
          step actions_in sim self g = Ok (self1, g1, (obs, rew, done, ex))
          /\ (exists self2 g2, reset self1 g1 = Ok (self2, g2, (obs, None)))
          /\ (exists self2 ex2,
                get_observations self1 = (self2, (obs, ex2))
                /\ observations_critic ex2 = Some obs))
  /\ (forall self : Env,
        exists self' ex,
          get_observations self = (self', (obs_buf self, ex))
          /\ observations_critic ex = Some (obs_buf self)
          /\ episode ex = episode (extras self)
          /\ obs_buf self' = obs_buf self).
Proof.
  split; [|split; [|split]].
  - intros n ec oc rc cc e g Hinit HC Hels.
    destruct (init_buffers n ec oc rc cc e Hinit)
      as (_ & _ & _ & HC' & Hec & _ & _ & _ & Hobs & _).
    destruct (reset_effect e g) as (e' & g' & Hres & _).
    + rewrite HC'. exact HC.
    + rewrite Hec. exact Hels.
    + exists e', g'. rewrite Hres, Hobs. reflexivity.
  - intros self g HC Hels.
    destruct (reset_effect self g HC Hels) as (self' & g' & Hres & Hobs & _).
    eauto.
  - intros actions_in sim self g Hwf Hsim.
    destruct (step_runs actions_in sim self g Hwf Hsim)
      as (m0 & idx & cmds & g1 & euler & m3 & obs & self1 & g' & Ht).
    pose proof (step_trace_obs_buf _ _ _ _ _ _ _ _ _ _ _ _ _ Ht) as Hobs.
    destruct (step_trace_attrs _ _ _ _ _ _ _ _ _ _ _ _ _ Ht) as (Hattrs & _ & _).
    exists self1, g', obs, (rew_buf self1), (reset_buf self1), (extras self1).
    split; [rewrite <- Hobs; apply (st_step _ _ _ _ _ _ _ _ _ _ _ _ _ Ht)|].
    split.
    + destruct (reset_effect self1 g') as (self2 & g2 & Hres & _).
      * rewrite Hattrs, (wf_num_commands _ Hwf). lia.
      * rewrite Hattrs. apply (wf_episode_length_s _ Hwf).
      * exists self2, g2. rewrite Hres, Hobs. reflexivity.
    + unfold get_observations. rewrite Hobs. eexists _, _. split; reflexivity.
  - intros self. unfold get_observations. eexists _, _.
    split; [reflexivity|]. repeat split.
Qed.

End Observations.

Lemma reset_returns_stored_observation_witness :
  (exists e' g', reset demo_env demo_rng = Ok (e', g', (zeros2 2 27, None)))
  /\ (exists self1 g1 obs rew done ex,
        @step demo_externals demo_actions (demo_sim 0 (-1)) demo_env demo_rng
        = Ok (self1, g1, (obs, rew, done, ex))
        /\ exists self2 g2, reset self1 g1 = Ok (self2, g2, (obs, None))).
Proof.
  destruct (reset_returns_stored_observation (H := demo_externals))
    as (Hinit & _ & Hstep & _).
  split.
  - apply (Hinit 2%nat demo_env_cfg demo_obs_cfg demo_reward_cfg demo_command_cfg).
    + reflexivity.
    + cbn. lia.
    + discriminate.
  - destruct (Hstep demo_actions (demo_sim 0 (-1)) demo_env demo_rng demo_env_wf
                (demo_sim_wf demo_env 0 (-1) eq_refl eq_refl))
      as (self1 & g1 & obs & rew & done & ex & Hs & Hr & _).
    exists self1, g1, obs, rew, done, ex. split; [exact Hs | exact Hr].
Defined.
(** ** Termination *)

(** The division of doubles departs from the exact quotient where the
    rounding crosses an integer: 1.11 / 0.01 is just above 111,
    0.07 / 0.01 just above 7, 0.29 / 0.01 just below 29. *)
Lemma double_div_rounds :
  Qceiling (double_div 1.11 0.01) = 112%Z
  /\ Qceiling (double_div 0.07 0.01) = 8%Z
  /\ py_int (double_div 0.29 0.01) = 28%Z
  /\ Qceiling (double_div 20 0.01) = 2000%Z
  /\ py_int (double_div 4 0.01) = 400%Z.
Proof. repeat split; vm_compute; reflexivity. Qed.

Lemma brief_env_wf : @wf_env demo_externals brief_env7.
Proof. wf_by_computation. Qed.

Section Termination.

Context `{Externals}.

(** C1.  The done flag [step] returns for row i is true exactly when the
    row's step counter, after this tick's increment, exceeds the stored
    [max_episode_length], or the absolute pitch exceeds its threshold, or
    the absolute roll exceeds its threshold.  The stored length is the one
    [__init__] computed: ceil(episode_length_s / dt), with dt = 0.01 and
    the quotient as Python takes it on doubles. *)
Theorem step_done_iff (actions_in : list (list Q)) (sim : SimOut) (self : Env) (g : Rng) :
  wf_env self -> wf_sim self sim ->
  (exists self' g' obs rew done ex,
     step actions_in sim self g = Ok (self', g', (obs, rew, done, ex))
     /\ length done = num_envs self
     /\ max_episode_length self' = max_episode_length self
     /\ forall i count q,
          episode_length_buf self !! i = Some count ->
          robot_quat sim !! i = Some q ->
          exists b, done !! i = Some b
            /\ (b = true <->
                (max_episode_length self < wrap_int32 (count + 1))%Z
                \/ (Cfg.termination_if_pitch_greater_than (env_cfg self)
                    < Qabs (vy (quat_to_xyz
                                  (transform_quat_by_quat (inv_base_init_quat self) q))))%Q
                \/ (Cfg.termination_if_roll_greater_than (env_cfg self)
                    < Qabs (vx (quat_to_xyz
                                  (transform_quat_by_quat (inv_base_init_quat self) q))))%Q)
            /\ (b = true <->
                termination_fires (env_cfg self) (dt self) (wrap_int32 (count + 1))
                  (vx (quat_to_xyz (transform_quat_by_quat (inv_base_init_quat self) q)))
                  (vy (quat_to_xyz (transform_quat_by_quat (inv_base_init_quat self) q)))))
  /\ (forall n ec oc rc cc e,
        __init__ n ec oc rc cc = Ok e ->
        dt e = 0.01%Q
        /\ max_episode_length e
           = Qceiling (float_div (Cfg.episode_length_s ec) 0.01)).
Proof.
  intros Hwf Hsim. split.
  2: { intros n ec oc rc cc e Hinit.
       destruct (init_buffers n ec oc rc cc e Hinit)
         as (_ & _ & _ & _ & _ & _ & Hdt & Hmax & _).
       split; [exact Hdt | exact Hmax]. }
  destruct (step_runs actions_in sim self g Hwf Hsim)
    as (m0 & idx & cmds & g1 & euler & m3 & obs & self' & g' & Ht).
  pose proof (step_trace_reset_buf _ _ _ _ _ _ _ _ _ _ _ _ _ Ht) as Hdone.
  destruct (step_trace_attrs _ _ _ _ _ _ _ _ _ _ _ _ _ Ht) as (Hattrs' & _ & _).
  pose proof (st_fields _ _ _ _ _ _ _ _ _ _ _ _ _ Ht) as Hf.
  pose proof (st_euler _ _ _ _ _ _ _ _ _ _ _ _ _ Ht) as Heuler.
  rewrite (af_base_euler _ _ _ _ Hf) in Heuler. injection Heuler as <-.
  rewrite (af_episode_length_buf _ _ _ _ Hf) in Hdone.
  exists self', g', (obs_buf self'), (rew_buf self'), (reset_buf self'), (extras self').
  split; [apply (st_step _ _ _ _ _ _ _ _ _ _ _ _ _ Ht)|].
  rewrite Hdone. split.
  { apply done_flags_length; rewrite length_fmap;
      [apply (wf_episode_length_buf _ Hwf) | apply (wf_robot_quat _ _ Hsim)]. }
  split; [rewrite Hattrs'; reflexivity|].
  intros i count q Hcount Hq.
  unfold done_flags.
  rewrite !lookup_zip_with, !list_lookup_fmap, Hcount, Hq.
  cbn [fmap option_fmap option_map mbind option_bind].
  eexists. split; [reflexivity|].
  rewrite (af_attrs _ _ _ _ Hf).
  unfold termination_fires. rewrite <- (wf_max_episode_length _ Hwf).
  rewrite !orb_true_iff, Z.ltb_lt, !Qltb_lt. tauto.
Qed.

End Termination.

Lemma step_done_iff_witness :
  (exists self' g' obs rew ex,
     @step demo_externals demo_actions (demo_sim 45 0.3) demo_env1 demo_rng
     = Ok (self', g', (obs, rew, [true; false], ex)))
  /\ Cfg.episode_length_s (env_cfg brief_env7) = 0.07%Q
  /\ max_episode_length brief_env7 = 8%Z
  /\ episode_length_buf brief_env7 = [7; 7]%Z
  /\ (exists self' g' obs rew ex,
        @step demo_externals demo_actions (demo_sim 0 0) brief_env7 demo_rng
        = Ok (self', g', (obs, rew, [false; false], ex))).
Proof.
  split; [|split; [reflexivity|split; [reflexivity|split; [reflexivity|]]]].
  - destruct (step_done_iff (H := demo_externals) demo_actions (demo_sim 45 0.3)
                demo_env1 demo_rng demo_env1_wf
                (demo_sim_wf demo_env1 45 0.3 eq_refl eq_refl))
      as ((self' & g' & obs & rew & done & ex & Hstep & Hlen & _ & Hrows) & _).
    destruct done as [|b0 [|b1 [|? ?]]]; try discriminate Hlen.
    destruct (Hrows 0%nat 1%Z (1, 0, 45, 0)%Q eq_refl eq_refl) as (b & Hb & Hiff0 & _).
    injection Hb as <-.
    destruct (Hrows 1%nat 1%Z (1, 0, 0, 0)%Q eq_refl eq_refl) as (b & Hb & Hiff1 & _).
    injection Hb as <-.
    assert (E0 : b0 = true).
    { apply Hiff0. right. left. reflexivity. }
    assert (E1 : b1 = false).
    { destruct b1; [|reflexivity]. exfalso.
      destruct Hiff1 as [Hfire _]. destruct (Hfire eq_refl) as [Hc|[Hc|Hc]];
        vm_compute in Hc; discriminate Hc. }
    subst b0 b1. exists self', g', obs, rew, ex. exact Hstep.
  - destruct (step_done_iff (H := demo_externals) demo_actions (demo_sim 0 0)
                brief_env7 demo_rng brief_env_wf
                (demo_sim_wf brief_env7 0 0 eq_refl eq_refl))
      as ((self' & g' & obs & rew & done & ex & Hstep & Hlen & _ & Hrows) & _).
    destruct done as [|b0 [|b1 [|? ?]]]; try discriminate Hlen.
    destruct (Hrows 0%nat 7%Z (1, 0, 0, 0)%Q eq_refl eq_refl) as (b & Hb & Hiff0 & _).
    injection Hb as <-.
    destruct (Hrows 1%nat 7%Z (1, 0, 0, 0)%Q eq_refl eq_refl) as (b & Hb & Hiff1 & _).
    injection Hb as <-.
    assert (E0 : b0 = false).
    { destruct b0; [|reflexivity]. exfalso.
      destruct Hiff0 as [Hfire _]. destruct (Hfire eq_refl) as [Hc|[Hc|Hc]];
        vm_compute in Hc; discriminate Hc. }
    assert (E1 : b1 = false).
    { destruct b1; [|reflexivity]. exfalso.
      destruct Hiff1 as [Hfire _]. destruct (Hfire eq_refl) as [Hc|[Hc|Hc]];
        vm_compute in Hc; discriminate Hc. }
    subst b0 b1. exists self', g', obs, rew, ex. exact Hstep.
Defined.

(** ** The observation *)

Section Layout.

Context `{Externals}.





End Layout.

(** ** The concrete robot: witnesses and departures *)

Lemma demo_actions_shape : has_shape 2 6 demo_actions.
Proof. split; [reflexivity | repeat constructor]. Qed.




(** C4: with a reward configuration that does not list the two contact
    terms, the case the comment in [__init__] assumes, construction returns
    and registers both terms with a scale and a method but no episode
    accumulator; the first [step] raises [KeyError] at
    [self.episode_sums["foot_contact_penalty"]]. *)
Theorem step_raises_without_contact_accumulators :
  @__init__ demo_externals 2 demo_env_cfg demo_obs_cfg plain_reward_cfg
            demo_command_cfg = Ok plain_env
  /\ dict_get (reward_functions plain_env) "foot_contact_penalty"
     = Some foot_contact_penalty
  /\ dict_get (episode_sums plain_env) "foot_contact_penalty" = None
  /\ @step demo_externals demo_actions (demo_sim 0 0) plain_env demo_rng
     = Raise (KeyError "foot_contact_penalty").
Proof. repeat split; vm_compute; reflexivity. Qed.

Lemma reset_idx_rows_witness :
  exists self' g',
    reset_idx [0%nat] demo_env3 demo_rng = Ok (self', g')
    /\ hip_angle_history self' = hip_angle_history demo_env3
    /\ episode_length_buf self' !! 0%nat = Some 0%Z
    /\ episode_length_buf self' !! 1%nat = Some 3%Z.
Proof.
  assert (Hids : index_set 2 [0%nat]).
  { split; [apply NoDup_singleton | repeat constructor]. }
  destruct (reset_idx_rows [0%nat] demo_env3 demo_rng demo_env3_wf Hids
              demo_unit_draws demo_ordered_ranges)
    as (self' & g' & Hres & Hhist & Hin & Hout).
  exists self', g'. split; [exact Hres|]. split; [exact Hhist|]. split.
  - apply (Hin 0%nat). apply list_elem_of_singleton. reflexivity.
  - destruct (Hout 1%nat) as (_ & _ & _ & _ & _ & _ & _ & _ & _ & Helb & _).
    + intros Hx. apply list_elem_of_singleton in Hx. discriminate Hx.
    + rewrite Helb. reflexivity.
Defined.

(** C2 as stated fails: a tick in which row 0 pitches past the threshold
    marks the row done and resets it (its step counter is 0 afterwards),
    and the row's hip-angle history still holds the samples -1 and 0.3
    written by the last two ticks. *)
Lemma reset_keeps_hip_history :
  exists self' g' obs rew ex,
    @step demo_externals demo_actions (demo_sim 45 0.3) demo_env1 demo_rng
    = Ok (self', g', (obs, rew, [true; false], ex))
    /\ episode_length_buf self' !! 0%nat = Some 0%Z
    /\ hip_angle_history self' !! 0%nat
       = Some ([-1; 0.3; 0; 0; 0; 0; 0; 0; 0; 0]%Q, zeros 10)
    /\ hip_angle_history self' !! 0%nat <> Some (zeros 10, zeros 10).
Proof.
  match eval vm_compute in
        (@step demo_externals demo_actions (demo_sim 45 0.3) demo_env1 demo_rng) with
  | Ok (?s, ?g, (?o, ?r, ?d, ?e)) => exists s, g, o, r, e
  end.
  split; [vm_compute; reflexivity|]. split; [reflexivity|].
  split; [reflexivity | discriminate].
Qed.


(** * Construction, invariants and failure behaviour *)

(** ** Dictionaries and list search *)

Lemma dict_get_keys {V} (d : dict V) (k : string) :
  is_Some (dict_get d k) <-> k ∈ dict_keys d.
Proof.
  unfold dict_keys. induction d as [|[k' v] d IH]; simpl.
  - split; [intros [? ?]; discriminate | intros Hin; inversion Hin].
  - destruct (String.eqb_spec k' k) as [->|Hne].
    + split; [intros _; left | eauto].
    + rewrite IH. split; [intros Hin; right; exact Hin|].
      intros Hin. apply elem_of_cons in Hin as [->|Hin]; [contradiction | exact Hin].
Qed.

Lemma dict_get_set_iff {V} (d : dict V) (k k' : string) (v : V) :
  is_Some (dict_get (dict_set d k v) k') <-> k = k' \/ is_Some (dict_get d k').
Proof.
  destruct (decide (k = k')) as [->|Hne].
  - rewrite dict_get_set_eq. split; eauto.
  - rewrite dict_get_set_ne by exact Hne. split; [eauto|].
    intros [?|?]; [contradiction | assumption].
Qed.

Lemma dict_get_elem {V} (d : dict V) (k : string) (v : V) :
  NoDup (dict_keys d) -> (k, v) ∈ d -> dict_get d k = Some v.
Proof.
  unfold dict_keys. induction d as [|[k' v'] d IH]; simpl; intros Hnd Hin.
  - inversion Hin.
  - apply NoDup_cons in Hnd as [Hnotin Hnd].
    apply elem_of_cons in Hin as [Heq|Hin].
    + injection Heq as <- <-. rewrite String.eqb_refl. reflexivity.
    + destruct (String.eqb_spec k' k) as [->|Hne]; [|apply IH; assumption].
      exfalso. apply Hnotin. apply list_elem_of_fmap. exists (k, v). auto.
Qed.

Lemma list_index_found (l : list string) (x : string) :
  x ∈ l -> exists i, list_index l x = Ok i /\ l !! i = Some x.
Proof.
  intros Hin. unfold list_index.
  destruct (list_find (fun y => y = x) l) as [[i y]|] eqn:E.
  - apply list_find_Some in E as (Hi & -> & _). eauto.
  - apply list_find_None in E. rewrite Forall_forall in E.
    exfalso. apply (E x Hin). reflexivity.
Qed.

Lemma list_index_missing (l : list string) (x : string) :
  x ∉ l -> list_index l x = Raise (ValueError x).
Proof.
  intros Hout. unfold list_index.
  destruct (list_find (fun y => y = x) l) as [[i y]|] eqn:E; [|reflexivity].
  apply list_find_Some in E as (Hi & -> & _).
  exfalso. apply Hout. eapply list_elem_of_lookup_2, Hi.
Qed.

Lemma list_index_lt (l : list string) (x : string) (i : nat) :
  list_index l x = Ok i -> (i < length l)%nat.
Proof.
  unfold list_index.
  destruct (list_find (fun y => y = x) l) as [[j y]|] eqn:E; [|discriminate].
  intros [= <-]. apply list_find_Some in E as (Hi & _). eapply lookup_lt_Some, Hi.
Qed.

Lemma mapM_ok_length {A B} (f : A -> result B) (l : list A) (l' : list B) :
  mapM f l = Ok l' -> length l' = length l.
Proof.
  revert l'. induction l as [|x l IH]; intros l' Hm; cbn in Hm.
  - injection Hm as <-. reflexivity.
  - destruct (f x); cbn in Hm; [|discriminate].
    destruct (mapM f l); cbn in Hm; [|discriminate].
    injection Hm as <-. cbn. f_equal. apply IH. reflexivity.
Qed.

Lemma mapM_dict_item_ok {V} (d : dict V) (keys : list string) :
  Forall (fun k => is_Some (dict_get d k)) keys ->
  exists vs, mapM (dict_item d) keys = Ok vs.
Proof.
  induction 1 as [|k keys [v Hk] _ [vs IH]]; cbn.
  - eauto.
  - rewrite (dict_item_Some _ _ _ Hk). cbn. rewrite IH. cbn. eauto.
Qed.

(** The first key without an entry is the one [KeyError] names. *)
Lemma mapM_dict_item_missing {V} (d : dict V) (before after : list string) (k : string) :
  Forall (fun k => is_Some (dict_get d k)) before ->
  dict_get d k = None ->
  mapM (dict_item d) (before ++ k :: after) = Raise (KeyError k).
Proof.
  intros Hb Hk. induction Hb as [|k0 before [v Hk0] _ IH]; cbn.
  - unfold dict_item. rewrite Hk. reflexivity.
  - rewrite (dict_item_Some _ _ _ Hk0). cbn.
    change (mapM (dict_item d) (before ++ k :: after)
              ≫= (fun ks => mret (v :: ks)) = Raise (KeyError k)).
    rewrite IH. reflexivity.
Qed.

(** ** The registration loop of [__init__] *)

Lemma register_reward_known (dt : Q) (n : nat)
    (st : dict Q * dict reward_term * dict (list Q)) (name : string) (scale : Q)
    (fn : reward_term) :
  dict_get reward_methods name = Some fn ->
  register_reward dt n st (name, scale)
  = Ok (dict_set st.1.1 name (scale * dt)%Q, dict_set st.1.2 name fn,
        dict_set st.2 name (zeros n)).
Proof.
  intros Hfn. unfold register_reward, getattr_reward. cbn [fst snd].
  rewrite Hfn. reflexivity.
Qed.

Lemma register_reward_unknown (dt : Q) (n : nat)
    (st : dict Q * dict reward_term * dict (list Q)) (name : string) (scale : Q) :
  dict_get reward_methods name = None ->
  register_reward dt n st (name, scale) = Raise (AttributeError ("_reward_" ++ name)).
Proof.
  intros Hfn. unfold register_reward, getattr_reward. cbn [fst snd].
  rewrite Hfn. reflexivity.
Qed.

Lemma register_loop_ok (dt : Q) (n : nat) (items : dict Q)
    (st : dict Q * dict reward_term * dict (list Q)) :
  Forall (fun name => is_Some (dict_get reward_methods name)) (dict_keys items) ->
  exists st', for_each (register_reward dt n) items st = Ok st'.
Proof.
  revert st. induction items as [|[name scale] items IH]; intros st Hk; cbn [for_each].
  - eauto.
  - unfold dict_keys in Hk. cbn [fmap list_fmap fst] in Hk.
    apply Forall_cons in Hk as [[fn Hfn] Hk].
    rewrite (register_reward_known _ _ _ _ _ _ Hfn).
    cbn [mbind result_bind]. apply IH, Hk.
Qed.

(** Names, in the three dictionaries, after the loop. *)
Lemma register_loop_keys (dt : Q) (n : nat) (items : dict Q)
    (scales scales' : dict Q) (fns fns' : dict reward_term)
    (sums sums' : dict (list Q)) :
  for_each (register_reward dt n) items (scales, fns, sums) = Ok (scales', fns', sums') ->
  (forall k, is_Some (dict_get scales' k)
             <-> k ∈ dict_keys items \/ is_Some (dict_get scales k))
  /\ (forall k, is_Some (dict_get fns' k)
                <-> k ∈ dict_keys items \/ is_Some (dict_get fns k))
  /\ (forall k, is_Some (dict_get sums' k)
                <-> k ∈ dict_keys items \/ is_Some (dict_get sums k))
  /\ (forall k fn, dict_get fns' k = Some fn ->
                   dict_get fns k = Some fn \/ dict_get reward_methods k = Some fn)
  /\ (Forall (fun kv => length kv.2 = n) sums -> Forall (fun kv => length kv.2 = n) sums').
Proof.
  revert scales fns sums.
  induction items as [|[name scale] items IH]; intros scales fns sums Hloop;
    cbn [for_each] in Hloop.
  - injection Hloop as <- <- <-. unfold dict_keys. cbn.
    repeat split; try (intros [Hin|?]; [inversion Hin | assumption]); auto.
  - destruct (dict_get reward_methods name) as [fn0|] eqn:Hfn0.
    2:{ rewrite (register_reward_unknown _ _ _ _ _ Hfn0) in Hloop. discriminate Hloop. }
    rewrite (register_reward_known _ _ _ _ _ _ Hfn0) in Hloop.
    cbn [mbind result_bind fst snd] in Hloop.
    apply IH in Hloop as (Hs & Hf & Ha & Hm & Hl).
    unfold dict_keys. cbn [fmap list_fmap fst].
    split; [|split; [|split; [|split]]].
    + intros k. rewrite Hs, dict_get_set_iff, elem_of_cons. fold (dict_keys items). split.
      * intros [?|[->|?]]; auto.
      * intros [[->|?]|?]; auto.
    + intros k. rewrite Hf, dict_get_set_iff, elem_of_cons. fold (dict_keys items). split.
      * intros [?|[->|?]]; auto.
      * intros [[->|?]|?]; auto.
    + intros k. rewrite Ha, dict_get_set_iff, elem_of_cons. fold (dict_keys items). split.
      * intros [?|[->|?]]; auto.
      * intros [[->|?]|?]; auto.
    + intros k fn Hsome. destruct (Hm k fn Hsome) as [Hk|Hk]; [|right; exact Hk].
      destruct (decide (name = k)) as [->|Hne].
      * rewrite dict_get_set_eq in Hk. injection Hk as <-. right. exact Hfn0.
      * rewrite dict_get_set_ne in Hk by exact Hne. left. exact Hk.
    + intros Hall. apply Hl. apply dict_set_Forall; [exact Hall|].
      intros k'. cbn. unfold zeros. apply length_replicate.
Qed.

(** ** Construction establishes the invariant *)

Section InitInvariant.

Context `{Externals}.

Lemma has_shape_zeros2 (n k : nat) : has_shape n k (zeros2 n k).
Proof.
  split; [apply length_replicate|].
  apply Forall_forall. intros row Hrow. apply elem_of_replicate in Hrow as [-> _].
  apply length_replicate.
Qed.

(** X1.  For a configuration that names the six joints the code looks up,
    gives every joint a default angle, uses only names of existing reward
    methods and lists the two contact terms, and whose sizes agree
    (num_actions = number of joints, num_commands = 3, a resampling period
    of at least one tick, a non-zero episode length, the entries [step]
    reads without a default), [__init__] returns and the state it returns
    satisfies the invariant [step] needs. *)
Theorem init_establishes_invariant (n : nat) (ec : Cfg.Env) (oc : Cfg.Obs)
    (rc : Cfg.Reward) (cc : Cfg.Command) :
  config_ready ec oc rc cc ->
  exists e, __init__ n ec oc rc cc = Ok e /\ wf_env e.
Proof.
  intros Hc. pose proof (cr_joints _ _ _ _ Hc) as Hj.
  unfold required_joints in Hj.
  repeat match type of Hj with
         | Forall _ (_ :: _) =>
             let Hx := fresh "Hx" in apply Forall_cons in Hj as [Hx Hj];
             apply list_index_found in Hx as (? & Hx & ?)
         end.
  unfold __init__.
  repeat match goal with
         | Hx : list_index _ ?s = Ok _ |- context [list_index _ ?s] => rewrite Hx
         end.
  cbn [mbind result_bind].
  destruct (register_loop_ok 0.01 n (configured_scales rc)
              (configured_scales rc, [], []) (cr_reward_names _ _ _ _ Hc))
    as [[[scales fns] sums] Hloop].
  unfold configured_scales in Hloop. rewrite Hloop. cbn [mbind result_bind].
  unfold _init_buffers. cbn [env_cfg].
  destruct (mapM_dict_item_ok _ _ (cr_default_angles _ _ _ _ Hc)) as [ddp Hddp].
  rewrite Hddp. cbn [mbind result_bind mret result_ret].
  eexists. split; [reflexivity|].
  apply register_loop_keys in Hloop as (Hs & Hf & Ha & Hm & Hl).
  destruct (cr_contact_terms _ _ _ _ Hc) as [Hp Hw].
  apply dict_get_keys in Hp, Hw.
  constructor; cbn [attrs dt max_episode_length env_cfg num_commands num_actions
                    hip_aa_indices hip_fe_indices knee_fe_indices reward_cfg
                    obs_scales reward_functions reward_scales episode_sums
                    num_envs episode_length_buf rew_buf reset_buf commands
                    commands_scale default_dof_pos global_gravity
                    hip_angle_history prev_contact base_pos base_quat
                    base_lin_vel base_ang_vel dof_pos dof_vel last_actions
                    last_dof_vel current_ankle_heights].
  all: try (apply Hc).
  all: try (apply has_shape_zeros2).
  all: try (apply length_replicate).
  all: try reflexivity.
  - split; cbn [fst snd]; rewrite (cr_num_actions _ _ _ _ Hc);
      eapply list_index_lt; eassumption.
  - split; cbn [fst snd]; rewrite (cr_num_actions _ _ _ _ Hc);
      eapply list_index_lt; eassumption.
  - split; cbn [fst snd]; rewrite (cr_num_actions _ _ _ _ Hc);
      eapply list_index_lt; eassumption.
  - apply Forall_forall. intros name Hin. apply dict_get_keys in Hin.
    rewrite !dict_get_set_iff in Hin. rewrite !dict_get_set_iff, Hs, Ha, Hf in *.
    unfold configured_scales in Hp, Hw.
    destruct Hin as [<-|[<-|[Hin|[? Hin]]]]; auto; discriminate Hin.
  - apply Hl. constructor.
  - rewrite (cr_num_commands _ _ _ _ Hc). apply has_shape_zeros2.
  - rewrite (mapM_ok_length _ _ _ Hddp). symmetry. apply (cr_num_actions _ _ _ _ Hc).
  - split; [apply length_replicate|].
    apply Forall_forall. intros h Hh. apply elem_of_replicate in Hh as [-> _].
    split; apply length_replicate.
  - intros h Hh. discriminate Hh.
Qed.

End InitInvariant.

(** ** What [__init__] registers *)

Lemma register_loop_scales (dt : Q) (n : nat) (items : dict Q)
    (scales scales' : dict Q) (fns fns' : dict reward_term)
    (sums sums' : dict (list Q)) :
  NoDup (dict_keys items) ->
  for_each (register_reward dt n) items (scales, fns, sums) = Ok (scales', fns', sums') ->
  forall k,
    dict_get scales' k
    = if decide (k ∈ dict_keys items)
      then (fun s => (s * dt)%Q) <$> dict_get items k
      else dict_get scales k.
Proof.
  revert scales fns sums.
  induction items as [|[name scale] items IH]; intros scales fns sums Hnd Hloop k;
    cbn [for_each] in Hloop.
  - injection Hloop as <- <- <-. reflexivity.
  - unfold dict_keys in Hnd. cbn [fmap list_fmap fst] in Hnd.
    apply NoDup_cons in Hnd as [Hnotin Hnd].
    destruct (dict_get reward_methods name) as [fn0|] eqn:Hfn0.
    2:{ rewrite (register_reward_unknown _ _ _ _ _ Hfn0) in Hloop. discriminate Hloop. }
    rewrite (register_reward_known _ _ _ _ _ _ Hfn0) in Hloop.
    cbn [mbind result_bind fst snd] in Hloop.
    rewrite (IH _ _ _ Hnd Hloop k).
    unfold dict_keys. cbn [fmap list_fmap fst dict_get].
    destruct (decide (k ∈ items.*1)) as [Hin|Hout];
      destruct (decide (k ∈ name :: items.*1)) as [Hin'|Hout'];
      destruct (String.eqb_spec name k) as [->|Hne];
      try reflexivity; try contradiction;
      first [ exfalso; apply Hout'; right; exact Hin
            | exfalso; apply Hout'; left
            | cbn [fmap option_fmap option_map]; apply dict_get_set_eq
            | exfalso; apply elem_of_cons in Hin' as [->|Hin']; contradiction
            | apply dict_get_set_ne, Hne ].
Qed.

Section Registry.

Context `{Externals}.

(** The parts of a successful [__init__]. *)
Lemma init_inversion (n : nat) (ec : Cfg.Env) (oc : Cfg.Obs) (rc : Cfg.Reward)
    (cc : Cfg.Command) (e : Env) :
  __init__ n ec oc rc cc = Ok e ->
  exists scales fns sums ddp,
    for_each (register_reward 0.01 n) (configured_scales rc)
      (configured_scales rc, [], []) = Ok (scales, fns, sums)
    /\ mapM (dict_item (Cfg.default_joint_angles ec)) (Cfg.joint_names ec) = Ok ddp
    /\ Forall (fun j => j ∈ Cfg.joint_names ec) required_joints
    /\ reward_scales e
       = dict_set (dict_set scales "foot_contact_penalty" (-1.0 * 0.01)%Q)
           "foot_contact_switch" (0.5 * 0.01)%Q
    /\ reward_functions e
       = dict_set (dict_set fns "foot_contact_penalty" foot_contact_penalty)
           "foot_contact_switch" foot_contact_switch
    /\ episode_sums e = sums
    /\ default_dof_pos e = ddp
    /\ simulate_action_latency e = default true (Cfg.simulate_action_latency ec)
    /\ last_actions e = zeros2 n (Cfg.num_actions ec)
    /\ sim_calls e
       = [ set_dofs_kp (replicate (Cfg.num_actions ec) (Cfg.kp ec))
             (dof_start <$> Cfg.joint_names ec);
           set_dofs_kv (replicate (Cfg.num_actions ec) (Cfg.kd ec))
             (dof_start <$> Cfg.joint_names ec);
           set_dofs_force_range
             (replicate (Cfg.num_actions ec)
                (- default 100 (Cfg.clip_actions ec) * 1)%Q)
             (replicate (Cfg.num_actions ec)
                (default 100 (Cfg.clip_actions ec) * 1)%Q)
             (dof_start <$> Cfg.joint_names ec) ].
Proof.
  intros Hinit. unfold __init__ in Hinit.
  assert (Hjoint : forall x i, list_index (Cfg.joint_names ec) x = Ok i ->
                               x ∈ Cfg.joint_names ec).
  { intros x i Hx. destruct (decide (x ∈ Cfg.joint_names ec)) as [Hin|Hout];
      [exact Hin|]. rewrite (list_index_missing _ _ Hout) in Hx. discriminate Hx. }
  inv_bind Hinit.
  unfold _init_buffers in Hinit. cbn [env_cfg] in Hinit. inv_bind Hinit.
  injection Hinit as <-.
  eexists _, _, _, _. split; [eassumption|]. split; [reflexivity|].
  split; [|cbn; repeat split; reflexivity].
  unfold required_joints. repeat (constructor; [eapply Hjoint; eassumption|]).
  constructor.
Qed.

(** X2.  Whatever the configuration says, a constructed environment has
    both contact terms registered with the scales -1.0 * dt and 0.5 * dt;
    every other term has its configured scale times dt; each registered
    name is bound to the method of that name; and there is an episode
    accumulator exactly for the names of the configuration. *)
Theorem init_registry (n : nat) (ec : Cfg.Env) (oc : Cfg.Obs) (rc : Cfg.Reward)
    (cc : Cfg.Command) (e : Env) :
  __init__ n ec oc rc cc = Ok e ->
  NoDup (dict_keys (configured_scales rc)) ->
  dict_get (reward_scales e) "foot_contact_penalty" = Some (-1.0 * 0.01)%Q
  /\ dict_get (reward_scales e) "foot_contact_switch" = Some (0.5 * 0.01)%Q
  /\ (forall k s, k <> "foot_contact_penalty"%string -> k <> "foot_contact_switch"%string ->
        dict_get (configured_scales rc) k = Some s ->
        dict_get (reward_scales e) k = Some (s * 0.01)%Q)
  /\ (forall k, is_Some (dict_get (reward_functions e) k)
                <-> k = "foot_contact_penalty"%string \/ k = "foot_contact_switch"%string
                    \/ is_Some (dict_get (configured_scales rc) k))
  /\ (forall k fn, dict_get (reward_functions e) k = Some fn ->
                   dict_get reward_methods k = Some fn)
  /\ (forall k, is_Some (dict_get (episode_sums e) k)
                <-> is_Some (dict_get (configured_scales rc) k)).
Proof.
  intros Hinit Hnd.
  destruct (init_inversion _ _ _ _ _ _ Hinit)
    as (scales & fns & sums & ddp & Hloop & _ & _ & -> & -> & -> & _).
  pose proof (register_loop_scales _ _ _ _ _ _ _ _ _ Hnd Hloop) as Hval.
  apply register_loop_keys in Hloop as (Hs & Hf & Ha & Hm & _).
  split; [|split; [|split; [|split; [|split]]]].
  - rewrite dict_get_set_ne by discriminate. apply dict_get_set_eq.
  - apply dict_get_set_eq.
  - intros k s Hp Hw Hk.
    rewrite !dict_get_set_ne by congruence. rewrite Hval.
    rewrite decide_True by (apply dict_get_keys; eauto).
    rewrite Hk. reflexivity.
  - intros k. rewrite !dict_get_set_iff, Hf, <- dict_get_keys. split.
    + intros [<-|[<-|[?|[? Hk]]]]; auto. discriminate Hk.
    + intros [->|[->|?]]; auto.
  - intros k fn Hk.
    destruct (decide ("foot_contact_switch"%string = k)) as [<-|Hw].
    { rewrite dict_get_set_eq in Hk. injection Hk as <-. reflexivity. }
    rewrite dict_get_set_ne in Hk by exact Hw.
    destruct (decide ("foot_contact_penalty"%string = k)) as [<-|Hp].
    { rewrite dict_get_set_eq in Hk. injection Hk as <-. reflexivity. }
    rewrite dict_get_set_ne in Hk by exact Hp.
    destruct (Hm k fn Hk) as [Hk'|Hk']; [discriminate Hk' | exact Hk'].
  - intros k. rewrite Ha, <- dict_get_keys. split.
    + intros [?|[? Hk]]; [assumption | discriminate Hk].
    + auto.
Qed.

End Registry.

(** ** How construction fails *)

Lemma register_loop_unknown (dt : Q) (n : nat) (before after : dict Q)
    (name : string) (scale : Q) (st : dict Q * dict reward_term * dict (list Q)) :
  Forall (fun k => is_Some (dict_get reward_methods k)) (dict_keys before) ->
  dict_get reward_methods name = None ->
  for_each (register_reward dt n) (before ++ (name, scale) :: after) st
  = Raise (AttributeError ("_reward_" ++ name)).
Proof.
  revert st. induction before as [|[k s] before IH]; intros st Hb Hname; cbn [app for_each].
  - rewrite (register_reward_unknown _ _ _ _ _ Hname). reflexivity.
  - unfold dict_keys in Hb. cbn [fmap list_fmap fst] in Hb.
    apply Forall_cons in Hb as [[fn Hfn] Hb].
    rewrite (register_reward_known _ _ _ _ _ _ Hfn). cbn [mbind result_bind].
    apply IH; assumption.
Qed.

Section InitErrors.

Context `{Externals}.

Lemma init_joints_ok (n : nat) (ec : Cfg.Env) (oc : Cfg.Obs) (rc : Cfg.Reward)
    (cc : Cfg.Command) :
  Forall (fun j => j ∈ Cfg.joint_names ec) required_joints ->
  exists aa fe kn,
    __init__ n ec oc rc cc
    = '(scales, fns, sums) ← for_each (register_reward 0.01 n) (configured_scales rc)
                                      (configured_scales rc, [], []);
      _init_buffers
        {| num_envs := n;
           num_obs := Cfg.num_obs oc;
           num_actions := Cfg.num_actions ec;
           num_commands := Cfg.num_commands cc;
           simulate_action_latency := default true (Cfg.simulate_action_latency ec);
           dt := 0.01;
           max_episode_length := Qceiling (float_div (Cfg.episode_length_s ec) 0.01);
           env_cfg := ec; obs_cfg := oc; reward_cfg := rc; command_cfg := cc;
           obs_scales := default [] (Cfg.obs_scales oc);
           reward_scales :=
             dict_set (dict_set scales "foot_contact_penalty" (-1.0 * 0.01)%Q)
               "foot_contact_switch" (0.5 * 0.01)%Q;
           base_init_pos := Cfg.base_init_pos ec;
           base_init_quat := Cfg.base_init_quat ec;
           inv_base_init_quat := inv_quat (Cfg.base_init_quat ec);
           motors_dof_idx := dof_start <$> Cfg.joint_names ec;
           hip_aa_indices := aa; hip_fe_indices := fe; knee_fe_indices := kn;
           reward_functions :=
             dict_set (dict_set fns "foot_contact_penalty" foot_contact_penalty)
               "foot_contact_switch" foot_contact_switch |}
        (replicate n (zeros 10, zeros 10)) sums (replicate n (0, 0)%Q)
        [ set_dofs_kp (replicate (Cfg.num_actions ec) (Cfg.kp ec))
            (dof_start <$> Cfg.joint_names ec);
          set_dofs_kv (replicate (Cfg.num_actions ec) (Cfg.kd ec))
            (dof_start <$> Cfg.joint_names ec);
          set_dofs_force_range
            (replicate (Cfg.num_actions ec) (- default 100 (Cfg.clip_actions ec) * 1)%Q)
            (replicate (Cfg.num_actions ec) (default 100 (Cfg.clip_actions ec) * 1)%Q)
            (dof_start <$> Cfg.joint_names ec) ].
Proof.
  intros Hj. unfold required_joints in Hj.
  repeat match type of Hj with
         | Forall _ (_ :: _) =>
             let Hx := fresh "Hx" in apply Forall_cons in Hj as [Hx Hj];
             apply list_index_found in Hx as (? & Hx & ?)
         end.
  unfold __init__.
  repeat match goal with
         | Hx : list_index _ ?s = Ok _ |- context [list_index _ ?s] => rewrite Hx
         end.
  cbn [mbind result_bind]. eexists _, _, _. reflexivity.
Qed.

(** X3.  [__init__] fails on the first offending name, in this order: a
    joint name it looks up that is missing from [joint_names]
    ([ValueError]); then a reward name with no [_reward_<name>] method
    ([AttributeError]); then a joint without a default angle
    ([KeyError]). *)
Theorem init_fails_fast (n : nat) (ec : Cfg.Env) (oc : Cfg.Obs) (rc : Cfg.Reward)
    (cc : Cfg.Command) :
  (forall before j after,
     required_joints = before ++ j :: after ->
     Forall (fun x => x ∈ Cfg.joint_names ec) before ->
     j ∉ Cfg.joint_names ec ->
     __init__ n ec oc rc cc = Raise (ValueError j))
  /\ (forall before name scale after,
        Forall (fun j => j ∈ Cfg.joint_names ec) required_joints ->
        configured_scales rc = before ++ (name, scale) :: after ->
        Forall (fun k => is_Some (dict_get reward_methods k)) (dict_keys before) ->
        dict_get reward_methods name = None ->
        __init__ n ec oc rc cc = Raise (AttributeError ("_reward_" ++ name)))
  /\ (forall before j after,
        Forall (fun j => j ∈ Cfg.joint_names ec) required_joints ->
        Forall (fun k => is_Some (dict_get reward_methods k))
               (dict_keys (configured_scales rc)) ->
        Cfg.joint_names ec = before ++ j :: after ->
        Forall (fun k => is_Some (dict_get (Cfg.default_joint_angles ec) k)) before ->
        dict_get (Cfg.default_joint_angles ec) j = None ->
        __init__ n ec oc rc cc = Raise (KeyError j)).
Proof.
  split; [|split].
  - intros before j after Heq Hb Hj. unfold required_joints in Heq.
    unfold __init__.
    repeat (destruct before as [|? before];
            [ injection Heq as <- _;
              rewrite ?(list_index_missing _ _ Hj); reflexivity
            | injection Heq as <- Heq;
              apply Forall_cons in Hb as [Hx Hb];
              apply list_index_found in Hx as (? & -> & _);
              cbn [mbind result_bind] ]).
    destruct before; discriminate Heq.
  - intros before name scale after Hj Hcfg Hb Hname.
    destruct (init_joints_ok n ec oc rc cc Hj) as (aa & fe & kn & ->).
    rewrite Hcfg at 1.
    rewrite (register_loop_unknown _ _ _ _ _ _ _ Hb Hname). reflexivity.
  - intros before j after Hj Hr Hnames Hb Hnone.
    destruct (init_joints_ok n ec oc rc cc Hj) as (aa & fe & kn & ->).
    destruct (register_loop_ok 0.01 n (configured_scales rc)
                (configured_scales rc, [], []) Hr) as [[[scales fns] sums] ->].
    cbn [mbind result_bind]. unfold _init_buffers. cbn [env_cfg].
    rewrite Hnames, (mapM_dict_item_missing _ _ _ _ Hb Hnone). reflexivity.
Qed.

End InitErrors.

(** ** Shapes through the reward loop *)

Lemma col_get_length (width c : nat) (t : list (list Q)) (l : list Q) :
  col_get width c t = Ok l -> length l = length t.
Proof.
  unfold col_get. destruct (c <? width)%nat; [|discriminate].
  intros [= <-]. apply length_fmap.
Qed.

Section LoopShapes.

Context `{Externals}.

(** Every reward method returns one value per environment. *)
Lemma call_reward_length (fn : reward_term) (m m' : Env) (v : list Q) :
  tick_shapes m -> call_reward fn m = Ok (v, m') -> length v = num_envs m.
Proof.
  intros Hs Hcall.
  pose proof (ts_commands _ Hs). pose proof (ts_base_lin_vel _ Hs).
  pose proof (ts_base_ang_vel _ Hs). pose proof (ts_base_pos _ Hs).
  pose proof (ts_last_actions _ Hs). pose proof (ts_actions _ Hs).
  pose proof (ts_dof_pos _ Hs). pose proof (ts_hip_angle_history _ Hs).
  pose proof (ts_prev_contact _ Hs).
  destruct fn;
    unfold call_reward, _reward_tracking_lin_vel, _reward_tracking_ang_vel,
      _reward_lin_vel_z, _reward_action_rate, _reward_similar_to_default,
      _reward_base_height, _reward_orientation_stability, _reward_survive,
      _reward_penalize_hip_aa, _reward_penalize_hip_fe, _reward_penalize_hip_fe_diff,
      _reward_penalize_knee_fe_left, _reward_penalize_knee_fe_right,
      _reward_penalize_ankle_height, _reward_gait_regularity,
      _reward_foot_orientation, _reward_step_height_consistency,
      _reward_foot_contact_penalty, _reward_foot_contact_switch, dof_pos_pair in Hcall;
    cbn [mbind result_bind mret result_ret] in Hcall;
    repeat match type of Hcall with
           | context [getattr _ ?o] =>
               let E := fresh "E" in
               destruct o eqn:E; cbn [getattr mbind result_bind mret result_ret] in Hcall;
               [|discriminate Hcall]
           | context [cfg_item _ ?o] =>
               destruct o; cbn [cfg_item mbind result_bind mret result_ret] in Hcall;
               [|discriminate Hcall]
           | context [col_get ?w ?c ?t] =>
               let E := fresh "E" in
               destruct (col_get w c t) eqn:E;
               cbn [mbind result_bind mret result_ret] in Hcall;
               [apply col_get_length in E | discriminate Hcall]
           end;
    injection Hcall as <- ?;
    repeat match goal with
           | E : current_ankle_heights m = Some _ |- _ => apply (ts_ankle_heights _ Hs) in E
           | E : current_foot_orientations m = Some _ |- _ =>
               apply (ts_foot_orientations _ Hs) in E
           | E : base_euler m = Some _ |- _ => apply (ts_base_euler _ Hs) in E
           end;
    try (destruct (negb _));
    unfold zeros;
    rewrite ?length_zip_with, ?length_fmap, ?length_zip_with, ?length_fmap,
      ?length_replicate;
    lia.
Qed.

Lemma tick_shapes_frame (m : Env) pc rew sums :
  tick_shapes m -> length pc = num_envs m ->
  tick_shapes (with_prev_contact pc (with_rewards rew sums m)).
Proof. intros [] Hpc. constructor; assumption. Qed.

(** A reward method leaves a contact cache of the same length. *)
Lemma call_reward_prev_contact (fn : reward_term) (m : Env) (v : list Q) (pc : list (Q * Q)) :
  tick_shapes m -> call_reward fn m = Ok (v, with_prev_contact pc m) ->
  length pc = num_envs m.
Proof.
  intros Hs Hcall.
  assert (Hpc : pc = prev_contact (with_prev_contact pc m)) by reflexivity.
  rewrite Hpc.
  destruct fn;
    try (unfold call_reward in Hcall;
         match type of Hcall with
         | (?r ≫= _) = _ =>
             destruct r; cbn [mbind result_bind mret result_ret] in Hcall;
             [|discriminate Hcall]
         end;
         injection Hcall as _ Hm; rewrite <- Hm; apply (ts_prev_contact _ Hs)).
  unfold call_reward, _reward_foot_contact_switch in Hcall.
  destruct (current_ankle_heights m) as [h|] eqn:Eh;
    cbn [getattr mbind result_bind mret result_ret] in Hcall; [|discriminate Hcall].
  injection Hcall as _ <-. cbn [prev_contact with_prev_contact].
  rewrite length_fmap. apply (ts_ankle_heights _ Hs), Eh.
Qed.

(** The reward loop returns, keeps every name of the accumulators and keeps
    one entry per environment in the reward buffer, the accumulators and
    the contact cache. *)
Lemma rewards_loop_shapes (fns : dict reward_term) (m : Env) :
  reward_ready m -> registered fns m -> tick_shapes m -> reward_shapes m ->
  exists pc rew sums,
    for_each add_reward fns m = Ok (with_prev_contact pc (with_rewards rew sums m))
    /\ length pc = num_envs m
    /\ length rew = num_envs m
    /\ Forall (fun kv => length kv.2 = num_envs m) sums
    /\ forall k, is_Some (dict_get (episode_sums m) k) -> is_Some (dict_get sums k).
Proof.
  revert m. induction fns as [|[name fn] fns IH]; intros m Hready Hreg Hts [Hrew Hsums].
  - exists (prev_contact m), (rew_buf m), (episode_sums m).
    rewrite reward_frame_same. split; [reflexivity|].
    split; [apply (ts_prev_contact _ Hts)|]. auto.
  - unfold registered in Hreg. cbn in Hreg.
    apply Forall_cons in Hreg as [[[scale Hscale] [sum Hsum]] Hreg].
    destruct (call_reward_ok fn m Hready) as (v & pc & Hcall).
    pose proof (call_reward_length _ _ _ _ Hts Hcall) as Hv.
    pose proof (call_reward_prev_contact _ _ _ _ Hts Hcall) as Hpc.
    assert (Hsumlen : length sum = num_envs m).
    { clear - Hsum Hsums. induction Hsums as [|[k0 v0] d Hx _ IHd]; [discriminate|].
      cbn in Hsum. destruct (String.eqb k0 name); [|auto].
      injection Hsum as <-. exact Hx. }
    set (r := (fun x => (x * scale)%Q) <$> v).
    set (m1 := with_prev_contact pc
                 (with_rewards (zip_with Qplus (rew_buf m) r)
                    (dict_set (episode_sums m) name (zip_with Qplus sum r)) m)).
    assert (Hadd : add_reward m (name, fn) = Ok m1).
    { unfold add_reward. cbn [fst snd]. rewrite Hcall.
      cbn [mbind result_bind mret result_ret].
      change (reward_scales (with_prev_contact pc m)) with (reward_scales m).
      change (episode_sums (with_prev_contact pc m)) with (episode_sums m).
      rewrite (dict_item_Some _ _ _ Hscale), (dict_item_Some _ _ _ Hsum).
      reflexivity. }
    assert (Hr : length r = num_envs m) by (unfold r; rewrite length_fmap; exact Hv).
    destruct (IH m1) as (pc' & rew' & sums' & Hloop & Hpc' & Hrew' & Hsums' & Hkeys).
    + apply reward_ready_frame, Hready.
    + unfold registered. eapply Forall_impl; [exact Hreg|].
      intros k [Hk1 Hk2]. split; [exact Hk1|].
      change (episode_sums m1) with (dict_set (episode_sums m) name (zip_with Qplus sum r)).
      apply dict_get_set_is_Some, Hk2.
    + apply tick_shapes_frame; assumption.
    + split.
      * change (rew_buf m1) with (zip_with Qplus (rew_buf m) r).
        change (num_envs m1) with (num_envs m).
        rewrite length_zip_with. lia.
      * change (episode_sums m1) with (dict_set (episode_sums m) name (zip_with Qplus sum r)).
        change (num_envs m1) with (num_envs m).
        apply dict_set_Forall; [exact Hsums|].
        intros k'. cbn [snd]. rewrite length_zip_with. lia.
    + cbn [for_each]. rewrite Hadd. cbn [mbind result_bind]. rewrite Hloop.
      exists pc', rew', sums'. split; [reflexivity|].
      repeat (split; [assumption|]).
      intros k Hk. apply Hkeys.
      change (episode_sums m1) with (dict_set (episode_sums m) name (zip_with Qplus sum r)).
      apply dict_get_set_is_Some, Hk.
Qed.

End LoopShapes.

(** ** The episode log of [reset_idx] *)

Lemma log_episode_ok (els : Q) (env_ids : list nat) (st : dict Q * dict (list Q))
    (item : string * list Q) :
  ~ (els == 0)%Q ->
  log_episode els env_ids st item
  = Ok (dict_set st.1 ("rew_" ++ item.1)
          (Qmean (rows_get 0%Q item.2 env_ids) / els)%Q,
        dict_set st.2 item.1 (rows_fill env_ids 0%Q item.2)).
Proof.
  intros Hels. unfold log_episode. apply Qeq_bool_false in Hels. rewrite Hels.
  reflexivity.
Qed.

Lemma log_episode_zero (els : Q) (env_ids : list nat) (st : dict Q * dict (list Q))
    (item : string * list Q) :
  (els == 0)%Q -> log_episode els env_ids st item = Raise ZeroDivisionError.
Proof.
  intros Hels. unfold log_episode. apply Qeq_bool_iff in Hels. rewrite Hels.
  reflexivity.
Qed.

(** Names and lengths of the accumulators after the loop. *)
Lemma log_episode_loop_keys (els : Q) (env_ids : list nat) (items : dict (list Q))
    (ep ep' : dict Q) (sums sums' : dict (list Q)) :
  for_each (log_episode els env_ids) items (ep, sums) = Ok (ep', sums') ->
  (forall k, is_Some (dict_get sums' k)
             <-> k ∈ dict_keys items \/ is_Some (dict_get sums k))
  /\ (forall n, Forall (fun kv => length kv.2 = n) items ->
                Forall (fun kv => length kv.2 = n) sums ->
                Forall (fun kv => length kv.2 = n) sums').
Proof.
  revert ep sums. induction items as [|[name v] items IH]; intros ep sums Hloop;
    cbn [for_each] in Hloop.
  - injection Hloop as <- <-. unfold dict_keys. cbn. split; [|auto].
    intros k. split; [auto|]. intros [Hin|?]; [inversion Hin | assumption].
  - destruct (Qeq_bool els 0) eqn:Hels.
    { unfold log_episode in Hloop. rewrite Hels in Hloop. discriminate Hloop. }
    apply Qeq_bool_false in Hels.
    rewrite (log_episode_ok _ _ _ _ Hels) in Hloop.
    cbn [mbind result_bind fst snd] in Hloop.
    apply IH in Hloop as [Hk Hl]. split.
    + intros k. rewrite Hk, dict_get_set_iff. unfold dict_keys.
      cbn [fmap list_fmap fst]. rewrite elem_of_cons. split.
      * intros [?|[->|?]]; auto.
      * intros [[->|?]|?]; auto.
    + intros n Hitems Hsums. apply Forall_cons in Hitems as [Hv Hitems].
      apply Hl; [exact Hitems|]. apply dict_set_Forall; [exact Hsums|].
      intros k'. cbn [snd] in *. rewrite rows_fill_length. exact Hv.
Qed.

(** Values after the loop, for a dictionary without repeated names. *)
Lemma log_episode_loop_values (els : Q) (env_ids : list nat) (items : dict (list Q))
    (ep ep' : dict Q) (sums sums' : dict (list Q)) :
  NoDup (dict_keys items) ->
  for_each (log_episode els env_ids) items (ep, sums) = Ok (ep', sums') ->
  (forall k, dict_get sums' k
             = if decide (k ∈ dict_keys items)
               then rows_fill env_ids 0%Q <$> dict_get items k
               else dict_get sums k)
  /\ (forall k, dict_get ep' ("rew_" ++ k)
                = if decide (k ∈ dict_keys items)
                  then (fun v => (Qmean (rows_get 0%Q v env_ids) / els)%Q)
                         <$> dict_get items k
                  else dict_get ep ("rew_" ++ k)).
Proof.
  revert ep sums. induction items as [|[name v] items IH]; intros ep sums Hnd Hloop;
    cbn [for_each] in Hloop.
  - injection Hloop as <- <-. split; reflexivity.
  - unfold dict_keys in Hnd. cbn [fmap list_fmap fst] in Hnd.
    apply NoDup_cons in Hnd as [Hnotin Hnd].
    destruct (Qeq_bool els 0) eqn:Hels.
    { unfold log_episode in Hloop. rewrite Hels in Hloop. discriminate Hloop. }
    apply Qeq_bool_false in Hels.
    rewrite (log_episode_ok _ _ _ _ Hels) in Hloop.
    cbn [mbind result_bind fst snd] in Hloop.
    destruct (IH _ _ Hnd Hloop) as [Hs He].
    split; intros k; [rewrite Hs | rewrite He];
      unfold dict_keys; cbn [fmap list_fmap fst dict_get];
      destruct (decide (k ∈ items.*1)) as [Hin|Hout];
      destruct (decide (k ∈ name :: items.*1)) as [Hin'|Hout'];
      destruct (String.eqb_spec name k) as [->|Hne];
      try reflexivity; try contradiction;
      first [ exfalso; apply Hout'; right; exact Hin
            | exfalso; apply Hout'; left
            | cbn [fmap option_fmap option_map]; apply dict_get_set_eq
            | exfalso; apply elem_of_cons in Hin' as [->|Hin']; contradiction
            | apply dict_get_set_ne; intros Heq; apply Hne;
              first [ exact Heq
                    | cbn [String.append] in Heq; injection Heq as Heq; exact Heq ] ].
Qed.

(** ** [reset_idx] keeps the invariant *)

Lemma has_shape_rows_fill (n k : nat) (ids : list nat) (row : list Q) (t : list (list Q)) :
  has_shape n k t -> length row = k -> has_shape n k (rows_fill ids row t).
Proof.
  intros [Hlen Hrows] Hrow. split; [rewrite rows_fill_length; exact Hlen|].
  clear Hlen. unfold rows_fill. revert t Hrows.
  induction ids as [|i ids IH]; intros t Hrows; [exact Hrows|].
  cbn [length replicate]. rewrite rows_put_cons. apply IH.
  apply Forall_insert; assumption.
Qed.

Lemma has_shape_rows_zero (n k : nat) (ids : list nat) (t : list (list Q)) :
  has_shape n k t -> has_shape n k (rows_zero ids t).
Proof.
  intros [Hlen Hrows]. split; [rewrite rows_zero_length; exact Hlen|].
  clear Hlen. unfold rows_zero. revert t Hrows.
  induction ids as [|i ids IH]; intros t Hrows; [exact Hrows|].
  cbn [foldl]. apply IH. apply Forall_alter; [exact Hrows|].
  intros row _ Hrow. rewrite length_fmap. exact Hrow.
Qed.

Lemma resampled_shape (env_ids : list nat) (m : Env) (g g' : Rng) (cmds : list (list Q))
    (n k : nat) :
  resampled env_ids m g cmds g' -> has_shape n k (commands m) -> has_shape n k cmds.
Proof.
  intros (_ & _ & Hlen & Hout & Hin & _) [Hn Hrows].
  split; [rewrite Hlen; exact Hn|].
  apply Forall_lookup. intros i x Hx.
  rewrite Forall_lookup in Hrows.
  destruct (decide (i ∈ env_ids)) as [Hi|Hi].
  - apply list_elem_of_lookup in Hi as [j Hj].
    destruct (lookup_lt_is_Some_2 (commands m) i) as [row Hrow].
    { rewrite <- Hlen. eapply lookup_lt_Some, Hx. }
    rewrite (Hin j i row Hj Hrow) in Hx. injection Hx as <-.
    rewrite !length_insert. eapply Hrows, Hrow.
  - rewrite (Hout i Hi) in Hx. eapply Hrows, Hx.
Qed.

(** The accumulators keep their names and lengths through [reset_idx]. *)
Lemma reset_idx_sums (env_ids : list nat) (self self' : Env) (g g' : Rng) :
  index_set (num_envs self) env_ids ->
  (3 <= num_commands self)%nat ->
  reset_idx env_ids self g = Ok (self', g') ->
  (forall k, is_Some (dict_get (episode_sums self) k)
             -> is_Some (dict_get (episode_sums self') k))
  /\ (forall n, Forall (fun kv => length kv.2 = n) (episode_sums self) ->
                Forall (fun kv => length kv.2 = n) (episode_sums self')).
Proof.
  intros Hids HC Hres. unfold reset_idx in Hres.
  destruct (length env_ids =? 0)%nat.
  { injection Hres as <- <-. auto. }
  rewrite check_rows_ok in Hres by apply Hids. cbn [mbind result_bind] in Hres.
  destruct (for_each _ (episode_sums self) _) as [[ep sums]|] eqn:Hlog;
    cbn [mbind result_bind] in Hres; [|discriminate Hres].
  match type of Hres with
  | _resample_commands _ ?mid _ = _ =>
      destruct (resample_commands_effect env_ids mid g HC Hids)
        as (cmds & g1 & Hcmd & _)
  end.
  rewrite Hcmd in Hres. injection Hres as <- <-.
  cbn [episode_sums with_commands].
  apply log_episode_loop_keys in Hlog as [Hk Hl]. split.
  - intros k Hs. apply Hk. right. exact Hs.
  - intros n Hall. apply Hl; exact Hall.
Qed.

Section ResetInvariant.

Context `{Externals}.

Lemma reset_idx_preserves_invariant (env_ids : list nat) (self self' : Env) (g g' : Rng) :
  wf_env self ->
  index_set (num_envs self) env_ids ->
  reset_idx env_ids self g = Ok (self', g') ->
  wf_env self'.
Proof.
  intros Hwf Hids Hres.
  assert (HC : (3 <= num_commands self)%nat) by (rewrite (wf_num_commands _ Hwf); lia).
  destruct (reset_idx_effect env_ids self g Hids HC (wf_episode_length_s _ Hwf))
    as (s & g1 & Hres' & Hrf & Hcmd).
  rewrite Hres in Hres'. injection Hres' as <- <-.
  destruct (reset_idx_sums _ _ _ _ _ Hids HC Hres) as [Hkeys Hlens].
  pose proof (rf_attrs _ _ _ Hrf) as Hattrs.
  constructor; rewrite ?Hattrs;
    rewrite ?(rf_episode_length_buf _ _ _ Hrf), ?(rf_rew_buf _ _ _ Hrf),
      ?(rf_reset_buf _ _ _ Hrf), ?(rf_commands_scale _ _ _ Hrf),
      ?(rf_default_dof_pos _ _ _ Hrf), ?(rf_global_gravity _ _ _ Hrf),
      ?(rf_hip_angle_history _ _ _ Hrf), ?(rf_prev_contact _ _ _ Hrf),
      ?(rf_base_pos _ _ _ Hrf), ?(rf_base_quat _ _ _ Hrf),
      ?(rf_base_lin_vel _ _ _ Hrf), ?(rf_base_ang_vel _ _ _ Hrf),
      ?(rf_dof_pos _ _ _ Hrf), ?(rf_dof_vel _ _ _ Hrf),
      ?(rf_last_actions _ _ _ Hrf), ?(rf_last_dof_vel _ _ _ Hrf),
      ?(rf_current_ankle_heights _ _ _ Hrf),
      ?rows_fill_length, ?rows_put_length;
    first
      [ apply Hwf
      | eapply Forall_impl; [apply (wf_registry _ Hwf)|];
        intros k [Hk1 Hk2]; split; [exact Hk1 | apply Hkeys, Hk2]
      | apply Hlens, (wf_episode_sums _ Hwf)
      | eapply resampled_shape; [exact Hcmd | apply Hwf]
      | apply has_shape_rows_fill; [apply Hwf | apply (wf_default_dof_pos _ Hwf)]
      | apply has_shape_rows_zero, Hwf ].
Qed.

End ResetInvariant.

(** ** [step] keeps the invariant *)

Section StepInvariant.

Context `{Externals}.

Lemma has_shape_length (n k : nat) (t : list (list Q)) : has_shape n k t -> length t = n.
Proof. intros [Hn _]. exact Hn. Qed.

Lemma has_shape_clip (n k : nat) (c : Q) (t : list (list Q)) :
  has_shape n k t ->
  has_shape n k (fmap (M := list) (fun x => clip x (- c) c) <$> t).
Proof.
  intros [Hn Hrows]. split; [rewrite length_fmap; exact Hn|].
  apply Forall_fmap. eapply Forall_impl; [exact Hrows|].
  intros row Hrow. cbn. rewrite length_fmap. exact Hrow.
Qed.

(** The state in which [step] runs its reward loop has one row per
    environment everywhere. *)
Lemma step_trace_shapes actions_in sim self g m0 idx cmds g1 euler m3 obs self' g' :
  step_trace actions_in sim self g m0 idx cmds g1 euler m3 obs self' g' ->
  wf_env self -> wf_sim self sim ->
  has_shape (num_envs self) (num_actions self) actions_in ->
  let m2 := with_rewards ((fun _ => 0%Q) <$> rew_buf m0) (episode_sums m0)
              (with_reset_buf (done_flags m0 (episode_length_buf m0) euler)
                 (with_commands cmds m0)) in
  reward_ready m2 /\ registered (reward_functions m0) m2
  /\ tick_shapes m2 /\ reward_shapes m2.
Proof.
  intros Ht Hwf Hsim Hact m2.
  pose proof (st_fields _ _ _ _ _ _ _ _ _ _ _ _ _ Ht) as Hf.
  pose proof (af_attrs _ _ _ _ Hf) as Hattrs.
  destruct (wf_clip _ Hwf) as [c Hc].
  assert (Hcmds : has_shape (num_envs self) 3 cmds).
  { eapply resampled_shape; [apply (st_resampled _ _ _ _ _ _ _ _ _ _ _ _ _ Ht)|].
    rewrite (af_commands _ _ _ _ Hf). apply (wf_commands _ Hwf). }
  destruct (wf_ankle_pos _ _ Hsim) as [Hp1 Hp2].
  destruct (wf_ankle_quat _ _ Hsim) as [Hq1 Hq2].
  split; [|split; [|split]].
  - constructor;
      change (both_below (num_actions m0) (hip_aa_indices m0))
      || change (both_below (num_actions m0) (hip_fe_indices m0))
      || change (both_below (num_actions m0) (knee_fe_indices m0))
      || change (3 <= num_commands m0)%nat
      || change (is_Some (Cfg.tracking_sigma (reward_cfg m0)))
      || change (is_Some (Cfg.base_height_target (reward_cfg m0)))
      || change (is_Some (current_ankle_heights m0))
      || change (is_Some (current_foot_orientations m0))
      || change (is_Some (base_euler m0));
      rewrite ?Hattrs;
      first [ apply Hwf
            | rewrite (wf_num_commands _ Hwf); lia
            | rewrite (af_current_ankle_heights _ _ _ _ Hf); eauto
            | rewrite (af_current_foot_orientations _ _ _ _ Hf); eauto
            | rewrite (af_base_euler _ _ _ _ Hf); eauto ].
  - unfold registered.
    change (reward_scales m2) with (reward_scales m0).
    change (episode_sums m2) with (episode_sums m0).
    rewrite Hattrs, (af_episode_sums _ _ _ _ Hf). apply (wf_registry _ Hwf).
  - constructor;
      change (num_envs m2) with (num_envs m0); rewrite Hattrs;
      cbn [commands base_lin_vel base_ang_vel base_pos last_actions actions dof_pos
           hip_angle_history prev_contact current_ankle_heights
           current_foot_orientations base_euler m2 with_rewards with_reset_buf
           with_commands];
      rewrite ?(af_base_lin_vel _ _ _ _ Hf), ?(af_base_ang_vel _ _ _ _ Hf),
        ?(af_base_pos _ _ _ _ Hf), ?(af_last_actions _ _ _ _ Hf),
        ?(af_actions _ _ _ _ Hf c Hc), ?(af_dof_pos _ _ _ _ Hf),
        ?(af_hip_angle_history _ _ _ _ Hf), ?(af_prev_contact _ _ _ _ Hf),
        ?(af_current_ankle_heights _ _ _ _ Hf),
        ?(af_current_foot_orientations _ _ _ _ Hf), ?(af_base_euler _ _ _ _ Hf);
      try (intros ? [= <-]);
      rewrite ?length_zip_with, ?length_fmap, ?length_zip_with, ?length_fmap,
        ?(wf_robot_vel _ _ Hsim), ?(wf_robot_ang _ _ Hsim), ?(wf_robot_quat _ _ Hsim),
        ?(wf_robot_pos _ _ Hsim), ?Hp1, ?Hp2, ?Hq1, ?Hq2,
        ?(has_shape_length _ _ _ (wf_dofs_position _ _ Hsim)),
        ?(has_shape_length _ _ _ (wf_last_actions _ Hwf)),
        ?(has_shape_length _ _ _ Hact),
        ?(has_shape_length _ _ _ Hcmds),
        ?(proj1 (wf_hip_angle_history _ Hwf)), ?(wf_prev_contact _ Hwf);
      lia.
  - split.
    + change (rew_buf m2) with ((fun _ => 0%Q) <$> rew_buf m0).
      change (num_envs m2) with (num_envs m0).
      rewrite length_fmap, (af_rew_buf _ _ _ _ Hf), Hattrs. apply (wf_rew_buf _ Hwf).
    + change (episode_sums m2) with (episode_sums m0).
      change (num_envs m2) with (num_envs m0).
      rewrite (af_episode_sums _ _ _ _ Hf), Hattrs. apply (wf_episode_sums _ Hwf).
Qed.

End StepInvariant.

(** ** The invariant along a run *)

Section StepKeepsInvariant.

Context `{Externals}.

Lemma history_write_shape (n idx : nat) (hist : list (list Q * list Q))
    (samples : list (Q * Q)) :
  length hist = n -> length samples = n ->
  Forall (fun h => length h.1 = 10%nat /\ length h.2 = 10%nat) hist ->
  length (zip_with (fun h a => (<[idx := a.1]> h.1, <[idx := a.2]> h.2)) hist samples) = n
  /\ Forall (fun h => length h.1 = 10%nat /\ length h.2 = 10%nat)
       (zip_with (fun h a => (<[idx := a.1]> h.1, <[idx := a.2]> h.2)) hist samples).
Proof.
  intros Hh Hs Hrows. split; [rewrite length_zip_with; lia|].
  apply Forall_forall. intros x Hx.
  apply list_elem_of_lookup in Hx as [i Hi].
  apply lookup_zip_with_Some in Hi as (h & a & -> & Hhi & _).
  rewrite Forall_forall in Hrows.
  destruct (Hrows h (list_elem_of_lookup_2 _ _ _ Hhi)) as [H1 H2].
  cbn. rewrite !length_insert. split; assumption.
Qed.

(** The state [step] hands to [reset_idx] satisfies the invariant. *)
Lemma step_trace_invariant actions_in sim self g m0 idx cmds g1 euler m3 obs self' g' :
  step_trace actions_in sim self g m0 idx cmds g1 euler m3 obs self' g' ->
  wf_env self -> wf_sim self sim ->
  has_shape (num_envs self) (num_actions self) actions_in ->
  wf_env (with_observation obs (actions m3) (dof_vel m3)
            {| observations_critic := Some obs; episode := episode (extras m3) |} m3).
Proof.
  intros Ht Hwf Hsim Hact.
  destruct (step_trace_shapes _ _ _ _ _ _ _ _ _ _ _ _ _ Ht Hwf Hsim Hact)
    as (Hready & Hreg & Hts & Hrs).
  destruct (rewards_loop_shapes _ _ Hready Hreg Hts Hrs)
    as (pc & rew & sums & Hloop & Hpc & Hrew & Hsums & Hkeys).
  rewrite (st_rewards _ _ _ _ _ _ _ _ _ _ _ _ _ Ht) in Hloop. injection Hloop as ->.
  pose proof (st_fields _ _ _ _ _ _ _ _ _ _ _ _ _ Ht) as Hf.
  pose proof (af_attrs _ _ _ _ Hf) as Hattrs.
  destruct (wf_clip _ Hwf) as [c Hc].
  assert (Hcmds : has_shape (num_envs self) 3 cmds).
  { eapply resampled_shape; [apply (st_resampled _ _ _ _ _ _ _ _ _ _ _ _ _ Ht)|].
    rewrite (af_commands _ _ _ _ Hf). apply (wf_commands _ Hwf). }
  destruct (wf_ankle_pos _ _ Hsim) as [Hp1 Hp2].
  pose proof (st_euler _ _ _ _ _ _ _ _ _ _ _ _ _ Ht) as Heuler.
  rewrite (af_base_euler _ _ _ _ Hf) in Heuler. injection Heuler as <-.
  change (num_envs (with_rewards _ _ _)) with (num_envs m0) in Hpc, Hrew, Hsums.
  change (episode_sums (with_rewards _ _ _)) with (episode_sums m0) in Hkeys.
  rewrite Hattrs in Hpc, Hrew, Hsums.
  rewrite (af_episode_sums _ _ _ _ Hf) in Hkeys.
  constructor;
    cbn [attrs with_observation with_prev_contact with_rewards with_reset_buf
         with_commands global_gravity commands_scale default_dof_pos
         hip_angle_history episode_sums prev_contact base_lin_vel base_ang_vel
         rew_buf reset_buf episode_length_buf commands actions last_actions
         dof_pos dof_vel last_dof_vel base_pos base_quat current_ankle_heights];
    rewrite ?Hattrs.
  all: try assumption.
  all: try (apply Hwf).
  all: rewrite ?(af_commands_scale _ _ _ _ Hf), ?(af_default_dof_pos _ _ _ _ Hf),
         ?(af_global_gravity _ _ _ _ Hf), ?(af_episode_length_buf _ _ _ _ Hf),
         ?(af_base_pos _ _ _ _ Hf), ?(af_base_quat _ _ _ _ Hf),
         ?(af_base_lin_vel _ _ _ _ Hf), ?(af_base_ang_vel _ _ _ _ Hf),
         ?(af_dof_pos _ _ _ _ Hf), ?(af_dof_vel _ _ _ _ Hf),
         ?(af_actions _ _ _ _ Hf c Hc), ?(af_hip_angle_history _ _ _ _ Hf),
         ?(af_current_ankle_heights _ _ _ _ Hf).
  all: try (apply Hwf).
  all: try assumption.
  all: try (apply Hsim).
  all: try (apply has_shape_clip; exact Hact).
  - eapply Forall_impl; [apply (wf_registry _ Hwf)|].
    intros k [Hk1 Hk2]. split; [exact Hk1 | apply Hkeys, Hk2].
  - rewrite length_fmap. apply (wf_episode_length_buf _ Hwf).
  - apply done_flags_length; rewrite length_fmap;
      [apply (wf_episode_length_buf _ Hwf) | apply (wf_robot_quat _ _ Hsim)].
  - destruct (wf_hip_angle_history _ Hwf) as [Hlen Hrows].
    apply history_write_shape; [exact Hlen| |exact Hrows].
    rewrite length_zip_with, !length_fmap,
      (has_shape_length _ _ _ (wf_dofs_position _ _ Hsim)). lia.
  - rewrite length_zip_with, length_fmap,
      (wf_robot_vel _ _ Hsim), (wf_robot_quat _ _ Hsim). lia.
  - rewrite length_zip_with, length_fmap,
      (wf_robot_ang _ _ Hsim), (wf_robot_quat _ _ Hsim). lia.
  - intros h [= <-]. rewrite length_zip_with, !length_fmap, Hp1, Hp2. lia.
Qed.

(** The invariant is kept by [step], whatever the actions and the
    read-out of the simulator, as long as they have one row per
    environment and one column per joint. *)
Lemma step_keeps_wf actions_in sim self g :
  wf_env self -> wf_sim self sim ->
  has_shape (num_envs self) (num_actions self) actions_in ->
  exists self' g' out,
    step actions_in sim self g = Ok (self', g', out)
    /\ wf_env self'
    /\ attrs self' = attrs self.
Proof.
  intros Hwf Hsim Hact.
  destruct (step_runs actions_in sim self g Hwf Hsim)
    as (m0 & idx & cmds & g1 & euler & m3 & obs & self' & g' & Ht).
  pose proof (step_trace_invariant _ _ _ _ _ _ _ _ _ _ _ _ _ Ht Hwf Hsim Hact) as Hpre.
  destruct (step_trace_attrs _ _ _ _ _ _ _ _ _ _ _ _ _ Ht) as (Hattrs & Hattrs3 & Hattrs0).
  eexists self', g', _. split; [apply (st_step _ _ _ _ _ _ _ _ _ _ _ _ _ Ht)|].
  split; [|exact Hattrs].
  eapply reset_idx_preserves_invariant;
    [exact Hpre | | apply (st_reset _ _ _ _ _ _ _ _ _ _ _ _ _ Ht)].
  change (num_envs (with_observation _ _ _ _ m3)) with (num_envs m3).
  rewrite Hattrs3.
  pose proof (nonzero_index_set (done_flags m0 (episode_length_buf m0) euler)) as Hset.
  pose proof (st_fields _ _ _ _ _ _ _ _ _ _ _ _ _ Ht) as Hf.
  pose proof (st_euler _ _ _ _ _ _ _ _ _ _ _ _ _ Ht) as Heuler.
  rewrite (af_base_euler _ _ _ _ Hf) in Heuler. injection Heuler as <-.
  rewrite (done_flags_length _ _ _ (num_envs self)) in Hset; [exact Hset| |].
  - rewrite (af_episode_length_buf _ _ _ _ Hf), length_fmap.
    apply (wf_episode_length_buf _ Hwf).
  - rewrite length_fmap. apply (wf_robot_quat _ _ Hsim).
Qed.

End StepKeepsInvariant.

(** ** What [step] leaves in each row *)

Section StepRows.

Context `{Externals}.

(** The buffers [step] returns in, written from the buffers it read and
    the flags it computed: the rows flagged done hold the reset values,
    every other row the values of this tick. *)
Lemma step_trace_buffers actions_in sim self g m0 idx cmds g1 euler m3 obs self' g' c :
  step_trace actions_in sim self g m0 idx cmds g1 euler m3 obs self' g' ->
  Cfg.clip_actions (env_cfg self) = Some c ->
  let ids := nonzero (reset_buf self') in
  episode_length_buf self'
  = rows_fill ids 0%Z ((fun n => wrap_int32 (n + 1)) <$> episode_length_buf self)
  /\ dof_pos self' = rows_fill ids (default_dof_pos self) (dofs_position sim)
  /\ dof_vel self' = rows_zero ids (dofs_velocity sim)
  /\ last_actions self'
     = rows_zero ids (fmap (M := list) (fun x => clip x (- c) c) <$> actions_in)
  /\ last_dof_vel self' = rows_zero ids (dofs_velocity sim)
  /\ base_pos self' = rows_fill ids (base_init_pos self) (robot_pos sim)
  /\ base_quat self' = rows_fill ids (base_init_quat self) (robot_quat sim)
  /\ hip_angle_history self' = hip_angle_history m0
  /\ history_idx self' = ((history_idx self + 1) mod 10)%nat.
Proof.
  intros Ht Hc ids.
  pose proof (step_trace_reset_buf _ _ _ _ _ _ _ _ _ _ _ _ _ Ht) as Hdone.
  pose proof (st_fields _ _ _ _ _ _ _ _ _ _ _ _ _ Ht) as Hf.
  pose proof (st_reset_fields _ _ _ _ _ _ _ _ _ _ _ _ _ Ht) as Hrf.
  pose proof (st_reward_frame _ _ _ _ _ _ _ _ _ _ _ _ _ Ht) as Hm3.
  destruct (step_trace_attrs _ _ _ _ _ _ _ _ _ _ _ _ _ Ht) as (_ & Hattrs3 & Hattrs0).
  unfold ids. rewrite Hdone.
  rewrite (rf_episode_length_buf _ _ _ Hrf), (rf_dof_pos _ _ _ Hrf),
    (rf_dof_vel _ _ _ Hrf), (rf_last_actions _ _ _ Hrf), (rf_last_dof_vel _ _ _ Hrf),
    (rf_base_pos _ _ _ Hrf), (rf_base_quat _ _ _ Hrf),
    (rf_hip_angle_history _ _ _ Hrf), (rf_history_idx _ _ _ Hrf).
  cbn [attrs with_observation episode_length_buf dof_pos dof_vel last_actions
       last_dof_vel base_pos base_quat default_dof_pos hip_angle_history history_idx].
  rewrite Hattrs3.
  rewrite Hm3.
  cbn [attrs with_prev_contact with_rewards with_reset_buf with_commands
       episode_length_buf dof_pos dof_vel actions base_pos base_quat
       default_dof_pos hip_angle_history history_idx].
  rewrite (af_episode_length_buf _ _ _ _ Hf), (af_dof_pos _ _ _ _ Hf),
    (af_dof_vel _ _ _ _ Hf), (af_actions _ _ _ _ Hf c Hc), (af_base_pos _ _ _ _ Hf),
    (af_base_quat _ _ _ _ Hf), (af_default_dof_pos _ _ _ _ Hf),
    (af_history_idx _ _ _ _ Hf).
  repeat split; reflexivity.
Qed.

End StepRows.

Lemma wrap_int32_small (z : Z) :
  (- (2 ^ 31) <= z < 2 ^ 31)%Z -> wrap_int32 z = z.
Proof. intros Hz. unfold wrap_int32. rewrite Z.mod_small; lia. Qed.

Lemma rows_fill_cases {A} (ids : list nat) (v : A) (t : list A) (i : nat) (x : A) :
  NoDup ids ->
  rows_fill ids v t !! i = Some x ->
  (i ∈ ids /\ x = v) \/ ((i ∉ ids) /\ t !! i = Some x).
Proof.
  intros Hnd Hx. destruct (decide (i ∈ ids)) as [Hin|Hout].
  - left. split; [exact Hin|].
    rewrite rows_fill_lookup in Hx; [congruence | exact Hnd | exact Hin |].
    rewrite <- (rows_fill_length ids v t). eapply lookup_lt_Some, Hx.
  - right. split; [exact Hout|]. rewrite rows_fill_other in Hx by exact Hout. exact Hx.
Qed.

Section DoneFlags.

Context `{Externals}.

Lemma done_flags_lookup (m : Env) (elb : list Z) (euler : list Vec3) (i : nat) (b : bool) :
  done_flags m elb euler !! i = Some b ->
  exists count e,
    elb !! i = Some count /\ euler !! i = Some e
    /\ b = (max_episode_length m <? count)%Z
           || Qltb (Cfg.termination_if_pitch_greater_than (env_cfg m)) (Qabs (vy e))
           || Qltb (Cfg.termination_if_roll_greater_than (env_cfg m)) (Qabs (vx e)).
Proof.
  unfold done_flags. intros Hb.
  apply lookup_zip_with_Some in Hb as (b1 & b2 & -> & Hb1 & Hb2).
  apply lookup_zip_with_Some in Hb1 as (b3 & b4 & -> & Hb3 & Hb4).
  rewrite list_lookup_fmap in Hb2. rewrite list_lookup_fmap in Hb3.
  rewrite list_lookup_fmap in Hb4.
  destruct (elb !! i) as [count|]; [|discriminate Hb3].
  destruct (euler !! i) as [e|]; [|discriminate Hb2].
  cbn in Hb2, Hb3, Hb4. injection Hb2 as <-. injection Hb3 as <-. injection Hb4 as <-.
  exists count, e. repeat split; reflexivity.
Qed.

End DoneFlags.

Section StepRowsClaims.

Context `{Externals}.

(** A row flagged done leaves [step] reset: counter 0, default joint
    positions, zero joint velocities, zero last action and last velocity,
    initial base pose.  A row not flagged leaves it with the counter one
    higher, the joint state and base pose the simulator reported, and the
    clipped action of this call as last action. *)
Theorem step_rows_after (actions_in : list (list Q)) (sim : SimOut) (self : Env)
    (g : Rng) :
  wf_env self -> wf_sim self sim ->
  has_shape (num_envs self) (num_actions self) actions_in ->
  exists self' g' obs rew done ex c,
    step actions_in sim self g = Ok (self', g', (obs, rew, done, ex))
    /\ Cfg.clip_actions (env_cfg self) = Some c
    /\ length done = num_envs self
    /\ (forall i, done !! i = Some true ->
          episode_length_buf self' !! i = Some 0%Z
          /\ dof_pos self' !! i = Some (default_dof_pos self)
          /\ dof_vel self' !! i = Some (zeros (num_actions self))
          /\ last_actions self' !! i = Some (zeros (num_actions self))
          /\ last_dof_vel self' !! i = Some (zeros (num_actions self))
          /\ base_pos self' !! i = Some (base_init_pos self)
          /\ base_quat self' !! i = Some (base_init_quat self))
    /\ (forall i, done !! i = Some false ->
          episode_length_buf self' !! i
          = (fun n => wrap_int32 (n + 1)) <$> episode_length_buf self !! i
          /\ dof_pos self' !! i = dofs_position sim !! i
          /\ dof_vel self' !! i = dofs_velocity sim !! i
          /\ last_actions self' !! i
             = fmap (M := list) (fun x => clip x (- c) c) <$> actions_in !! i
          /\ last_dof_vel self' !! i = dofs_velocity sim !! i
          /\ base_pos self' !! i = robot_pos sim !! i
          /\ base_quat self' !! i = robot_quat sim !! i).
Proof.
  intros Hwf Hsim Hact.
  destruct (step_runs actions_in sim self g Hwf Hsim)
    as (m0 & idx & cmds & g1 & euler & m3 & obs & self' & g' & Ht).
  destruct (wf_clip _ Hwf) as [c Hc].
  destruct (step_trace_buffers _ _ _ _ _ _ _ _ _ _ _ _ _ c Ht Hc)
    as (Helb & Hdp & Hdv & Hla & Hldv & Hbp & Hbq & _).
  pose proof (step_trace_reset_buf _ _ _ _ _ _ _ _ _ _ _ _ _ Ht) as Hdone.
  pose proof (st_fields _ _ _ _ _ _ _ _ _ _ _ _ _ Ht) as Hf.
  pose proof (st_euler _ _ _ _ _ _ _ _ _ _ _ _ _ Ht) as Heuler.
  rewrite (af_base_euler _ _ _ _ Hf) in Heuler. injection Heuler as <-.
  assert (Hlen : length (reset_buf self') = num_envs self).
  { rewrite Hdone. apply done_flags_length.
    - rewrite (af_episode_length_buf _ _ _ _ Hf), length_fmap.
      apply (wf_episode_length_buf _ Hwf).
    - rewrite length_fmap. apply (wf_robot_quat _ _ Hsim). }
  pose proof (nonzero_index_set (reset_buf self')) as [Hnd Hlt].
  exists self', g', (obs_buf self'), (rew_buf self'), (reset_buf self'), (extras self'), c.
  split; [apply (st_step _ _ _ _ _ _ _ _ _ _ _ _ _ Ht)|].
  split; [exact Hc|]. split; [exact Hlen|].
  rewrite Helb, Hdp, Hdv, Hla, Hldv, Hbp, Hbq. split.
  - intros i Hi. apply elem_of_nonzero in Hi as Hin.
    assert (Hi' : (i < num_envs self)%nat).
    { rewrite <- Hlen. eapply lookup_lt_Some, Hi. }
    destruct (has_shape_lookup _ _ _ i (wf_dofs_velocity _ _ Hsim) Hi') as (rv & Hrv & Hlv).
    destruct (has_shape_lookup _ _ _ i (has_shape_clip _ _ c _ Hact) Hi')
      as (ra & Hra & Hlra).
    rewrite (rows_zero_lookup _ _ _ _ Hnd Hin Hrv), (zero_row _ _ Hlv).
    rewrite (rows_zero_lookup _ _ _ _ Hnd Hin Hra), (zero_row _ _ Hlra).
    repeat split; try reflexivity;
      apply rows_fill_lookup; try assumption;
      rewrite ?length_fmap, ?(wf_episode_length_buf _ Hwf), ?(wf_robot_pos _ _ Hsim),
        ?(wf_robot_quat _ _ Hsim), ?(has_shape_length _ _ _ (wf_dofs_position _ _ Hsim));
      exact Hi'.
  - intros i Hi.
    assert (Hout : i ∉ nonzero (reset_buf self')).
    { rewrite elem_of_nonzero, Hi. discriminate. }
    rewrite !rows_fill_other, !rows_zero_other by exact Hout.
    rewrite !list_lookup_fmap. repeat split; reflexivity.
Qed.

(** The step counter never leaves [0, max_episode_length]: if every row
    starts a tick within that range, and the range fits an int32 with
    room for the increment, every row ends the tick within it. *)
Theorem step_counter_bounded (actions_in : list (list Q)) (sim : SimOut) (self : Env)
    (g : Rng) :
  wf_env self -> wf_sim self sim ->
  (0 <= max_episode_length self < 2 ^ 31 - 1)%Z ->
  Forall (fun n => (0 <= n <= max_episode_length self)%Z) (episode_length_buf self) ->
  exists self' g' out,
    step actions_in sim self g = Ok (self', g', out)
    /\ max_episode_length self' = max_episode_length self
    /\ Forall (fun n => (0 <= n <= max_episode_length self')%Z)
              (episode_length_buf self').
Proof.
  intros Hwf Hsim Hmax Hall.
  destruct (step_runs actions_in sim self g Hwf Hsim)
    as (m0 & idx & cmds & g1 & euler & m3 & obs & self' & g' & Ht).
  destruct (wf_clip _ Hwf) as [c Hc].
  destruct (step_trace_buffers _ _ _ _ _ _ _ _ _ _ _ _ _ c Ht Hc) as (Helb & _).
  pose proof (step_trace_reset_buf _ _ _ _ _ _ _ _ _ _ _ _ _ Ht) as Hdone.
  destruct (step_trace_attrs _ _ _ _ _ _ _ _ _ _ _ _ _ Ht) as (Hattrs & _ & Hattrs0).
  pose proof (st_fields _ _ _ _ _ _ _ _ _ _ _ _ _ Ht) as Hf.
  eexists self', g', _. split; [apply (st_step _ _ _ _ _ _ _ _ _ _ _ _ _ Ht)|].
  rewrite Hattrs. split; [reflexivity|].
  apply Forall_lookup. intros i x Hx. rewrite Helb in Hx.
  pose proof (nonzero_index_set (reset_buf self')) as [Hnd _].
  apply rows_fill_cases in Hx as [[_ ->]|[Hout Hx]]; [lia | | exact Hnd].
  rewrite list_lookup_fmap in Hx.
  destruct (episode_length_buf self !! i) as [count|] eqn:Hcount; [|discriminate Hx].
  cbn in Hx. injection Hx as <-.
  rewrite Forall_lookup in Hall. pose proof (Hall i count Hcount) as Hrange.
  rewrite wrap_int32_small by lia.
  split; [lia|].
  destruct (reset_buf self' !! i) as [b|] eqn:Hb.
  - rewrite elem_of_nonzero, Hb in Hout. destruct b; [exfalso; apply Hout; reflexivity|].
    rewrite Hdone in Hb.
    apply done_flags_lookup in Hb as (count' & e & Hc' & _ & Hflag).
    rewrite (af_episode_length_buf _ _ _ _ Hf), list_lookup_fmap, Hcount in Hc'.
    cbn in Hc'. injection Hc' as <-.
    rewrite wrap_int32_small in Hflag by lia.
    symmetry in Hflag. apply orb_false_iff in Hflag as [Hflag _].
    apply orb_false_iff in Hflag as [Hflag _].
    apply Z.ltb_ge in Hflag. rewrite Hattrs0 in Hflag. exact Hflag.
  - exfalso. apply lookup_ge_None in Hb.
    pose proof (lookup_lt_Some _ _ _ Hcount) as Hlt.
    rewrite Hdone, (done_flags_length _ _ _ (num_envs self)) in Hb.
    + rewrite (wf_episode_length_buf _ Hwf) in Hlt. lia.
    + rewrite (af_episode_length_buf _ _ _ _ Hf), length_fmap.
      apply (wf_episode_length_buf _ Hwf).
    + pose proof (st_euler _ _ _ _ _ _ _ _ _ _ _ _ _ Ht) as Heuler.
      rewrite (af_base_euler _ _ _ _ Hf) in Heuler. injection Heuler as <-.
      rewrite length_fmap. apply (wf_robot_quat _ _ Hsim).
Qed.

End StepRowsClaims.

(** ** Rollouts *)

Section Rollout.

Context `{Externals}.

Lemma wf_sim_attrs (a b : Env) (sim : SimOut) :
  attrs b = attrs a -> wf_sim a sim -> wf_sim b sim.
Proof.
  intros Hattrs Hs. destruct Hs. constructor; rewrite Hattrs; assumption.
Qed.

(** A rollout of any length returns: from a state that satisfies the
    invariant, with actions and simulator read-outs of the shape of the
    environment, no [step] raises, and the state the rollout ends in
    satisfies the invariant again, with the attributes set at
    construction unchanged. *)
Theorem rollout_keeps_invariant (inputs : list (list (list Q) * SimOut))
    (self : Env) (g : Rng) :
  wf_env self ->
  Forall (fun input => has_shape (num_envs self) (num_actions self) input.1
                       /\ wf_sim self input.2) inputs ->
  exists self' g',
    rollout inputs self g = Ok (self', g', tt)
    /\ wf_env self'
    /\ attrs self' = attrs self.
Proof.
  revert self g. induction inputs as [|[acts sim] inputs IH]; intros self g Hwf Hall.
  - exists self, g. split; [reflexivity|]. split; [exact Hwf | reflexivity].
  - apply Forall_cons in Hall as [[Hact Hsim] Hall]. cbn [fst snd] in Hact, Hsim.
    destruct (step_keeps_wf acts sim self g Hwf Hsim Hact)
      as (self1 & g1 & out & Hstep & Hwf1 & Hattrs1).
    destruct (IH self1 g1 Hwf1) as (self' & g' & Hrun & Hwf' & Hattrs').
    { eapply Forall_impl; [exact Hall|]. intros [a s] [Ha Hs]. cbn [fst snd] in *.
      split; [rewrite Hattrs1; exact Ha | eapply wf_sim_attrs; eauto]. }
    exists self', g'. cbn [rollout fst snd]. rewrite Hstep. cbn [mbind result_bind fst snd].
    split; [exact Hrun|]. split; [exact Hwf'|]. rewrite Hattrs'. exact Hattrs1.
Qed.

End Rollout.

Lemma demo_inputs_shape :
  Forall (fun input => has_shape (num_envs demo_env) (num_actions demo_env) input.1
                       /\ wf_sim demo_env input.2)
         [(demo_actions, demo_sim 0 (-1)); (demo_actions, demo_sim 45 0.3);
          (demo_actions, demo_sim 0 1)].
Proof.
  repeat constructor; try apply demo_actions_shape; apply demo_sim_wf; reflexivity.
Qed.

Lemma rollout_keeps_invariant_witness :
  exists self' g',
    @rollout demo_externals
      [(demo_actions, demo_sim 0 (-1)); (demo_actions, demo_sim 45 0.3);
       (demo_actions, demo_sim 0 1)] demo_env demo_rng
    = Ok (self', g', tt)
    /\ @wf_env demo_externals self'.
Proof.
  destruct (rollout_keeps_invariant (H := demo_externals) _ demo_env demo_rng
              demo_env_wf demo_inputs_shape) as (self' & g' & Hrun & Hwf & _).
  exists self', g'. split; [exact Hrun | exact Hwf].
Defined.

(** ** [reset] on every row *)

Lemma rows_fill_all {A} (n : nat) (v : A) (t : list A) :
  length t = n -> rows_fill (seq 0 n) v t = replicate n v.
Proof.
  intros Hlen. apply list_eq. intros i.
  destruct (decide (i < n)%nat) as [Hi|Hi].
  - rewrite rows_fill_lookup.
    + symmetry. apply lookup_replicate_2. exact Hi.
    + apply NoDup_seq.
    + apply elem_of_seq. lia.
    + lia.
  - rewrite (proj2 (lookup_ge_None _ _)), (proj2 (lookup_ge_None _ _));
      [reflexivity | rewrite length_replicate; lia | rewrite rows_fill_length; lia].
Qed.

Lemma rows_zero_all (n k : nat) (t : list (list Q)) :
  has_shape n k t -> rows_zero (seq 0 n) t = replicate n (zeros k).
Proof.
  intros Hshape. pose proof Hshape as [Hlen Hrows]. apply list_eq. intros i.
  destruct (decide (i < n)%nat) as [Hi|Hi].
  - destruct (has_shape_lookup _ _ _ i Hshape Hi) as (row & Hrow & Hk).
    rewrite (rows_zero_lookup _ _ _ row (NoDup_seq 0 n)), (zero_row _ _ Hk).
    + symmetry. apply lookup_replicate_2. exact Hi.
    + apply elem_of_seq. lia.
    + exact Hrow.
  - rewrite (proj2 (lookup_ge_None _ _)), (proj2 (lookup_ge_None _ _));
      [reflexivity | rewrite length_replicate; lia | rewrite rows_zero_length; lia].
Qed.

Section ResetAll.

Context `{Externals}.

Lemma wf_env_with_reset_buf (rb : list bool) (self : Env) :
  wf_env self -> length rb = num_envs self -> wf_env (with_reset_buf rb self).
Proof.
  intros Hwf Hrb. destruct Hwf. constructor; assumption.
Qed.

(** [reset] returns under the invariant and leaves every row at the start
    of an episode: counter 0, reset flag true, default joint positions,
    zero joint velocities, the initial base pose, a command inside the
    configured ranges.  It keeps the invariant, draws exactly three numbers
    per environment, and returns the observation stored before the call.
    The hip-angle history is the one it found. *)
Theorem reset_all_rows (self : Env) (g : Rng) :
  wf_env self -> unit_draws g -> ordered_ranges (command_cfg self) ->
  exists self' g',
    reset self g = Ok (self', g', (obs_buf self, None))
    /\ wf_env self'
    /\ episode_length_buf self' = replicate (num_envs self) 0%Z
    /\ reset_buf self' = replicate (num_envs self) true
    /\ dof_pos self' = replicate (num_envs self) (default_dof_pos self)
    /\ dof_vel self' = replicate (num_envs self) (zeros (num_actions self))
    /\ base_pos self' = replicate (num_envs self) (base_init_pos self)
    /\ base_quat self' = replicate (num_envs self) (base_init_quat self)
    /\ length (commands self') = num_envs self
    /\ Forall (command_in_ranges (command_cfg self)) (commands self')
    /\ hip_angle_history self' = hip_angle_history self
    /\ cursor g' = (cursor g + 3 * num_envs self)%nat.
Proof.
  intros Hwf Hu Hranges. unfold reset.
  set (s0 := with_reset_buf ((fun _ => true) <$> reset_buf self) self).
  assert (Hwf0 : wf_env s0).
  { apply wf_env_with_reset_buf; [exact Hwf|].
    rewrite length_fmap. apply (wf_reset_buf _ Hwf). }
  change (num_envs s0) with (num_envs self).
  assert (HC : (3 <= num_commands s0)%nat).
  { change (num_commands s0) with (num_commands self).
    rewrite (wf_num_commands _ Hwf). lia. }
  destruct (reset_idx_effect (seq 0 (num_envs self)) s0 g (seq_index_set _) HC
              (wf_episode_length_s _ Hwf0))
    as (self' & g' & Hres & Hrf & Hcmds).
  rewrite Hres. cbn [mbind result_bind mret result_ret].
  exists self', g'. rewrite (rf_obs_buf _ _ _ Hrf).
  split; [reflexivity|].
  split.
  { eapply reset_idx_preserves_invariant; [exact Hwf0 | apply seq_index_set | exact Hres]. }
  rewrite (rf_episode_length_buf _ _ _ Hrf), (rf_reset_buf _ _ _ Hrf),
    (rf_dof_pos _ _ _ Hrf), (rf_dof_vel _ _ _ Hrf), (rf_base_pos _ _ _ Hrf),
    (rf_base_quat _ _ _ Hrf), (rf_hip_angle_history _ _ _ Hrf).
  cbn [s0 with_reset_buf episode_length_buf reset_buf dof_pos dof_vel base_pos
       base_quat hip_angle_history default_dof_pos attrs].
  destruct Hcmds as (_ & Hcur & Hclen & _ & _ & Hcin).
  destruct (wf_commands _ Hwf) as [Hcn Hcrows].
  change (commands s0) with (commands self) in Hclen, Hcin.
  change (command_cfg s0) with (command_cfg self) in Hcin.
  repeat split.
  - apply rows_fill_all, (wf_episode_length_buf _ Hwf).
  - apply rows_fill_all. rewrite length_fmap. apply (wf_reset_buf _ Hwf).
  - apply rows_fill_all, (has_shape_length _ _ _ (wf_dof_pos _ Hwf)).
  - apply rows_zero_all, (wf_dof_vel _ Hwf).
  - apply rows_fill_all, (wf_base_pos _ Hwf).
  - apply rows_fill_all, (wf_base_quat _ Hwf).
  - rewrite Hclen. exact Hcn.
  - apply Forall_lookup. intros i row' Hrow'.
    assert (Hi : (i < num_envs self)%nat).
    { rewrite <- Hcn, <- Hclen. eapply lookup_lt_Some, Hrow'. }
    destruct (has_shape_lookup _ _ _ i (wf_commands _ Hwf) Hi) as (row & Hrow & Hlen).
    eapply (Hcin Hu Hranges i row row'); [apply elem_of_seq; lia | exact Hrow | lia | exact Hrow'].
  - rewrite Hcur, length_seq. reflexivity.
Qed.

(** [step] reads [env_cfg["clip_actions"]] before anything else: without
    the entry it raises [KeyError], whatever the state and the
    arguments. *)
Theorem step_without_clip_actions (actions_in : list (list Q)) (sim : SimOut)
    (self : Env) (g : Rng) :
  Cfg.clip_actions (env_cfg self) = None ->
  step actions_in sim self g = Raise (KeyError "clip_actions").
Proof.
  intros Hnone. unfold step, advance. rewrite Hnone. reflexivity.
Qed.

End ResetAll.

(** With [episode_length_s] = 0 the episode log of [reset_idx] divides by
    zero: the call raises [ZeroDivisionError] as soon as there is a row to
    reset and an accumulator to average, and returns the state untouched
    when there is no row to reset. *)
Theorem reset_idx_zero_episode_length (env_ids : list nat) (self : Env) (g : Rng) :
  (Cfg.episode_length_s (env_cfg self) == 0)%Q ->
  reset_idx [] self g = Ok (self, g)
  /\ (env_ids <> [] ->
      Forall (fun i => (i < num_envs self)%nat) env_ids ->
      episode_sums self <> [] ->
      reset_idx env_ids self g = Raise ZeroDivisionError).
Proof.
  intros Hels. split; [reflexivity|].
  intros Hne Hall Hsums. unfold reset_idx.
  destruct env_ids as [|i ids]; [contradiction|]. cbn [length Nat.eqb].
  rewrite check_rows_ok by exact Hall. cbn [mbind result_bind].
  destruct (episode_sums self) as [|item items]; [contradiction|].
  cbn [for_each]. rewrite log_episode_zero by exact Hels. reflexivity.
Qed.

(** The episode log: [reset_idx] on a non-empty set of rows stores, for
    every accumulator, the mean of the listed rows divided by
    [episode_length_s] under the name rew_<name>, and zeroes the listed
    rows of the accumulator; it creates and drops no accumulator. *)
Theorem reset_idx_episode_log (env_ids : list nat) (self : Env) (g : Rng) :
  env_ids <> [] ->
  index_set (num_envs self) env_ids ->
  (3 <= num_commands self)%nat ->
  ~ (Cfg.episode_length_s (env_cfg self) == 0)%Q ->
  NoDup (dict_keys (episode_sums self)) ->
  exists self' g' ep,
    reset_idx env_ids self g = Ok (self', g')
    /\ episode (extras self') = Some ep
    /\ (forall k v, dict_get (episode_sums self) k = Some v ->
          dict_get ep ("rew_" ++ k)
          = Some (Qmean (rows_get 0%Q v env_ids)
                  / Cfg.episode_length_s (env_cfg self))%Q
          /\ dict_get (episode_sums self') k = Some (rows_fill env_ids 0%Q v))
    /\ (forall k, dict_get (episode_sums self) k = None ->
          dict_get (episode_sums self') k = None).
Proof.
  intros Hne Hids HC Hels Hnd.
  destruct (reset_idx_effect env_ids self g Hids HC Hels) as (self' & g' & Hres & _).
  pose proof Hres as Hres'. unfold reset_idx in Hres'.
  destruct env_ids as [|i0 ids]; [contradiction|]. cbn [length Nat.eqb] in Hres'.
  rewrite check_rows_ok in Hres' by apply Hids. cbn [mbind result_bind] in Hres'.
  destruct (for_each _ (episode_sums self) _) as [[ep sums]|] eqn:Hlog;
    cbn [mbind result_bind] in Hres'; [|discriminate Hres'].
  match type of Hres' with
  | _resample_commands _ ?mid _ = _ =>
      destruct (resample_commands_effect (i0 :: ids) mid g HC Hids)
        as (cmds & g1 & Hcmd & _)
  end.
  rewrite Hcmd in Hres'. injection Hres' as <- <-.
  cbn [episode_sums extras episode with_commands].
  destruct (log_episode_loop_values _ _ _ _ _ _ _ Hnd Hlog) as [Hsum Hep].
  eexists _, _, ep.
  split; [exact Hres|]. split; [reflexivity|]. split.
  - intros k v Hk.
    assert (Hin : k ∈ dict_keys (episode_sums self)).
    { apply dict_get_keys. rewrite Hk. eauto. }
    rewrite Hep, Hsum. rewrite !decide_True by exact Hin. rewrite Hk. split; reflexivity.
  - intros k Hk.
    assert (Hout : k ∉ dict_keys (episode_sums self)).
    { rewrite <- dict_get_keys, Hk. intros [? ?]. discriminate. }
    rewrite Hsum, decide_False by exact Hout. exact Hk.
Qed.

(** ** The concrete robot, again *)

Lemma demo_config_ready :
  @config_ready demo_externals demo_env_cfg demo_obs_cfg demo_reward_cfg demo_command_cfg.
Proof.
  constructor; cbn;
    repeat match goal with
           | |- _ /\ _ => split
           | |- Forall _ _ => constructor
           | |- is_Some _ => eexists; reflexivity
           | |- _ ∈ _ => by_decision
           end;
    try reflexivity; try discriminate; try (vm_compute; discriminate).
Qed.

Lemma init_establishes_invariant_witness :
  exists e,
    @__init__ demo_externals 2 demo_env_cfg demo_obs_cfg demo_reward_cfg demo_command_cfg
    = Ok e
    /\ @wf_env demo_externals e.
Proof.
  exact (init_establishes_invariant (H := demo_externals) 2 demo_env_cfg demo_obs_cfg
           demo_reward_cfg demo_command_cfg demo_config_ready).
Defined.

Lemma init_registry_witness :
  dict_get (reward_scales demo_env) "foot_contact_penalty" = Some (-1.0 * 0.01)%Q
  /\ dict_get (reward_scales demo_env) "survive" = Some (1 * 0.01)%Q
  /\ is_Some (dict_get (episode_sums demo_env) "gait_regularity")
  /\ dict_get (episode_sums demo_env) "lin_vel_z" = None.
Proof.
  assert (Hinit : @__init__ demo_externals 2 demo_env_cfg demo_obs_cfg demo_reward_cfg
                    demo_command_cfg = Ok demo_env) by (vm_compute; reflexivity).
  assert (Hnd : NoDup (dict_keys (configured_scales demo_reward_cfg))).
  { cbn. by_decision. }
  destruct (init_registry (H := demo_externals) 2 demo_env_cfg demo_obs_cfg
              demo_reward_cfg demo_command_cfg demo_env Hinit Hnd)
    as (Hpen & _ & Hscale & _ & _ & Hsums).
  split; [exact Hpen|]. split.
  { apply Hscale; [discriminate | discriminate | reflexivity]. }
  split.
  { apply Hsums. eexists. reflexivity. }
  destruct (dict_get (episode_sums demo_env) "lin_vel_z") eqn:E; [|reflexivity].
  exfalso. assert (Hs : is_Some (dict_get (episode_sums demo_env) "lin_vel_z")).
  { rewrite E. eauto. }
  apply Hsums in Hs as [? Hs]. discriminate Hs.
Defined.

Lemma init_fails_fast_witness :
  @__init__ demo_externals 2 demo_env_cfg demo_obs_cfg unknown_reward_cfg demo_command_cfg
  = Raise (AttributeError "_reward_jump").
Proof.
  destruct (init_fails_fast (H := demo_externals) 2 demo_env_cfg demo_obs_cfg
              unknown_reward_cfg demo_command_cfg) as (_ & Hname & _).
  apply (Hname [("survive", 1%Q)]%string "jump"%string 2%Q []).
  - repeat constructor; by_decision.
  - reflexivity.
  - repeat constructor. eexists. reflexivity.
  - reflexivity.
Defined.

Lemma reset_all_rows_witness :
  exists self' g',
    reset demo_env3 demo_rng = Ok (self', g', (obs_buf demo_env3, None))
    /\ episode_length_buf self' = [0; 0]%Z
    /\ reset_buf self' = [true; true]
    /\ Forall (command_in_ranges demo_command_cfg) (commands self')
    /\ hip_angle_history self' = hip_angle_history demo_env3
    /\ cursor g' = 6%nat.
Proof.
  destruct (reset_all_rows (H := demo_externals) demo_env3 demo_rng demo_env3_wf
              demo_unit_draws demo_ordered_ranges)
    as (self' & g' & Hres & _ & Helb & Hrb & _ & _ & _ & _ & _ & Hcmd & Hhist & Hcur).
  exists self', g'. repeat split; assumption.
Defined.

Lemma step_rows_after_witness :
  exists self' g' obs rew ex,
    @step demo_externals demo_actions (demo_sim 45 0.3) demo_env1 demo_rng
    = Ok (self', g', (obs, rew, [true; false], ex))
    /\ episode_length_buf self' = [0; 2]%Z
    /\ dof_pos self' !! 0%nat = Some (default_dof_pos demo_env1)
    /\ dof_pos self' !! 1%nat = Some [0; 0; 0; 0; 0; 0]%Q
    /\ last_actions self' !! 0%nat = Some (zeros 6)
    /\ last_actions self' !! 1%nat = Some [0; 0; 0; 0; 0; 0]%Q.
Proof.
  destruct (step_rows_after (H := demo_externals) demo_actions (demo_sim 45 0.3)
              demo_env1 demo_rng demo_env1_wf
              (demo_sim_wf demo_env1 45 0.3 eq_refl eq_refl) demo_actions_shape)
    as (self' & g' & obs & rew & done & ex & c & Hstep & Hc & Hlen & Hdone & Hlive).
  assert (Hflags : done = [true; false]).
  { pose proof Hstep as E. vm_compute in E. injection E. intros. symmetry. assumption. }
  subst done.
  destruct (Hdone 0%nat eq_refl) as (Hc0 & Hp0 & _ & Ha0 & _).
  destruct (Hlive 1%nat eq_refl) as (Hc1 & Hp1 & _ & Ha1 & _).
  injection Hc as <-.
  exists self', g', obs, rew, ex. split; [exact Hstep|].
  split.
  { apply list_eq. intros [|[|i]].
    - exact Hc0.
    - rewrite Hc1. reflexivity.
    - apply lookup_ge_None.
      destruct (step_keeps_wf (H := demo_externals) demo_actions (demo_sim 45 0.3)
                  demo_env1 demo_rng demo_env1_wf
                  (demo_sim_wf demo_env1 45 0.3 eq_refl eq_refl) demo_actions_shape)
        as (s & g0 & out & Hstep' & Hwf' & Hattrs').
      rewrite Hstep in Hstep'. injection Hstep' as <- _ _.
      rewrite (wf_episode_length_buf _ Hwf'), Hattrs'. cbn. lia. }
  split; [exact Hp0|]. split; [rewrite Hp1; reflexivity|].
  split; [exact Ha0 | rewrite Ha1; reflexivity].
Defined.

Lemma step_counter_bounded_witness :
  exists self' g' out,
    @step demo_externals demo_actions (demo_sim 0 0) brief_env7 demo_rng
    = Ok (self', g', out)
    /\ Forall (fun n => (0 <= n <= 8)%Z) (episode_length_buf self').
Proof.
  destruct (step_counter_bounded (H := demo_externals) demo_actions (demo_sim 0 0)
              brief_env7 demo_rng brief_env_wf
              (demo_sim_wf brief_env7 0 0 eq_refl eq_refl))
    as (self' & g' & out & Hstep & Hmax & Hall).
  - cbn. lia.
  - repeat constructor; cbn; lia.
  - exists self', g', out. split; [exact Hstep|]. rewrite Hmax in Hall. exact Hall.
Defined.

Lemma step_without_clip_actions_witness :
  Cfg.clip_actions (env_cfg unclipped_env) = None
  /\ @step demo_externals demo_actions (demo_sim 0 0) unclipped_env demo_rng
     = Raise (KeyError "clip_actions").
Proof.
  split; [reflexivity|].
  apply (step_without_clip_actions (H := demo_externals)). reflexivity.
Defined.

Lemma reset_idx_zero_episode_length_witness :
  reset_idx [] timeless_env demo_rng = Ok (timeless_env, demo_rng)
  /\ reset_idx [1%nat] timeless_env demo_rng = Raise ZeroDivisionError.
Proof.
  destruct (reset_idx_zero_episode_length [1%nat] timeless_env demo_rng)
    as [Hnil Hraise]; [reflexivity|].
  split; [exact Hnil|]. apply Hraise.
  - discriminate.
  - repeat constructor.
  - discriminate.
Defined.

Lemma reset_idx_episode_log_witness :
  exists self' g' ep v,
    reset_idx [0%nat] demo_env3 demo_rng = Ok (self', g')
    /\ episode (extras self') = Some ep
    /\ dict_get (episode_sums demo_env3) "survive" = Some v
    /\ dict_get ep "rew_survive" = Some (Qmean (rows_get 0%Q v [0%nat]) / 20)%Q
    /\ dict_get (episode_sums self') "survive" = Some (rows_fill [0%nat] 0%Q v).
Proof.
  assert (Hids : index_set 2 [0%nat]).
  { split; [apply NoDup_singleton | repeat constructor]. }
  destruct (reset_idx_episode_log [0%nat] demo_env3 demo_rng)
    as (self' & g' & ep & Hres & Hep & Hlog & _).
  - discriminate.
  - exact Hids.
  - cbn. lia.
  - discriminate.
  - cbn. by_decision.
  - destruct (dict_get (episode_sums demo_env3) "survive") as [v|] eqn:Hv;
      [|discriminate Hv].
    destruct (Hlog "survive"%string v Hv) as [Hmean Hzero].
    exists self', g', ep, v. repeat split; assumption.
Defined.
